(** * AzadiDNSTester: a shallow embedding of [AzadiDNSTester.py]

    The script reads candidate resolver addresses from [dns_servers.txt],
    asks three questions on standard input, probes every candidate with one
    DNS query, appends each working server to [working_dns.txt] as soon as
    it is found and prints a summary.

    Modelling conventions.
    - Text is Stdlib [string]; only ASCII text is modelled.
    - A Python [float] is represented by the rational number it denotes:
      one that is measured (a response time, the duration of the run) is
      given by the oracle, one that is computed (the success rate) is the
      exact result rounded to the nearest binary64 number.
    - Python exceptions are values of type [exn]; a computation is a
      function from the [World] to a [result] and the next [World]. Only
      exceptions below [Exception] are modelled (no [KeyboardInterrupt]).
    - The network, the resolver library and the clock are an oracle [Env];
      the thread pool is a [Pool]: the order in which the futures are
      taken and the steps the workers take in between. The probes run in
      the workers, not in the loop that takes their results.
      The progress bar has no state of its own in the model.
    - Writing to the console ([print], [tqdm.write]) appends to a log and
      is taken not to raise. *)

From Stdlib Require Import ZArith QArith List String Ascii Bool Lia.
From Stdlib Require Import Permutation Sorted DecimalString.
From stdpp Require Import base gmap strings list.

Local Open Scope string_scope.
Local Open Scope list_scope.

(** ** Text *)

Definition chars (s : string) : list ascii := list_ascii_of_string s.
Definition text (cs : list ascii) : string := string_of_list_ascii cs.

Definition code (c : ascii) : nat := nat_of_ascii c.

Definition in_range (lo hi : nat) (c : ascii) : bool :=
  (lo <=? code c)%nat && (code c <=? hi)%nat.

(** ['0'..'9'] *)
Definition is_digit (c : ascii) : bool := in_range 48 57 c.

(** [str.isspace] on ASCII: TAB LF VT FF CR, FS GS RS US, SPACE. *)
Definition is_space (c : ascii) : bool :=
  in_range 9 13 c || in_range 28 32 c.

(** A word character of [re]: letter, digit or underscore. *)
Definition is_word (c : ascii) : bool :=
  is_digit c || in_range 65 90 c || in_range 97 122 c || (code c =? 95)%nat.

Fixpoint lstrip (s : string) : string :=
  match s with
  | String c s' => if is_space c then lstrip s' else s
  | EmptyString => EmptyString
  end.

Fixpoint rstrip (s : string) : string :=
  match s with
  | String c s' =>
      match rstrip s' with
      | EmptyString => if is_space c then EmptyString else String c EmptyString
      | r => String c r
      end
  | EmptyString => EmptyString
  end.

(** [str.strip()] *)
Definition strip (s : string) : string := rstrip (lstrip s).

Definition is_empty (s : string) : bool :=
  match s with EmptyString => true | _ => false end.

(** [str.isdigit()]: at least one character, all of them digits. *)
Definition isdigit (s : string) : bool :=
  negb (is_empty s) && forallb is_digit (chars s).

Definition digit_value (c : ascii) : Z := Z.of_nat (code c) - 48.

Definition digits_value (cs : list ascii) : Z :=
  fold_left (fun acc c => acc * 10 + digit_value c)%Z cs 0%Z.

(** [c in s] for a one-character [c]. *)
Definition contains (c : ascii) (s : string) : bool :=
  existsb (Ascii.eqb c) (chars s).

(** [s.startswith(p)] *)
Definition startswith (p s : string) : bool := String.prefix p s.

(** [s[:n]] *)
Definition slice_to (n : nat) (s : string) : string := substring 0 n s.

Definition newline : string := String (ascii_of_nat 10) EmptyString.

(** [str(n)] for an [int]. *)
Definition str_of_Z (z : Z) : string := NilZero.string_of_int (Z.to_int z).
Definition str_of_nat (n : nat) : string := str_of_Z (Z.of_nat n).

(** Digit groups separated by single underscores, as [int()] accepts
    them; [prev_digit] tells whether the previous character was a digit,
    [count] is the number of digits so far. The value and the number of
    digits. *)
Fixpoint int_digits (cs : list ascii) (prev_digit : bool) (acc : Z) (count : nat)
  : option (Z * nat) :=
  match cs with
  | [] => if prev_digit then Some (acc, count) else None
  | c :: cs' =>
      if is_digit c then int_digits cs' true (acc * 10 + digit_value c)%Z (S count)
      else if (code c =? 95)%nat && prev_digit then int_digits cs' false acc count
      else None
  end.

(** [sys.get_int_max_str_digits()]: [int()] refuses decimal text with
    more digits. *)
Definition int_max_str_digits : nat := 4300.

Definition within_limit (parsed : option (Z * nat)) : option Z :=
  match parsed with
  | Some (z, count) => if (int_max_str_digits <? count)%nat then None else Some z
  | None => None
  end.

(** [int(s)]: surrounding white space, an optional sign, decimal digits.
    [None] stands for [ValueError]. *)
Definition py_int (s : string) : option Z :=
  match chars (strip s) with
  | c :: cs =>
      if Ascii.eqb c "+" then within_limit (int_digits cs false 0%Z 0)
      else if Ascii.eqb c "-" then Z.opp <$> within_limit (int_digits cs false 0%Z 0)
      else within_limit (int_digits (c :: cs) false 0%Z 0)
  | [] => None
  end.

(** Rounding a non-negative fraction [n/d] to the nearest integer, ties
    to even: what [format] does with the exact value of a float. *)
Definition round_half_even (n d : Z) : Z :=
  let q := (n / d)%Z in
  let r := (n mod d)%Z in
  if (2 * r <? d)%Z then q
  else if (d <? 2 * r)%Z then (q + 1)%Z
  else if Z.even q then q else (q + 1)%Z.

(** [floor(log2(n/d))] for positive [n] and [d]. *)
Definition log2_floor (n d : Z) : Z :=
  let e := (Z.log2 n - Z.log2 d)%Z in
  if (0 <=? e)%Z
  then (if (d * 2 ^ e <=? n)%Z then e else (e - 1)%Z)
  else (if (d <=? n * 2 ^ (- e))%Z then e else (e - 1)%Z).

(** The result of a floating-point operation whose exact result is [q]:
    the binary64 number nearest to [q], of two that are as near the one
    with the even significand. A binary64 number is [m * 2^e] with
    [m < 2^53] and [e >= -1074]. Overflow is left out: the numbers the
    script computes are at most 100. *)
Definition to_double (q : Q) : Q :=
  let n := Z.abs (Qnum q) in
  let d := Z.pos (Qden q) in
  if (n =? 0)%Z then 0%Q
  else
    let e := Z.max (log2_floor n d - 52) (-1074) in
    let m := if (0 <=? e)%Z then round_half_even n (d * 2 ^ e)
             else round_half_even (n * 2 ^ (- e)) d in
    let v := if (0 <=? e)%Z then Qmake (m * 2 ^ e) 1
             else Qmake m (Z.to_pos (2 ^ (- e))) in
    if (Qnum q <? 0)%Z then (- v)%Q else v.

Fixpoint zfill (width : nat) (s : string) : string :=
  if (width <=? String.length s)%nat then s
  else match width with
       | O => s
       | S w => String "0" (zfill w s)
       end.

(** [f"{q:.<digits>f}"] *)
Definition format_f (digits : nat) (q : Q) : string :=
  let scale := (10 ^ Z.of_nat digits)%Z in
  let n := round_half_even (Z.abs (Qnum q) * scale) (Z.pos (Qden q)) in
  let ds := zfill (S digits) (str_of_Z n) in
  let k := (String.length ds - digits)%nat in
  let body :=
    match digits with
    | O => ds
    | _ => substring 0 k ds +:+ "." +:+ substring k digits ds
    end in
  if (Qnum q <? 0)%Z then "-" +:+ body else body.

(** [f"{s:<width}"] *)
Definition ljust (width : nat) (s : string) : string :=
  s +:+ text (repeat " "%char (width - String.length s)).

(** [str.join] with a newline after every line, as a sequence of
    [f.write(line + "\n")] leaves them in a file. *)
Definition unlines (ls : list string) : string :=
  fold_right (fun l acc => l +:+ newline +:+ acc) EmptyString ls.

(** ** Exceptions and effects *)

(** The exception classes the script can meet. *)
Inductive exn_class : Type :=
  | Exception
  | OSError              (* [socket.error] is an alias of it *)
  | FileNotFoundError
  | PermissionError
  | ValueError
  | TypeError
  | IndexError
  | KeyError
  | EOFError
  | RecursionError
  | DNSException         (* [dns.exception.DNSException] *)
  | NXDOMAIN             (* [dns.resolver.NXDOMAIN] *)
  | Timeout              (* [dns.resolver.Timeout] *)
  | NoAnswer.            (* [dns.resolver.NoAnswer] *)

#[global] Instance exn_class_eq_dec : EqDecision exn_class.
Proof. solve_decision. Defined.

(** The base class, [None] for [Exception] itself. *)
Definition base_class (c : exn_class) : option exn_class :=
  match c with
  | Exception => None
  | FileNotFoundError | PermissionError => Some OSError
  | NXDOMAIN | Timeout | NoAnswer => Some DNSException
  | _ => Some Exception
  end.

Fixpoint subclass_upto (n : nat) (c c' : exn_class) : bool :=
  bool_decide (c = c') ||
  match n, base_class c with
  | S n', Some b => subclass_upto n' b c'
  | _, _ => false
  end.

(** [issubclass(c, c')]; the hierarchy is three levels deep. *)
Definition issubclass (c c' : exn_class) : bool := subclass_upto 3 c c'.

(** An exception object: its class and [str(e)]. *)
Record exn : Type := Exn { exn_cls : exn_class; exn_str : string }.

Definition isinstance (e : exn) (c : exn_class) : bool := issubclass (exn_cls e) c.

Inductive result (A : Type) : Type :=
  | Ret (a : A)
  | Raise (e : exn).
Arguments Ret {A} a.
Arguments Raise {A} e.

(** ** The resolver library and the network *)

(** A [dns.resolver.Resolver] object, as far as the script touches it. *)
Record Resolver : Type := {
  configure : bool;              (* read the system's resolver configuration *)
  nameservers : list string;
  timeout : Z;                   (* seconds to wait for one server *)
  lifetime : Z                   (* seconds to spend on the whole query *)
}.

(** [dns.resolver.Resolver(configure=c)]: no name server yet when the
    system's configuration is not read, and the library's defaults. *)
Definition Resolver_new (c : bool) : Resolver :=
  {| configure := c; nameservers := []; timeout := 2; lifetime := 5 |}.

Definition set_nameservers (ns : list string) (r : Resolver) : Resolver :=
  {| configure := configure r; nameservers := ns;
     timeout := timeout r; lifetime := lifetime r |}.
Definition set_timeout (t : Z) (r : Resolver) : Resolver :=
  {| configure := configure r; nameservers := nameservers r;
     timeout := t; lifetime := lifetime r |}.
Definition set_lifetime (t : Z) (r : Resolver) : Resolver :=
  {| configure := configure r; nameservers := nameservers r;
     timeout := timeout r; lifetime := t |}.

(** What [resolver.resolve(domain, 'A')] does: it returns the answer or
    raises. An answer holds at least one record, here as text: for a
    response without records the library raises [NoAnswer]. *)
Inductive reply : Type :=
  | Answers (first : string) (others : list string)
  | Raises (e : exn).

(** The world outside the script that it cannot control. *)
Record Env : Type := {
  (** the text of the [ValueError] that assigning [resolver.nameservers]
      raises when the library rejects the list, if it does *)
  nameservers_error : list string -> option string;
  (** the outcome of one query, and the milliseconds that the two readings
      of [time.time()] around it are apart *)
  resolve : Resolver -> string -> string -> reply * Q;
  (** [datetime.now().strftime("%Y-%m-%d %H:%M:%S")] when the header is written *)
  now : string;
  (** seconds from the start of the test to the report *)
  run_seconds : Q
}.

(** The state the script reads and changes. *)
Record World : Type := {
  files : gmap string string;          (* path to content *)
  read_denied : gset string;           (* paths [open(p, 'r')] refuses *)
  write_denied : gset string;          (* paths [open(p, 'w')] and [open(p, 'a')] refuse *)
  stdin : list string;                 (* the lines still to be read *)
  console : list string;               (* the lines printed so far *)
  queries : list (Resolver * string * string)  (* the DNS queries sent so far *)
}.

Definition M (A : Type) : Type := World -> result A * World.

#[global] Instance M_ret : MRet M := fun A a w => (Ret a, w).
#[global] Instance M_bind : MBind M := fun A B f m w =>
  match m w with
  | (Ret a, w') => f a w'
  | (Raise e, w') => (Raise e, w')
  end.

Definition raise {A : Type} (e : exn) : M A := fun w => (Raise e, w).

(** [try: body  except <clauses>]: [handler e] is [None] when no clause
    matches [e], which then propagates. *)
Definition try_except {A : Type} (body : M A) (handler : exn -> option (M A)) : M A :=
  fun w =>
    match body w with
    | (Ret a, w') => (Ret a, w')
    | (Raise e, w') =>
        match handler e with
        | Some h => h w'
        | None => (Raise e, w')
        end
    end.

(** The outcome of [m] kept as a value, as a future keeps the result or
    the exception of its task. *)
Definition attempt {A : Type} (m : M A) : M (result A) :=
  fun w => (Ret (fst (m w)), snd (m w)).

(** A kept outcome, returned or raised again. *)
Definition resume {A : Type} (r : result A) : M A := fun w => (r, w).

Definition with_files (f : gmap string string -> gmap string string) (w : World) : World :=
  {| files := f (files w); read_denied := read_denied w; write_denied := write_denied w;
     stdin := stdin w; console := console w; queries := queries w |}.

Definition with_console (f : list string -> list string) (w : World) : World :=
  {| files := files w; read_denied := read_denied w; write_denied := write_denied w;
     stdin := stdin w; console := f (console w); queries := queries w |}.

Definition with_stdin (f : list string -> list string) (w : World) : World :=
  {| files := files w; read_denied := read_denied w; write_denied := write_denied w;
     stdin := f (stdin w); console := console w; queries := queries w |}.

Definition with_queries
    (f : list (Resolver * string * string) -> list (Resolver * string * string))
    (w : World) : World :=
  {| files := files w; read_denied := read_denied w; write_denied := write_denied w;
     stdin := stdin w; console := console w; queries := f (queries w) |}.

(** [print(line)] and [tqdm.write(line)] *)
Definition print (line : string) : M unit :=
  fun w => (Ret tt, with_console (fun c => c ++ [line]) w).

(** [input(prompt)]: the prompt is printed, one line is read. *)
Definition input (prompt : string) : M string :=
  fun w =>
    let w := with_console (fun c => c ++ [prompt]) w in
    match stdin w with
    | line :: _ => (Ret line, with_stdin (drop 1) w)
    | [] => (Raise (Exn EOFError "EOF when reading a line"), w)
    end.

(** [os.path.exists(path)] *)
Definition path_exists (path : string) : M bool :=
  fun w => (Ret (bool_decide (is_Some (files w !! path))), w).

Definition errno_text (n what path : string) : string :=
  "[Errno " +:+ n +:+ "] " +:+ what +:+ ": '" +:+ path +:+ "'".

(** [with open(path, 'r') as f: f.read()] *)
Definition read_file (path : string) : M string :=
  fun w =>
    match files w !! path with
    | None => (Raise (Exn FileNotFoundError (errno_text "2" "No such file or directory" path)), w)
    | Some content =>
        if bool_decide (path ∈ read_denied w)
        then (Raise (Exn PermissionError (errno_text "13" "Permission denied" path)), w)
        else (Ret content, w)
    end.

(** [with open(path, 'w') as f:] followed by the writes of [content]:
    the file is created or emptied, then written. *)
Definition write_file (path content : string) : M unit :=
  fun w =>
    if bool_decide (path ∈ write_denied w)
    then (Raise (Exn PermissionError (errno_text "13" "Permission denied" path)), w)
    else (Ret tt, with_files (fun fs => <[path := content]> fs) w).

(** [with open(path, 'a') as f:] followed by the writes of [content]:
    the file is created if missing, and written at its end. *)
Definition append_file (path content : string) : M unit :=
  fun w =>
    if bool_decide (path ∈ write_denied w)
    then (Raise (Exn PermissionError (errno_text "13" "Permission denied" path)), w)
    else (Ret tt, with_files (fun fs => <[path := default EmptyString (fs !! path) +:+ content]> fs) w).

(** ** The IPv4 pattern of [load_servers]

    [\b(?:(?:25[0-5]|2[0-4][0-9]|[01]?[0-9][0-9]?)\.){3}(?:25[0-5]|2[0-4][0-9]|[01]?[0-9][0-9]?)\b]

    A position of the matcher is the character before it, if any, and the
    text after it. A pattern maps a position to the positions where a
    match of it can end, in the order in which the backtracking matcher
    of [re] tries them. *)

Definition position : Type := option ascii * list ascii.
Definition pattern : Type := position -> list position.

(** one character satisfying [p] *)
Definition one (p : ascii -> bool) : pattern := fun pos =>
  match snd pos with
  | c :: cs => if p c then [(Some c, cs)] else []
  | [] => []
  end.

Definition chr (c : ascii) : pattern := one (Ascii.eqb c).

(** [r1 r2] *)
Definition cat (r1 r2 : pattern) : pattern := fun pos => r1 pos ≫= r2.

(** [r1|r2] *)
Definition alt (r1 r2 : pattern) : pattern := fun pos => r1 pos ++ r2 pos.

(** [r?], greedy *)
Definition opt (r : pattern) : pattern := fun pos => r pos ++ [pos].

Definition word_before (pos : position) : bool :=
  match fst pos with Some c => is_word c | None => false end.
Definition word_after (pos : position) : bool :=
  match snd pos with c :: _ => is_word c | [] => false end.

(** [\b] *)
Definition word_boundary : pattern := fun pos =>
  if xorb (word_before pos) (word_after pos) then [pos] else [].

(** [25[0-5]|2[0-4][0-9]|[01]?[0-9][0-9]?] *)
Definition octet : pattern :=
  alt (cat (chr "2") (cat (chr "5") (one (in_range 48 53))))
 (alt (cat (chr "2") (cat (one (in_range 48 52)) (one is_digit)))
      (cat (opt (one (in_range 48 49))) (cat (one is_digit) (opt (one is_digit))))).

Definition octet_dot : pattern := cat octet (chr ".").

Definition ip_pattern : pattern :=
  cat word_boundary
 (cat octet_dot (cat octet_dot (cat octet_dot (cat octet word_boundary)))).

(** [ip_pattern.match] at a position: the matched text, if any. *)
Definition match_at (pos : position) : option (list ascii) :=
  match ip_pattern pos with
  | (_, rest) :: _ => Some (take (length (snd pos) - length rest) (snd pos))
  | [] => None
  end.

(** The scan of [findall]: [skip] characters of the last match are still
    to be passed over; [prev] is the character before [cs]. *)
Fixpoint scan (prev : option ascii) (cs : list ascii) (skip : nat) : list string :=
  match cs with
  | [] => []
  | c :: cs' =>
      match skip with
      | S k => scan (Some c) cs' k
      | O =>
          match match_at (prev, cs) with
          | Some m => text m :: scan (Some c) cs' (length m - 1)
          | None => scan (Some c) cs' 0
          end
      end
  end.

(** [ip_pattern.findall(content)] *)
Definition findall (content : string) : list string := scan None (chars content) 0.

(** ** Loading the candidates *)

Definition sample_servers : list string :=
  [ "1.1.1.1"; "1.0.0.1"; "8.8.8.8"; "8.8.4.4"; "9.9.9.9";
    "208.67.222.222"; "208.67.220.220"; "4.2.2.1"; "4.2.2.2" ].

(** [os.path.join(get_script_dir(), filename)]: paths are taken relative
    to the directory of the script. *)
Definition script_path (filename : string) : string := filename.

Definition catch_all {A : Type} (h : exn -> M A) : exn -> option (M A) :=
  fun e => if isinstance e Exception then Some (h e) else None.

Definition create_sample_servers (filename : string) : M unit :=
  let filepath := script_path filename in
  present ← path_exists filepath;
  if (present : bool) then mret tt
  else
    try_except
      (write_file filepath (unlines sample_servers);;
       print ("Created sample " +:+ filename +:+ " with "
              +:+ str_of_nat (length sample_servers) +:+ " servers"))
      (catch_all (fun e => print ("Error creating " +:+ filename +:+ ": " +:+ exn_str e))).

(** The body of [load_servers]; [again] is its call to itself. *)
Definition load_servers_body (again : M (list string)) (filename : string)
  : M (list string) :=
  let filepath := script_path filename in
  try_except
    (content ← read_file filepath;
     let all_ips := findall content in
     let servers := elements (list_to_set all_ips : gset string) in
     print ("Extracted " +:+ str_of_nat (length servers)
            +:+ " UNIQUE IPv4 addresses from " +:+ filepath);;
     print ("Total IPs found (with duplicates): " +:+ str_of_nat (length all_ips));;
     print ("UNIQUE IPs:  " +:+ str_of_nat (length servers));;
     match servers with
     | [] =>
         print "No valid IPv4 addresses found. Creating sample file...";;
         create_sample_servers filename;;
         again
     | _ => mret servers
     end)
    (fun e =>
       if isinstance e FileNotFoundError then Some (
         print (filepath +:+ " not found. Creating sample file...");;
         create_sample_servers filename;;
         again)
       else if isinstance e Exception then Some (
         print ("Error loading servers: " +:+ exn_str e);;
         mret [])
       else None).

(** The interpreter allows a bounded number of nested calls and raises
    [RecursionError] beyond it; [depth] is the number of activations of
    [load_servers] that still fit. *)
Fixpoint load_servers_within (depth : nat) (filename : string) : M (list string) :=
  match depth with
  | O => raise (Exn RecursionError "maximum recursion depth exceeded")
  | S depth' => load_servers_body (load_servers_within depth' filename) filename
  end.

(** [sys.getrecursionlimit()] *)
Definition recursion_limit : nat := 1000.

Definition load_servers (filename : string) : M (list string) :=
  load_servers_within recursion_limit filename.

(** ** The ledger [working_dns.txt]

    [file_lock] is held around every access. Run by one thread alone,
    taking and releasing it has no effect: these are the two functions
    as one thread runs them from beginning to end. What several threads
    can do to the file together is modelled further down, step by step. *)

Definition ledger_path : string := script_path "working_dns.txt".

Definition header_lines (timestamp test_domain : string) : list string :=
  [ "# Working DNS servers - Tested: " +:+ timestamp;
    "# Test domain: " +:+ test_domain;
    "# Format: IP (response_time_ms)" ].

Definition write_header (env : Env) (test_domain : string) : M unit :=
  let filepath := ledger_path in
  let timestamp := now env in
  try_except
    (write_file filepath (unlines (header_lines timestamp test_domain));;
     print "Header written to working_dns.txt")
    (catch_all (fun e => print ("Header write error: " +:+ exn_str e))).

Definition real_time_save (server_info : string) : M unit :=
  let filepath := ledger_path in
  try_except
    (append_file filepath (server_info +:+ newline))
    (catch_all (fun e => print ("Real-time save error: " +:+ exn_str e))).

(** ** The three questions *)

(** [while True: body]: [body] yields [Some a] for [return a] and [None]
    to go round again. *)
Fixpoint while_true {A : Type} (rounds : nat) (body : M (option A)) : M A :=
  match rounds with
  | O => raise (Exn EOFError "EOF when reading a line")
  | S rounds' =>
      r ← body;
      match r with
      | Some a => mret a
      | None => while_true rounds' body
      end
  end.

(** The loops below read one line in every round, so they go round at
    most once more than there are lines on standard input (the last
    round then ends in [EOFError]). *)
Definition prompt_loop {A : Type} (body : M (option A)) : M A :=
  fun w => while_true (S (length (stdin w))) body w.

(** The [ValueError] of [int(s)]; the wording of its text is not modelled. *)
Definition int_error (s : string) : exn :=
  Exn ValueError ("int() cannot convert '" +:+ s +:+ "'").

(** [int(choice)] *)
Definition int (s : string) : M Z :=
  match py_int s with
  | Some z => mret z
  | None => raise (int_error s)
  end.

Definition on_class {A : Type} (c : exn_class) (h : M A) : exn -> option (M A) :=
  fun e => if isinstance e c then Some h else None.

Definition get_worker_count : M Z :=
  prompt_loop (
    try_except
      (print (newline +:+ "Workers (parallel tests, default: 100, max: 500):");;
       print "  Enter number (1-500) or press Enter for 100";;
       line ← input "Workers: ";
       let choice := strip line in
       if is_empty choice then mret (Some 100%Z)
       else
         workers ← int choice;
         if ((1 <=? workers) && (workers <=? 500))%Z then mret (Some workers)
         else print "Invalid! Use 1-500";; mret None)
      (on_class ValueError (print "Invalid! Enter a number";; mret None))).

Definition get_timeout : M Z :=
  prompt_loop (
    try_except
      (print (newline +:+ "Timeout per test (seconds, default: 3, range: 1-10):");;
       print "  Enter number (1-10) or press Enter for 3";;
       line ← input "Timeout: ";
       let choice := strip line in
       if is_empty choice then mret (Some 3%Z)
       else
         t ← int choice;
         if ((1 <=? t) && (t <=? 10))%Z then mret (Some t)
         else print "Invalid! Use 1-10 seconds";; mret None)
      (on_class ValueError (print "Invalid! Enter a number";; mret None))).

Definition domains : list string := [ "google.com"; "cloudflare.com"; "example.com" ].

(** [print] of the menu: one line per domain, numbered from 1. *)
Fixpoint print_menu (i : nat) (ds : list string) : M unit :=
  match ds with
  | [] => mret tt
  | d :: ds' => print ("  " +:+ str_of_nat i +:+ ". " +:+ d);; print_menu (S i) ds'
  end.

(** [domains[i]] for [i >= 0] *)
Definition item {A : Type} (l : list A) (i : Z) : M A :=
  match l !! Z.to_nat i with
  | Some a => mret a
  | None => raise (Exn IndexError "list index out of range")
  end.

(** One round of the loop of [get_test_domain]. *)
Definition get_test_domain_round : M (option string) :=
  line ← input (newline +:+ "Enter choice (1-3 or domain): ");
  let choice := strip line in
  menu ← (if isdigit choice
          then v ← int choice; mret ((1 <=? v) && (v <=? 3))%Z
          else mret false);
  if (menu : bool)
  then v ← int choice; d ← item domains (v - 1); mret (Some d)
  else if negb (is_empty choice) && contains "." choice
          && negb (startswith "http://" choice || startswith "https://" choice)
  then mret (Some choice)
  else if is_empty choice then mret (Some "google.com")
  else print "Invalid! Use 1-3 or valid domain (e.g., example.com)";; mret None.

Definition get_test_domain : M string :=
  print (newline +:+ "Test domains (enter number 1-3 or type domain):");;
  print_menu 1 domains;;
  print "  or type your own domain";;
  prompt_loop get_test_domain_round.

(** ** [socket.inet_aton]

    The library function hands the text to the C function [inet_aton],
    which reads the numbers-and-dots notation of inet(3): one to four
    numbers separated by dots, each decimal, octal (leading [0]) or
    hexadecimal (leading [0x]); the last number fills the bytes that are
    left. Text with a NUL character never reaches the C function. *)

Definition is_octal (c : ascii) : bool := in_range 48 55 c.
Definition is_hex (c : ascii) : bool :=
  is_digit c || in_range 65 70 c || in_range 97 102 c.

Definition hex_value (c : ascii) : Z :=
  if is_digit c then digit_value c
  else if in_range 65 70 c then Z.of_nat (code c) - 55
  else Z.of_nat (code c) - 87.

Fixpoint span (p : ascii -> bool) (cs : list ascii) : list ascii * list ascii :=
  match cs with
  | c :: cs' => if p c then let '(a, b) := span p cs' in (c :: a, b) else ([], cs)
  | [] => ([], [])
  end.

Definition number (base : Z) (ds : list ascii) : Z :=
  fold_left (fun acc c => acc * base + hex_value c)%Z ds 0%Z.

(** [strtoul(cp, &endp, 0)] on text that starts with a digit: the value
    and the text left. *)
Definition strtoul (cs : list ascii) : Z * list ascii :=
  match cs with
  | "0"%char :: x :: h :: rest =>
      if ((code x =? 120)%nat || (code x =? 88)%nat) && is_hex h
      then let '(ds, rest') := span is_hex (h :: rest) in (number 16 ds, rest')
      else let '(ds, rest') := span is_octal cs in (number 8 ds, rest')
  | "0"%char :: _ => let '(ds, rest') := span is_octal cs in (number 8 ds, rest')
  | _ => let '(ds, rest') := span is_digit cs in (number 10 ds, rest')
  end.

(** The largest last number when [parts] numbers came before it. *)
Definition last_max (parts : nat) : Z :=
  match parts with
  | 0%nat => 4294967295
  | 1%nat => 16777215
  | 2%nat => 65535
  | _ => 255
  end.

(** C's [isspace] *)
Definition is_cspace (c : ascii) : bool := in_range 9 13 c || (code c =? 32)%nat.

Definition trailing_ok (rest : list ascii) : bool :=
  match rest with
  | [] => true
  | c :: _ => is_cspace c
  end.

(** The loop of the C function; every round reads at least two
    characters, so [rounds] bounded by the length of the text is enough. *)
Fixpoint inet_aton_from (rounds : nat) (cs : list ascii) (parts : nat) : bool :=
  match rounds, cs with
  | S rounds', c :: _ =>
      if is_digit c then
        let '(val, rest) := strtoul cs in
        match rest with
        | "."%char :: rest' =>
            if (2 <? parts)%nat || (255 <? val)%Z then false
            else inet_aton_from rounds' rest' (S parts)
        | _ => trailing_ok rest && (val <=? last_max parts)%Z
        end
      else false
  | _, _ => false
  end.

Definition c_inet_aton (cs : list ascii) : bool := inet_aton_from (length cs) cs 0.

Definition has_nul (s : string) : bool := existsb (fun c => (code c =? 0)%nat) (chars s).

(** [socket.inet_aton(server)]; the packed address is not used. *)
Definition inet_aton (server : string) : M unit :=
  if has_nul server then raise (Exn ValueError "embedded null character")
  else if c_inet_aton (chars server) then mret tt
  else raise (Exn OSError "illegal IP address string passed to inet_aton").

(** ** One probe *)

(** What a probe returns: [(success, (server, response_time), message)];
    [response_time] is [None] or a float. *)
Definition probe : Type := bool * (string * option Q) * string.

(** [resolver.nameservers = ns] *)
Definition assign_nameservers (env : Env) (ns : list string) (r : Resolver) : M Resolver :=
  match nameservers_error env ns with
  | Some msg => raise (Exn ValueError msg)
  | None => mret (set_nameservers ns r)
  end.

(** [resolver.resolve(domain, rdtype)]: the query is sent, the answer
    returned or the error raised. *)
Definition do_resolve (env : Env) (r : Resolver) (domain rdtype : string) : M (list string) :=
  fun w =>
    let w' := with_queries (fun qs => qs ++ [(r, domain, rdtype)]) w in
    match fst (resolve env r domain rdtype) with
    | Answers first others => (Ret (first :: others), w')
    | Raises e => (Raise e, w')
    end.

(** [(time.time() - start_time) * 1000] after the query *)
Definition elapsed_ms (env : Env) (r : Resolver) (domain rdtype : string) : Q :=
  snd (resolve env r domain rdtype).

Definition test_single_server (env : Env) (server domain : string) (timeout : Z) : M probe :=
  invalid ← try_except
    (inet_aton server;; mret None)
    (on_class OSError (mret (Some (false, (server, None), server +:+ " INVALID IP"))));
  match invalid with
  | Some early => mret early
  | None =>
      let resolver := Resolver_new false in
      resolver ← assign_nameservers env [server] resolver;
      let resolver := set_timeout timeout resolver in
      let resolver := set_lifetime timeout resolver in
      let response_time := elapsed_ms env resolver domain "A" in
      let ms := format_f 0 response_time +:+ "ms" in
      try_except
        (answers ← do_resolve env resolver domain "A";
         first_ip ← item answers 0;   (* [str(answers[0])] *)
         let result := (server, Some response_time) in
         let server_info := server +:+ " (" +:+ ms +:+ ")" in
         real_time_save server_info;;
         mret (true, result,
               server +:+ " OK " +:+ ms +:+ " (" +:+ first_ip +:+ ") - "
               +:+ str_of_nat (length answers) +:+ " records"))
        (fun e =>
           if isinstance e NXDOMAIN then Some (
             mret (false, (server, Some response_time),
                   server +:+ " NXDOMAIN (" +:+ ms +:+ ")"))
           else if isinstance e Timeout then Some (
             mret (false, (server, Some response_time),
                   server +:+ " TIMEOUT (" +:+ str_of_Z timeout +:+ "s, " +:+ ms +:+ ")"))
           else if isinstance e NoAnswer then Some (
             mret (false, (server, Some response_time),
                   server +:+ " NO ANSWER (" +:+ ms +:+ ")"))
           else if isinstance e DNSException then Some (
             mret (false, (server, Some response_time),
                   server +:+ " DNS ERROR (" +:+ slice_to 20 (exn_str e) +:+ ", " +:+ ms +:+ ")"))
           else if isinstance e Exception then Some (
             mret (false, (server, Some response_time),
                   server +:+ " ERROR (" +:+ slice_to 20 (exn_str e) +:+ ", " +:+ ms +:+ ")"))
           else None)
  end.

(** A probe as a worker of the pool runs it, in the two steps between
    which other threads get to run: the first up to the point where
    [resolver.resolve] has returned or raised (lines 176 to 188), the
    second from there to the end (lines 189 to 211). Run one after the
    other they are [test_single_server]. Each step is taken as a whole:
    what the second shares with other threads is the ledger, which it
    reaches under [file_lock] (see the threads at the ledger below). *)
Inductive started : Type :=
  | Settled (early : probe)        (* the probe has returned at line 179 *)
  | Asked (resolver : Resolver) (answer : result (list string)).
                                   (* the outcome of [resolver.resolve(domain, 'A')] *)

Definition probe_begin (env : Env) (server domain : string) (timeout : Z) : M started :=
  invalid ← try_except
    (inet_aton server;; mret None)
    (on_class OSError (mret (Some (false, (server, None), server +:+ " INVALID IP"))));
  match invalid with
  | Some early => mret (Settled early)
  | None =>
      let resolver := Resolver_new false in
      resolver ← assign_nameservers env [server] resolver;
      let resolver := set_timeout timeout resolver in
      let resolver := set_lifetime timeout resolver in
      answer ← attempt (do_resolve env resolver domain "A");
      mret (Asked resolver answer)
  end.

Definition probe_end (env : Env) (server domain : string) (timeout : Z) (s : started)
  : M probe :=
  match s with
  | Settled early => mret early
  | Asked resolver answer =>
      let response_time := elapsed_ms env resolver domain "A" in
      let ms := format_f 0 response_time +:+ "ms" in
      try_except
        (answers ← resume answer;
         first_ip ← item answers 0;
         let result := (server, Some response_time) in
         let server_info := server +:+ " (" +:+ ms +:+ ")" in
         real_time_save server_info;;
         mret (true, result,
               server +:+ " OK " +:+ ms +:+ " (" +:+ first_ip +:+ ") - "
               +:+ str_of_nat (length answers) +:+ " records"))
        (fun e =>
           if isinstance e NXDOMAIN then Some (
             mret (false, (server, Some response_time),
                   server +:+ " NXDOMAIN (" +:+ ms +:+ ")"))
           else if isinstance e Timeout then Some (
             mret (false, (server, Some response_time),
                   server +:+ " TIMEOUT (" +:+ str_of_Z timeout +:+ "s, " +:+ ms +:+ ")"))
           else if isinstance e NoAnswer then Some (
             mret (false, (server, Some response_time),
                   server +:+ " NO ANSWER (" +:+ ms +:+ ")"))
           else if isinstance e DNSException then Some (
             mret (false, (server, Some response_time),
                   server +:+ " DNS ERROR (" +:+ slice_to 20 (exn_str e) +:+ ", " +:+ ms +:+ ")"))
           else if isinstance e Exception then Some (
             mret (false, (server, Some response_time),
                   server +:+ " ERROR (" +:+ slice_to 20 (exn_str e) +:+ ", " +:+ ms +:+ ")"))
           else None)
  end.

(** ** Sorting

    [sorted(l, key=key)] is stable: elements with equal keys keep their
    order. Insertion from the right, each element placed before the first
    one whose key is not smaller, computes that list. *)

Section Sort.
Context {A : Type} (key : A -> Q).

Fixpoint insert_by (x : A) (l : list A) : list A :=
  match l with
  | [] => [x]
  | y :: l' => if Qle_bool (key x) (key y) then x :: l else y :: insert_by x l'
  end.

Definition sorted_by (l : list A) : list A := fold_right insert_by [] l.

(** [l] is in ascending order of the keys. *)
Definition ascending (l : list A) : Prop :=
  StronglySorted (fun a b => (key a <= key b)%Q) l.

(** The elements with a key equal to [q], in their order in [l]. *)
Definition with_key (q : Q) (l : list A) : list A :=
  List.filter (fun x => Qeq_bool (key x) q) l.
End Sort.

(** ** The run *)

(** The thread pool, seen from the script. [executor.submit] queues a
    task for every server, numbered here in the order of submission, and
    the workers run them while the script goes on: a worker takes a task
    through [probe_begin] and then through [probe_end]. The pool and the
    scheduler decide

    - the order in which [as_completed] yields the futures, here by the
      time [completes] gives each task;
    - the steps the workers take while the loop waits for its next
      future: [runs] gives, for the [k]-th future the loop takes, counted
      from 0, the numbers of the tasks that step before it is taken, each
      as often and where it steps.

    Both may depend on the number of workers in any way. What the model
    fixes is that a task is over when the loop takes its future, and that
    all tasks are over when the loop ends. *)
Record Pool : Type := {
  completes : Z -> nat -> Q;
  runs : Z -> nat -> list nat
}.

(** [executor.submit(test_single_server, server, domain, timeout)] for
    every server: the futures, each with the server it was given. *)
Definition submit_all (servers : list string) : list (nat * string) := imap pair servers.

(** [future_to_server] *)
Definition future_to_server (servers : list string) : gmap nat string :=
  list_to_map (submit_all servers).

(** [as_completed(future_to_server)] *)
Definition as_completed (pool : Pool) (workers : Z) (futures : list (nat * string))
  : list (nat * string) :=
  sorted_by (fun f => completes pool workers (fst f)) futures.

(** [future_to_server[future]] *)
Definition dict_get (d : gmap nat string) (k : nat) : M string :=
  match d !! k with
  | Some v => mret v
  | None => raise (Exn KeyError (str_of_nat k))
  end.

(** Where a task is: in the queue, between its two steps, or over, with
    the result or the exception its future holds. *)
Inductive task : Type :=
  | Queued
  | Begun (s : started)
  | Over (outcome : result probe).

(** The next step of the task for [server]. *)
Definition work (env : Env) (domain : string) (timeout : Z) (server : string) (t : task)
  : M task :=
  match t with
  | Queued =>
      s ← attempt (probe_begin env server domain timeout);
      mret (match s with
            | Ret s => Begun s
            | Raise e => Over (Raise e)
            end)
  | Begun s =>
      outcome ← attempt (probe_end env server domain timeout s);
      mret (Over outcome)
  | Over outcome => mret (Over outcome)
  end.

(** A step of the worker that has task [j]; there is none to take for a
    number that is no task's. *)
Definition worker_step (env : Env) (domain : string) (timeout : Z) (servers : list string)
    (j : nat) (tasks : list task) : M (list task) :=
  match servers !! j, tasks !! j with
  | Some server, Some t =>
      t' ← work env domain timeout server t;
      mret (<[j := t']> tasks)
  | _, _ => mret tasks
  end.

Fixpoint workers_run (env : Env) (domain : string) (timeout : Z) (servers : list string)
    (schedule : list nat) (tasks : list task) : M (list task) :=
  match schedule with
  | [] => mret tasks
  | j :: schedule' =>
      tasks ← worker_step env domain timeout servers j tasks;
      workers_run env domain timeout servers schedule' tasks
  end.

(** What is left of a task, run to its end; the outcome it ends with. *)
Definition finish (env : Env) (domain : string) (timeout : Z) (server : string) (t : task)
  : M (result probe) :=
  match t with
  | Queued =>
      attempt (s ← probe_begin env server domain timeout;
               probe_end env server domain timeout s)
  | Begun s => attempt (probe_end env server domain timeout s)
  | Over outcome => mret outcome
  end.

(** The body of [for future in as_completed(future_to_server)] and the
    loop. [tasks] is where the tasks are, [taken] the number of futures
    taken so far, [working] and [failed] the two lists so far. Before the
    loop gets its next future the workers step as the pool has it, and
    the task of that future runs to its end if it has not yet;
    [future.result()] then returns or raises what the future holds. *)
Fixpoint collect (env : Env) (pool : Pool) (workers : Z) (domain : string) (timeout : Z)
    (d : gmap nat string) (servers : list string) (futures : list (nat * string))
    (tasks : list task) (taken : nat)
    (working : list (string * option Q)) (failed : list string)
  : M (list (string * option Q) * list string) :=
  match futures with
  | [] => mret (working, failed)
  | (future, submitted) :: rest =>
      tasks ← workers_run env domain timeout servers (runs pool workers taken) tasks;
      outcome ← finish env domain timeout submitted (default Queued (tasks !! future));
      let tasks := <[future := Over outcome]> tasks in
      lists ← try_except
        ('(success, result, message) ← resume outcome;
         let '(server_ip, response_time) := result in
         if (success : bool)
         then print ("✅ " +:+ message);; mret (working ++ [result], failed)
         else print ("❌ " +:+ message);; mret (working, failed ++ [server_ip]))
        (catch_all (fun e =>
           server ← dict_get d future;
           print ("CRASH " +:+ server +:+ ": " +:+ slice_to 30 (exn_str e));;
           mret (working, failed ++ [server])));
      collect env pool workers domain timeout d servers rest tasks (S taken)
        (fst lists) (snd lists)
  end.

(** [sorted(working, key=lambda x: x[1])]: a float and [None] do not
    compare, and a list of two or more is sorted by comparing. *)
Definition latency (x : string * option Q) : Q := default 0%Q (snd x).

Definition sorted_working (working : list (string * option Q))
  : M (list (string * option Q)) :=
  if (2 <=? length working)%nat && existsb (fun x => bool_decide (snd x = None)) working
  then raise (Exn TypeError "'<' not supported between instances of 'NoneType' and 'float'")
  else mret (sorted_by latency working).

(** [for i, (server_ip, response_time) in enumerate(entries, i): print(...)] *)
Fixpoint print_entries (i : nat) (entries : list (string * option Q)) : M unit :=
  match entries with
  | [] => mret tt
  | (server_ip, response_time) :: rest =>
      match response_time with
      | Some t =>
          print ("  " +:+ str_of_nat i +:+ ". " +:+ ljust 15 server_ip
                 +:+ " " +:+ format_f 0 t +:+ "ms")
      | None => raise (Exn TypeError "unsupported format string passed to NoneType.__format__")
      end;;
      print_entries (S i) rest
  end.

(** The section of the report on the fastest servers. *)
Definition top5 (working : list (string * option Q)) : M unit :=
  match working with
  | [] => mret tt
  | _ =>
      print "TOP 5 FASTEST SERVERS:";;
      sorted ← sorted_working working;
      print_entries 1 (take 5 sorted);;
      (if (5 <? length working)%nat
       then print ("  ... " +:+ str_of_nat (length working - 5) +:+ " more servers")
       else mret tt);;
      print ""
  end.

(** [(len(working) / len(servers) * 100) if servers else 0]: the
    quotient of the two lengths is a float, and so is its product with
    100. *)
Definition success_rate (working : list (string * option Q)) (servers : list string) : Q :=
  match servers with
  | [] => 0
  | _ => to_double (to_double (Z.of_nat (length working) # Pos.of_nat (length servers)) * 100)
  end.

Definition rule (c : ascii) (n : nat) : string := text (repeat c n).

(** [check_dns_servers] from [write_header(domain)] to the end of the
    loop over the completed futures: the two lists it leaves. *)
Definition test_all (env : Env) (pool : Pool) (servers : list string)
    (workers timeout : Z) (domain : string)
  : M (list (string * option Q) * list string) :=
  write_header env domain;;
  print (newline +:+ "Starting test of " +:+ str_of_nat (length servers) +:+ " DNS servers");;
  print ("Config: Workers=" +:+ str_of_Z workers +:+ " | Timeout=" +:+ str_of_Z timeout
         +:+ "s | Domain=" +:+ domain);;
  print "Working servers will be SAVED IMMEDIATELY as found!";;
  print (rule "-" 70);;
  print "Testing servers...";;
  let d := future_to_server servers in
  collect env pool workers domain timeout d servers
    (as_completed pool workers (submit_all servers))
    (replicate (length servers) Queued) 0 [] [].

(** [check_dns_servers] from the heading of the results to its end. *)
Definition report (env : Env) (servers : list string) (domain : string)
    (working : list (string * option Q)) (failed : list string)
  : M (list (string * option Q)) :=
  print (newline +:+ rule "=" 60);;
  print "DNS SERVER TEST RESULTS";;
  print (rule "=" 60);;
  let elapsed := run_seconds env in
  let rate := success_rate working servers in
  print ("Total servers tested: " +:+ str_of_nat (length servers));;
  print ("Working servers:      " +:+ str_of_nat (length working)
         +:+ " (" +:+ format_f 1 rate +:+ "%)");;
  print ("Failed servers:       " +:+ str_of_nat (length failed));;
  print ("Test duration:        " +:+ format_f 1 elapsed +:+ " seconds");;
  print ("Test domain:          " +:+ domain);;
  print "";;
  top5 working;;
  print ("Results saved: working_dns.txt (" +:+ str_of_nat (length working) +:+ " servers)");;
  print (rule "=" 60);;
  mret working.

Definition check_dns_servers (env : Env) (pool : Pool) (filename : string)
  : M (list (string * option Q)) :=
  print "Azadi DNS Tester";;
  print (rule "=" 70);;
  servers ← load_servers filename;
  match servers with
  | [] => print "No servers to test. Exiting.";; mret []
  | _ =>
      workers ← get_worker_count;
      timeout ← get_timeout;
      domain ← get_test_domain;
      lists ← test_all env pool servers workers timeout domain;
      report env servers domain (fst lists) (snd lists)
  end.

(** ** Threads at the ledger

    [write_header] and [real_time_save] have the same shape:

      with file_lock:
          try:
              with open(filepath, mode) as f:
                  f.write(...)
          except Exception as e: ...

    A thread in one of them is at one of the points of [pc]. The steps
    are as fine as they can be: every character reaches the file in a
    step of its own, and between two steps of one thread any other thread
    may run. Only taking the lock waits for anything. *)

Inductive mode : Type :=
  | Truncate   (* ['w'] *)
  | Append.    (* ['a'] *)

(** What a call writes: the mode and the whole text. *)
Abbreviation file_op := (mode * list ascii)%type.

Definition write_header_op (timestamp test_domain : string) : file_op :=
  (Truncate, chars (unlines (header_lines timestamp test_domain))).

Definition real_time_save_op (server_info : string) : file_op :=
  (Append, chars (server_info +:+ newline)).

Inductive pc : Type :=
  | Start                          (* before [with file_lock] *)
  | Holding                        (* the lock is taken, the file not yet open *)
  | Writing (todo : list ascii)    (* the file is open, [todo] is still to be written *)
  | Releasing                      (* the file is closed, or could not be opened *)
  | Finished.                      (* the lock is given back *)

Record Shared : Type := {
  lock : option nat;               (* the thread that holds [file_lock] *)
  content : list ascii;            (* the content of the ledger *)
  threads : list pc                (* where each thread is *)
}.

(** The next step of thread [i], if it can take one. [writable] tells
    whether [open] succeeds. *)
Definition step_thread (writable : bool) (ops : list file_op) (i : nat) (s : Shared)
  : option Shared :=
  match threads s !! i, ops !! i with
  | Some Start, Some _ =>
      match lock s with
      | None => Some {| lock := Some i; content := content s;
                        threads := <[i := Holding]> (threads s) |}
      | Some _ => None
      end
  | Some Holding, Some (m, txt) =>
      if writable
      then Some {| lock := lock s;
                   content := match m with Truncate => [] | Append => content s end;
                   threads := <[i := Writing txt]> (threads s) |}
      else Some {| lock := lock s; content := content s;
                   threads := <[i := Releasing]> (threads s) |}
  | Some (Writing (c :: todo)), Some _ =>
      Some {| lock := lock s; content := content s ++ [c];
              threads := <[i := Writing todo]> (threads s) |}
  | Some (Writing []), Some _ =>
      Some {| lock := lock s; content := content s;
              threads := <[i := Releasing]> (threads s) |}
  | Some Releasing, Some _ =>
      Some {| lock := None; content := content s;
              threads := <[i := Finished]> (threads s) |}
  | _, _ => None
  end.

(** A run: the threads step in the order the scheduler picks them; a
    thread picked while it cannot step just waits. *)
Fixpoint run_threads (writable : bool) (ops : list file_op) (schedule : list nat)
    (s : Shared) : Shared :=
  match schedule with
  | [] => s
  | i :: schedule' =>
      run_threads writable ops schedule' (default s (step_thread writable ops i s))
  end.

Definition start_state (ops : list file_op) (ledger : list ascii) : Shared :=
  {| lock := None; content := ledger; threads := replicate (length ops) Start |}.

Definition all_finished (s : Shared) : bool :=
  forallb (fun p => match p with Finished => true | _ => false end) (threads s).

(** One call run from beginning to end without interruption. *)
Definition apply_op (writable : bool) (ledger : list ascii) (op : file_op) : list ascii :=
  if writable
  then match fst op with
       | Truncate => snd op
       | Append => ledger ++ snd op
       end
  else ledger.

(** The steps a thread at [p] in a call that writes [op] has still to take. *)
Definition steps_left (op : file_op) (p : pc) : nat :=
  match p with
  | Start => 4 + length (snd op)
  | Holding => 3 + length (snd op)
  | Writing todo => 2 + length todo
  | Releasing => 1
  | Finished => 0
  end.

Definition steps_left_all (ops : list file_op) (s : Shared) : nat :=
  sum_list (zip_with steps_left ops (threads s)).

(** A thread between taking the lock and giving it back. *)
Definition critical (p : pc) : bool :=
  match p with
  | Holding | Writing _ | Releasing => true
  | Start | Finished => false
  end.

(** A thread that is through with the file. *)
Definition written (p : pc) : bool :=
  match p with
  | Releasing | Finished => true
  | _ => false
  end.

(** The calls of the threads [order], in that order. *)
Definition ops_of (ops : list file_op) (order : list nat) : list file_op :=
  omap (fun i => ops !! i) order.

(** The ledger after the calls of the threads [order] were run one after
    the other, each from beginning to end. *)
Definition serial (writable : bool) (ops : list file_op) (order : list nat)
    (ledger : list ascii) : list ascii :=
  fold_left (apply_op writable) (ops_of ops order) ledger.

(** What holds of the threads and the ledger at every moment of a run
    that began with [ledger]: only the thread that holds the lock is
    between taking it and giving it back, and the ledger is what the
    threads that are through with it would have left one after the
    other, with the part the holder has written so far. *)
Definition ledger_inv (writable : bool) (ops : list file_op) (ledger : list ascii)
    (s : Shared) : Prop :=
  length (threads s) = length ops
  /\ (forall (i : nat) (p : pc),
        threads s !! i = Some p -> critical p = true -> lock s = Some i)
  /\ (forall h : nat,
        lock s = Some h -> exists p : pc, threads s !! h = Some p /\ critical p = true)
  /\ exists order : list nat,
       NoDup order
       /\ (forall i : nat,
             i ∈ order <-> exists p : pc, threads s !! i = Some p /\ written p = true)
       /\ match lock s with
          | None => content s = serial writable ops order ledger
          | Some h =>
              match threads s !! h, ops !! h with
              | Some (Writing todo), Some (m, txt) =>
                  writable = true
                  /\ exists pre : list ascii,
                       txt = pre ++ todo
                       /\ content s
                          = match m with
                            | Truncate => []
                            | Append => serial writable ops order ledger
                            end ++ pre
              | _, _ => content s = serial writable ops order ledger
              end
          end.

(** ** Definitions used in the statements *)

(** The resolver a probe of [server] is expected to query with. *)
Definition probe_resolver (server : string) (t : Z) : Resolver :=
  {| configure := false; nameservers := [server]; timeout := t; lifetime := t |}.

(** A probe gets as far as the query when [socket.inet_aton] accepts the
    text and the library accepts it as the name server. *)
Definition queried (env : Env) (server : string) : bool :=
  negb (has_nul server) && c_inet_aton (chars server)
  && bool_decide (nameservers_error env [server] = None).

(** The world once the probe of [server] has sent its query. *)
Definition after_query (server domain : string) (t : Z) (w : World) : World :=
  with_queries (fun qs => qs ++ [(probe_resolver server t, domain, "A")]) w.

(** The text between the dots. *)
Fixpoint split_dots (cs : list ascii) (part : list ascii) : list (list ascii) :=
  match cs with
  | [] => [part]
  | c :: cs' =>
      if Ascii.eqb c "." then part :: split_dots cs' []
      else split_dots cs' (part ++ [c])
  end.

(** The address syntax as the specification words it, a dotted quad: four
    decimal numbers from 0 to 255 with dots between them. *)
Definition dotted_quad (s : string) : bool :=
  let parts := split_dots (chars s) [] in
  (length parts =? 4)%nat
  && forallb (fun p => negb (length p =? 0)%nat && (length p <=? 3)%nat
                       && forallb is_digit p && (digits_value p <=? 255)%Z) parts.

(** The status of an outcome in the words of the specification. *)
Inductive Status : Type :=
  | Success | InvalidAddress | NoAnswerStatus | NameNotFound
  | TimedOut | ProtocolError | UnknownError.

#[global] Instance Status_eq_dec : EqDecision Status.
Proof. solve_decision. Defined.

(** The word by which a message tells the status. *)
Definition status_word (s : Status) : string :=
  match s with
  | Success => "OK"
  | InvalidAddress => "INVALID IP"
  | NoAnswerStatus => "NO ANSWER"
  | NameNotFound => "NXDOMAIN"
  | TimedOut => "TIMEOUT"
  | ProtocolError => "DNS ERROR"
  | UnknownError => "ERROR"
  end.

(** The table of the specification: the status of each outcome of a query. *)
Definition status_of_reply (r : reply) : Status :=
  match r with
  | Answers _ _ => Success
  | Raises e =>
      match exn_cls e with
      | NXDOMAIN => NameNotFound
      | Timeout => TimedOut
      | NoAnswer => NoAnswerStatus
      | DNSException => ProtocolError
      | _ => UnknownError
      end
  end.

(** What the probe returns when the query raised [e]. *)
Definition on_error (server : string) (t : Z) (ms : Q) (e : exn) : probe :=
  let tail := format_f 0 ms +:+ "ms)" in
  (false, (server, Some ms),
   server +:+ " " +:+ status_word (status_of_reply (Raises e)) +:+ " (" +:+
   match status_of_reply (Raises e) with
   | TimedOut => str_of_Z t +:+ "s, " +:+ tail
   | ProtocolError | UnknownError => slice_to 20 (exn_str e) +:+ ", " +:+ tail
   | _ => tail
   end).

(** What the probe returns when the query was answered. *)
Definition on_answer (server : string) (ms : Q) (first : string) (others : list string) : probe :=
  (true, (server, Some ms),
   server +:+ " " +:+ status_word Success +:+ " " +:+ format_f 0 ms +:+ "ms (" +:+ first
   +:+ ") - " +:+ str_of_nat (S (length others)) +:+ " records").

(** The line the ledger gets for a working server. *)
Definition ledger_line (server : string) (ms : Q) : string :=
  server +:+ " (" +:+ format_f 0 ms +:+ "ms)".

(** What one round of [get_test_domain] makes of the trimmed line: it
    returns a domain, asks again ([None]), or ends in the [ValueError] of
    [int] when the line is nothing but digits, and too many of them. *)
Definition choice_answer (choice : string) : result (option string) :=
  if isdigit choice && (int_max_str_digits <? String.length choice)%nat
  then Raise (int_error choice)
  else if isdigit choice
     && ((1 <=? digits_value (chars choice)) && (digits_value (chars choice) <=? 3))%Z
  then Ret (domains !! Z.to_nat (digits_value (chars choice) - 1))
  else if negb (is_empty choice) && contains "." choice
          && negb (startswith "http://" choice || startswith "https://" choice)
  then Ret (Some choice)
  else if is_empty choice then Ret (Some "google.com")
  else Ret None.

(** What [get_test_domain] makes of the lines of the input: the answer to
    the first line that gets one. *)
Fixpoint first_answer (lines : list string) : result string :=
  match lines with
  | [] => Raise (Exn EOFError "EOF when reading a line")
  | line :: lines' =>
      match choice_answer (strip line) with
      | Ret (Some d) => Ret d
      | Ret None => first_answer lines'
      | Raise e => Raise e
      end
  end.

(** The world after the lines [ls] were printed. *)
Definition printed (ls : list string) (w : World) : World :=
  with_console (fun c => c ++ ls) w.

(** Working servers with their response times, as [working] holds them. *)
Definition timed (found : list (string * Q)) : list (string * option Q) :=
  map (fun x => (fst x, Some (snd x))) found.

(** The line of the report for the server ranked [i]. *)
Definition entry_line (i : nat) (x : string * Q) : string :=
  "  " +:+ str_of_nat i +:+ ". " +:+ ljust 15 (fst x) +:+ " " +:+ format_f 0 (snd x) +:+ "ms".

(** The lines for the servers [l], ranked from [i]. *)
Fixpoint entry_lines (i : nat) (l : list (string * Q)) : list string :=
  match l with
  | [] => []
  | x :: l' => entry_line i x :: entry_lines (S i) l'
  end.

(** The line that tells how many servers the report leaves out. *)
Definition more_line (n : nat) : string := "  ... " +:+ str_of_nat n +:+ " more servers".

(** Six working servers in the order in which they were found; two
    pairs have equal times. *)
Definition six_found : list (string * Q) :=
  [ ("9.9.9.9", 30%Q); ("1.1.1.1", 12%Q); ("8.8.8.8", 30%Q);
    ("1.0.0.1", 12%Q); ("4.2.2.1", (91 # 2)%Q); ("8.8.4.4", 7%Q) ].

(** A world with nothing in it. *)
Definition empty_world : World :=
  {| files := ∅; read_denied := ∅; write_denied := ∅;
     stdin := []; console := []; queries := [] |}.

(** The response time of the probe of [server] if the probe succeeds:
    the query is sent and answered. *)
Definition response (env : Env) (domain : string) (t : Z) (server : string) : option Q :=
  if queried env server
  then match resolve env (probe_resolver server t) domain "A" with
       | (Answers _ _, ms) => Some ms
       | (Raises _, _) => None
       end
  else None.

(** Whether the probe of [server] returns with [success] set. What a
    probe returns does not depend on the state it is run in. *)
Definition succeeds (env : Env) (domain : string) (t : Z) (server : string) : bool :=
  match fst (test_single_server env server domain t empty_world) with
  | Ret (true, _, _) => true
  | _ => false
  end.

(** Of the servers [l], those whose probe succeeds, with their times. *)
Definition found_among (env : Env) (domain : string) (t : Z) (l : list string)
  : list (string * Q) :=
  omap (fun s => pair s <$> response env domain t s) l.

(** Of the servers [l], those whose probe does not succeed. *)
Definition lost_among (env : Env) (domain : string) (t : Z) (l : list string)
  : list string :=
  List.filter (fun s => negb (succeeds env domain t s)) l.

(** From [w] to [w'], the ledger got the lines [ls] at its end if it can
    be written, and was left alone if not. *)
Definition ledger_grows (ls : list string) (w w' : World) : Prop :=
  write_denied w' = write_denied w
  /\ (ledger_path ∉ write_denied w ->
      forall c : string,
        files w !! ledger_path = Some c ->
        files w' !! ledger_path = Some (c +:+ unlines ls))
  /\ (ledger_path ∈ write_denied w -> files w' = files w).

(** The lines of the ledger for the working servers [found]. *)
Definition ledger_lines (found : list (string * Q)) : list string :=
  map (fun x => ledger_line (fst x) (snd x)) found.

(** The servers in the order in which their probes complete. *)
Definition completed (pool : Pool) (workers : Z) (servers : list string) : list string :=
  map snd (as_completed pool workers (submit_all servers)).

(** Two working servers found at the same time, and a schedule that lets
    the two threads take turns (the one without the lock waits), then
    lets the second one finish. *)
Definition two_saves : list string := [ "1.1.1.1 (20ms)"; "8.8.8.8 (31ms)" ].

Definition taking_turns : list nat :=
  concat (replicate 19 [0; 1]) ++ replicate 19 1.

(** The first two lines [check_dns_servers] prints. *)
Definition banner : list string := [ "Azadi DNS Tester"; rule "=" 70 ].

(** A ledger left by an earlier run. *)
Definition old_ledger : string :=
  unlines (header_lines "2023-12-31 08:00:00" "google.com" ++ ["9.9.9.9 (12ms)"]).

(** A world in which the candidates cannot be read and the ledger of an
    earlier run is there. *)
Definition unreadable_world : World :=
  {| files := {[ "dns_servers.txt" := "1.1.1.1"; ledger_path := old_ledger ]};
     read_denied := {[ "dns_servers.txt" ]}; write_denied := ∅;
     stdin := [""; ""; ""]; console := []; queries := [] |}.

(** A world with two candidates and answers to the three questions, in
    which the ledger of an earlier run is there and cannot be written. *)
Definition readonly_world : World :=
  {| files := {[ "dns_servers.txt" := "1.1.1.1 203.0.113.5"; ledger_path := old_ledger ]};
     read_denied := ∅; write_denied := {[ ledger_path ]};
     stdin := [""; ""; "3"]; console := []; queries := [] |}.

(** The same with a ledger that can be written. *)
Definition second_run_world : World :=
  {| files := files readonly_world;
     read_denied := ∅; write_denied := ∅;
     stdin := [""; ""; "3"]; console := []; queries := [] |}.

(** A pool in which the task submitted last completes first, and in
    which every task runs when the loop waits for it. *)
Definition last_first : Pool :=
  {| completes := fun _ i => (- Z.of_nat i # 1)%Q;
     runs := fun _ _ => [] |}.

(** A world in which [dns_servers.txt] has the given content. *)
Definition world_with_candidates (content : string) : World :=
  with_files (fun fs => <["dns_servers.txt" := content]> fs) empty_world.

(** The scenario of the specification: 1.1.1.1 answers after 20 ms, every
    other server lets the query time out. *)
Definition scenario_env : Env :=
  {| nameservers_error := fun _ => None;
     resolve := fun r _ _ =>
       if bool_decide (nameservers r = ["1.1.1.1"])
       then (Answers "93.184.216.34" [], 20%Q)
       else (Raises (Exn Timeout "The DNS operation timed out."), 3000%Q);
     now := "2024-01-01 12:00:00";
     run_seconds := 3%Q |}.

(** The same with a resolver library that takes only dotted quads as
    name servers. *)
Definition strict_env : Env :=
  {| nameservers_error := fun ns =>
       if forallb dotted_quad ns then None
       else Some "nameserver is not an IP address";
     resolve := resolve scenario_env;
     now := now scenario_env;
     run_seconds := run_seconds scenario_env |}.

(** ** The entry point *)

(** How the process ends: [main] returns, [sys.exit(status)], or an
    exception that no clause of [main] takes. *)
Inductive exit : Type :=
  | Completed
  | Exit (status : Z)
  | Uncaught (e : exn).

(** [main()]; [KeyboardInterrupt] is not modelled, so its clause is not
    there. *)
Definition main (env : Env) (pool : Pool) : World -> exit * World :=
  fun w =>
    match (check_dns_servers env pool "dns_servers.txt";;
           print (newline +:+ "Testing complete!");;
           input (newline +:+ "Press Enter to exit...")) w with
    | (Ret _, w') => (Completed, w')
    | (Raise e, w') =>
        if isinstance e Exception
        then (Exit 1, snd (print (newline +:+ "Unexpected error: " +:+ exn_str e) w'))
        else (Uncaught e, w')
    end.

(** ** More definitions used in the statements *)

(** One number of a dotted quad: one to three digits, at most 255. *)
Definition part_ok (ds : list ascii) : bool :=
  negb (length ds =? 0)%nat && (length ds <=? 3)%nat
  && forallb is_digit ds && (digits_value ds <=? 255)%Z.

(** A pattern that, wherever it matches, passes over text that satisfies [P]. *)
Definition passes_over (r : pattern) (P : list ascii -> Prop) : Prop :=
  forall (pos p : position),
    p ∈ r pos -> exists ds : list ascii, snd pos = ds ++ snd p /\ P ds.

(** Four numbers with dots between them. *)
Definition quad_text (ds : list ascii) : Prop :=
  exists o1 o2 o3 o4 : list ascii,
    ds = o1 ++ "."%char :: o2 ++ "."%char :: o3 ++ "."%char :: o4
    /\ part_ok o1 = true /\ part_ok o2 = true /\ part_ok o3 = true /\ part_ok o4 = true.

(** What one round of a question for a number between [lo] and [hi]
    makes of a line: the number to return, or [None] to ask again. *)
Definition number_answer (lo hi dflt : Z) (line : string) : option Z :=
  let choice := strip line in
  if is_empty choice then Some dflt
  else match py_int choice with
       | Some v => if ((lo <=? v) && (v <=? hi))%Z then Some v else None
       | None => None
       end.

(** What such a question makes of the lines of the input. *)
Fixpoint first_number (lo hi dflt : Z) (lines : list string) : result Z :=
  match lines with
  | [] => Raise (Exn EOFError "EOF when reading a line")
  | line :: lines' =>
      match number_answer lo hi dflt line with
      | Some v => Ret v
      | None => first_number lo hi dflt lines'
      end
  end.

(** The lines left after the first one that [accept]s. *)
Fixpoint lines_after (accept : string -> bool) (lines : list string) : list string :=
  match lines with
  | [] => []
  | line :: lines' => if accept line then lines' else lines_after accept lines'
  end.

Definition answers_number (lo hi dflt : Z) (line : string) : bool :=
  bool_decide (is_Some (number_answer lo hi dflt line)).

(** The parts of an address with dots between them. *)
Fixpoint join_dots (parts : list (list ascii)) : list ascii :=
  match parts with
  | [] => []
  | p :: ps =>
      match ps with
      | [] => p
      | _ => p ++ "."%char :: join_dots ps
      end
  end.

(** A number written without a zero before its digits. *)
Definition no_leading_zero (part : list ascii) : bool :=
  match part with
  | "0"%char :: _ :: _ => false
  | _ => true
  end.

(** A dotted quad none of whose numbers has a zero before its digits. *)
Definition plain_quad (s : string) : bool :=
  dotted_quad s && forallb no_leading_zero (split_dots (chars s) []).

(** ** What a run leaves alone *)

(** [m] takes every world to one that is [R]-related to it, whether it
    returns or raises. *)
Definition keeps (R : World -> World -> Prop) {A : Type} (m : M A) : Prop :=
  forall w : World, R w (snd (m w)).

(** All files but those at [paths] are as they were. *)
Definition same_files_but (paths : list string) (w w' : World) : Prop :=
  forall p : string, p ∉ paths -> files w' !! p = files w !! p.

(** The queries sent from [w] to [w'] are all [allowed]; none sent
    before is forgotten. *)
Definition sends_only (allowed : Resolver * string * string -> Prop) (w w' : World) : Prop :=
  exists new : list (Resolver * string * string),
    queries w' = queries w ++ new /\ Forall allowed new.

(** A query for the A records of some name, sent to one dotted quad,
    without the system's resolver configuration, with a timeout from 1
    to 10 seconds for the server and for the whole query. *)
Definition candidate_query (q : Resolver * string * string) : Prop :=
  configure q.1.1 = false
  /\ (exists s : string, nameservers q.1.1 = [s] /\ dotted_quad s = true)
  /\ (1 <= timeout q.1.1 <= 10)%Z
  /\ lifetime q.1.1 = timeout q.1.1
  /\ q.2 = "A".

(** ** The state of the pool *)

(** What the first step of the probe of [server] leaves of a world, and
    what the second: the query in the log, the line in the ledger. *)
Definition asked_world (env : Env) (domain : string) (t : Z) (server : string) (w : World)
  : World :=
  if queried env server then after_query server domain t w else w.

Definition saved_world (env : Env) (domain : string) (t : Z) (server : string) (w : World)
  : World :=
  match response env domain t server with
  | Some ms => snd (real_time_save (ledger_line server ms) w)
  | None => w
  end.

(** What the first step of the probe of [server] ends with, and what the
    whole probe: neither depends on the world it is run in. *)
Definition begins (env : Env) (domain : string) (t : Z) (server : string) : result started :=
  fst (probe_begin env server domain t empty_world).

Definition outcome (env : Env) (domain : string) (t : Z) (server : string) : result probe :=
  fst (test_single_server env server domain t empty_world).

(** The number of steps a task has taken. *)
Definition phase (tk : task) : nat :=
  match tk with
  | Queued => 0
  | Begun _ => 1
  | Over _ => 2
  end.

(** A task of [server] holds what the steps of its probe have given. *)
Definition task_ok (env : Env) (domain : string) (t : Z) (server : string) (tk : task)
  : Prop :=
  match tk with
  | Queued => True
  | Begun s => begins env domain t server = Ret s
  | Over r => r = outcome env domain t server
  end.

(** The world after the task of [server] has gone from [p] steps to [p']. *)
Definition advance (env : Env) (domain : string) (t : Z) (server : string) (p p' : nat)
    (w : World) : World :=
  let w1 := if (p <? 1)%nat && (1 <=? p')%nat then asked_world env domain t server w else w in
  if (p <? 2)%nat && (2 <=? p')%nat then saved_world env domain t server w1 else w1.

(** The servers of the tasks [order]. *)
Definition servers_at (servers : list string) (order : list nat) : list string :=
  omap (fun j => servers !! j) order.

(** What holds of the tasks and the world at every moment of the loop
    that began in [w0]: the tasks hold what their probes give; the log
    has grown by the queries of the tasks that have taken their first
    step, in the order in which they took it, and the ledger by the lines
    of those that are over, in the order in which they ended; nothing was
    read. *)
Definition pool_inv (env : Env) (domain : string) (t : Z) (servers : list string)
    (w0 : World) (tasks : list task) (w : World) : Prop :=
  length tasks = length servers
  /\ (forall (j : nat) (s : string) (tk : task),
        servers !! j = Some s -> tasks !! j = Some tk -> task_ok env domain t s tk)
  /\ exists asked saved : list nat,
       NoDup asked /\ NoDup saved
       /\ (forall j : nat,
             j ∈ asked <-> exists tk : task, tasks !! j = Some tk /\ (1 <= phase tk)%nat)
       /\ (forall j : nat,
             j ∈ saved <-> exists tk : task, tasks !! j = Some tk /\ (2 <= phase tk)%nat)
       /\ queries w
          = queries w0
            ++ map (fun s => (probe_resolver s t, domain, "A"))
                 (List.filter (queried env) (servers_at servers asked))
       /\ stdin w = stdin w0
       /\ ledger_grows (ledger_lines (found_among env domain t (servers_at servers saved)))
            w0 w.

(** ** More scenarios *)

(** Two servers answer, 1.1.1.1 after 20 ms and 8.8.8.8 after 31 ms;
    every other server lets the query time out. *)
Definition two_answers_env : Env :=
  {| nameservers_error := fun _ => None;
     resolve := fun r _ _ =>
       if bool_decide (nameservers r = ["1.1.1.1"])
       then (Answers "93.184.216.34" [], 20%Q)
       else if bool_decide (nameservers r = ["8.8.8.8"])
       then (Answers "93.184.216.34" [], 31%Q)
       else (Raises (Exn Timeout "The DNS operation timed out."), 3000%Q);
     now := "2024-01-01 12:00:00";
     run_seconds := 3%Q |}.

(** A pool with two workers at work before the loop takes its first
    future: the first task asks, the second asks and saves, then the
    first saves; the futures are taken in the order of submission. *)
Definition overtaking : Pool :=
  {| completes := fun _ i => (Z.of_nat i # 1)%Q;
     runs := fun _ k => match k with
                        | O => [0; 1; 1; 0]%nat
                        | S _ => []
                        end |}.

(** A world with two candidates, answers to the three questions and the
    ledger of an earlier run. *)
Definition two_candidates_world : World :=
  {| files := {[ "dns_servers.txt" := "1.1.1.1 8.8.8.8"; ledger_path := old_ledger ]};
     read_denied := ∅; write_denied := ∅;
     stdin := [""; ""; "3"]; console := []; queries := [] |}.


(** * Properties *)

Example format_f_examples :
  format_f 0 (41 # 2) = "20" /\ format_f 0 (43 # 2) = "22" /\
  format_f 0 (123456 # 1000) = "123" /\ format_f 1 (1 # 3) = "0.3" /\
  format_f 1 0 = "0.0" /\ format_f 1 (625 # 100) = "6.2" /\
  format_f 0 (- 3 # 10) = "-0" /\ format_f 1 (1000 # 3) = "333.3".
Proof. vm_compute. repeat split. Qed.

Example strip_examples :
  strip "  a b.c  " = "a b.c" /\ strip "   " = "" /\ strip "" = "" /\
  py_int " 1_0 " = Some 10%Z /\ py_int "1__0" = None /\ py_int "-5" = Some (-5)%Z /\
  py_int "" = None /\ py_int "007" = Some 7%Z /\ py_int "12a" = None /\
  py_int "+" = None /\ py_int "+ 1" = None /\ py_int "+12" = Some 12%Z.
Proof. vm_compute. repeat split. Qed.

Example findall_examples :
  findall "dns=1.1.1.1;8.8.8.8, x9.9.9.9 256.1.1.1 1.2.3.4.5 1.1.1.1_" = ["1.1.1.1"; "8.8.8.8"; "1.2.3.4"]
  /\ findall "no address here: 1.1.1, 999.1.1.1" = []
  /\ findall (unlines sample_servers) = sample_servers.
Proof. vm_compute. repeat split. Qed.

Example inet_aton_examples :
  map (fun s => c_inet_aton (chars s))
      ["1.1.1.1"; "999.1.1.1"; "1.1.1"; "not.an.ip"; "127.1"; "0x7f.0.0.1"; "08.8.8.8"; "1.1.1.1.1"; ""]
  = [true; false; true; false; true; true; false; false; false].
Proof. vm_compute. reflexivity. Qed.

(** ** Exceptions and text *)

Lemma isinstance_Exception (e : exn) : isinstance e Exception = true.
Proof. destruct e as [c s]. destruct c; reflexivity. Qed.

Lemma slice_to_length (n : nat) (s : string) : (String.length (slice_to n s) <= n)%nat.
Proof.
  unfold slice_to. revert s.
  induction n as [|n IH]; intros s; destruct s as [|c s]; simpl; try lia.
  specialize (IH s). lia.
Qed.

Lemma slice_to_prefix (n : nat) (s : string) : String.prefix (slice_to n s) s = true.
Proof.
  unfold slice_to. revert s.
  induction n as [|n IH]; intros s; destruct s as [|c s]; simpl; try reflexivity.
  rewrite IH. destruct (ascii_dec c c); congruence.
Qed.

(** ** One probe *)

Lemma probe_resolver_built (server : string) (t : Z) :
  set_lifetime t (set_timeout t (set_nameservers [server] (Resolver_new false)))
  = probe_resolver server t.
Proof. reflexivity. Qed.

Lemma inet_aton_rejected (server : string) (w : World) :
  has_nul server = false -> c_inet_aton (chars server) = false ->
  inet_aton server w = (Raise (Exn OSError "illegal IP address string passed to inet_aton"), w).
Proof. intros Hn Hc. unfold inet_aton. rewrite Hn, Hc. reflexivity. Qed.

Lemma inet_aton_accepted (server : string) (w : World) :
  has_nul server = false -> c_inet_aton (chars server) = true ->
  inet_aton server w = (Ret tt, w).
Proof. intros Hn Hc. unfold inet_aton. rewrite Hn, Hc. reflexivity. Qed.

Lemma inet_aton_nul (server : string) (w : World) :
  has_nul server = true ->
  inet_aton server w = (Raise (Exn ValueError "embedded null character"), w).
Proof. intros Hn. unfold inet_aton. rewrite Hn. reflexivity. Qed.

Lemma test_single_server_rejected (env : Env) (server domain : string) (t : Z) (w : World) :
  has_nul server = false -> c_inet_aton (chars server) = false ->
  test_single_server env server domain t w
  = (Ret (false, (server, None), server +:+ " INVALID IP"), w).
Proof.
  intros Hn Hc. unfold test_single_server, mbind, M_bind, try_except.
  rewrite (inet_aton_rejected _ _ Hn Hc). reflexivity.
Qed.

Lemma test_single_server_nul (env : Env) (server domain : string) (t : Z) (w : World) :
  has_nul server = true ->
  test_single_server env server domain t w
  = (Raise (Exn ValueError "embedded null character"), w).
Proof.
  intros Hn. unfold test_single_server, mbind, M_bind, try_except.
  rewrite (inet_aton_nul _ _ Hn). reflexivity.
Qed.

Lemma test_single_server_refused (env : Env) (server domain : string) (t : Z) (w : World)
    (msg : string) :
  has_nul server = false -> c_inet_aton (chars server) = true ->
  nameservers_error env [server] = Some msg ->
  test_single_server env server domain t w = (Raise (Exn ValueError msg), w).
Proof.
  intros Hn Hc He. unfold test_single_server, mbind, M_bind, try_except.
  rewrite (inet_aton_accepted _ _ Hn Hc). simpl.
  unfold assign_nameservers. rewrite He. reflexivity.
Qed.

Lemma app_assoc_str (a b c : string) : (a +:+ b) +:+ c = a +:+ (b +:+ c).
Proof.
  induction a as [|x a IH]; [reflexivity |].
  change (String x ((a +:+ b) +:+ c) = String x (a +:+ b +:+ c)). now rewrite IH.
Qed.

Lemma app_cons_str (x : ascii) (a b : string) : String x a +:+ b = String x (a +:+ b).
Proof. reflexivity. Qed.

Lemma app_nil_str (b : string) : EmptyString +:+ b = b.
Proof. reflexivity. Qed.

(** Text built by [+:+] in a normal form: nested to the right, the
    literal parts merged. *)
Ltac str_norm := repeat (rewrite ?app_assoc_str, ?app_cons_str, ?app_nil_str; simpl).

Lemma real_time_save_queries (info : string) (w : World) :
  fst (real_time_save info w) = Ret tt
  /\ queries (snd (real_time_save info w)) = queries w
  /\ stdin (snd (real_time_save info w)) = stdin w.
Proof.
  unfold real_time_save, try_except, append_file.
  destruct (bool_decide _); simpl; auto.
Qed.

Lemma test_single_server_queried (env : Env) (server domain : string) (t : Z) (w : World) :
  queried env server = true ->
  test_single_server env server domain t w =
    let ms := snd (resolve env (probe_resolver server t) domain "A") in
    match fst (resolve env (probe_resolver server t) domain "A") with
    | Answers first others =>
        (Ret (on_answer server ms first others),
         snd (real_time_save (ledger_line server ms) (after_query server domain t w)))
    | Raises e => (Ret (on_error server t ms e), after_query server domain t w)
    end.
Proof.
  unfold queried. rewrite !andb_true_iff, negb_true_iff, bool_decide_eq_true.
  intros [[Hn Hc] He].
  unfold test_single_server, mbind, M_bind, try_except at 1.
  rewrite (inet_aton_accepted _ _ Hn Hc). simpl.
  unfold assign_nameservers. rewrite He. simpl.
  rewrite probe_resolver_built.
  unfold try_except, do_resolve, elapsed_ms, after_query.
  destruct (resolve env (probe_resolver server t) domain "A") as [rep ms]. simpl.
  destruct rep as [first others | e]; simpl.
  - unfold ledger_line, on_answer. str_norm.
    match goal with |- context [real_time_save ?i ?w'] =>
      pose proof (real_time_save_queries i w') as [Hr _];
      destruct (real_time_save i w') as [r w''] end.
    simpl in Hr. subst r. reflexivity.
  - unfold on_error, status_of_reply, isinstance, issubclass.
    destruct e as [c s]. destruct c; simpl; str_norm; reflexivity.
Qed.

Lemma real_time_save_after_query (info server domain : string) (t : Z) (w : World) :
  queries (snd (real_time_save info (after_query server domain t w)))
  = queries w ++ [(probe_resolver server t, domain, "A")].
Proof.
  destruct (real_time_save_queries info (after_query server domain t w)) as (_ & Hq & _).
  rewrite Hq. reflexivity.
Qed.

(** C2, as the code has it: text that [socket.inet_aton] rejects is
    answered with [(False, (server, None), "<server> INVALID IP")], and the
    world is left as it was: no query is sent, nothing is written. *)
Theorem invalid_address_no_query (env : Env) (server domain : string) (t : Z) (w : World) :
  has_nul server = false -> c_inet_aton (chars server) = false ->
  test_single_server env server domain t w
  = (Ret (false, (server, None), server +:+ " " +:+ status_word InvalidAddress), w).
Proof.
  intros Hn Hc. rewrite test_single_server_rejected by assumption. reflexivity.
Qed.

Lemma invalid_address_no_query_witness :
  test_single_server scenario_env "999.1.1.1" "example.com" 3 empty_world
  = (Ret (false, ("999.1.1.1", None), "999.1.1.1 INVALID IP"), empty_world).
Proof.
  apply (invalid_address_no_query scenario_env "999.1.1.1" "example.com" 3 empty_world);
    vm_compute; reflexivity.
Defined.

(** C2 fails for "1.1.1": it is no dotted quad, but [socket.inet_aton]
    reads it as 1.1.0.1, so the probe goes on. With a library that takes
    any name server the query is sent (and here times out); with one that
    checks the name server the [ValueError] of the assignment leaves the
    function. *)
Lemma three_part_address_is_probed :
  dotted_quad "1.1.1" = false
  /\ test_single_server scenario_env "1.1.1" "example.com" 3 empty_world
     = (Ret (false, ("1.1.1", Some 3000%Q), "1.1.1 TIMEOUT (3s, 3000ms)"),
        after_query "1.1.1" "example.com" 3 empty_world)
  /\ test_single_server strict_env "1.1.1" "example.com" 3 empty_world
     = (Raise (Exn ValueError "nameserver is not an IP address"), empty_world).
Proof. vm_compute. repeat split. Qed.

(** C3: the outcome of the query decides the status by the table
    [status_of_reply]; the message names the server and the status, the
    text of an error is cut to 20 characters, and the response time is
    there in every case. *)
Theorem outcome_table (env : Env) (server domain : string) (t : Z) (w : World) :
  queried env server = true ->
  let rep := fst (resolve env (probe_resolver server t) domain "A") in
  let ms := snd (resolve env (probe_resolver server t) domain "A") in
  let st := status_of_reply rep in
  let time := format_f 0 ms +:+ "ms" in
  exists detail : string,
    fst (test_single_server env server domain t w)
    = Ret (bool_decide (st = Success), (server, Some ms),
           server +:+ " " +:+ status_word st +:+ " " +:+ detail)
    /\ st <> InvalidAddress
    /\ match rep with
       | Answers first others =>
           st = Success
           /\ detail = time +:+ " (" +:+ first +:+ ") - "
                       +:+ str_of_nat (S (length others)) +:+ " records"
       | Raises e =>
           st = match exn_cls e with
                | NXDOMAIN => NameNotFound
                | Timeout => TimedOut
                | NoAnswer => NoAnswerStatus
                | DNSException => ProtocolError
                | _ => UnknownError
                end
           /\ match st with
              | NameNotFound | NoAnswerStatus => detail = "(" +:+ time +:+ ")"
              | TimedOut => detail = "(" +:+ str_of_Z t +:+ "s, " +:+ time +:+ ")"
              | _ => exists cut : string,
                       cut = slice_to 20 (exn_str e)
                       /\ (String.length cut <= 20)%nat
                       /\ detail = "(" +:+ cut +:+ ", " +:+ time +:+ ")"
              end
       end.
Proof.
  intros Hq. cbv zeta. rewrite (test_single_server_queried _ _ _ _ _ Hq). cbv zeta.
  destruct (resolve env (probe_resolver server t) domain "A") as [rep ms]. simpl fst. simpl snd.
  destruct rep as [first others | e].
  - eexists. split; [|split; [discriminate|split; [reflexivity|reflexivity]]].
    simpl. unfold on_answer. str_norm. reflexivity.
  - destruct e as [c s].
    destruct c; simpl;
      (eexists; split; [unfold on_error; simpl; str_norm; reflexivity
                       | split; [discriminate | split; [reflexivity |]]]);
      try (str_norm; reflexivity);
      (eexists; split; [reflexivity | split; [apply slice_to_length | str_norm; reflexivity]]).
Qed.

Lemma outcome_table_witness :
  exists detail : string,
    fst (test_single_server scenario_env "1.1.1.1" "example.com" 3 empty_world)
    = Ret (true, ("1.1.1.1", Some 20%Q), "1.1.1.1 OK " +:+ detail)
    /\ detail = "20ms (93.184.216.34) - 1 records".
Proof.
  destruct (outcome_table scenario_env "1.1.1.1" "example.com" 3 empty_world)
    as (detail & Hout & _ & _ & Hd); [vm_compute; reflexivity|].
  exists detail. split; [exact Hout | exact Hd].
Defined.

(** C9: the one query of a probe is sent with a resolver that has not
    read the system's configuration, has the candidate as its only name
    server and the timeout of the run as both of its limits; it asks for
    the A records of the test domain. A probe that does not get as far
    sends nothing. *)
Theorem probe_queries_candidate_only (env : Env) (server domain : string) (t : Z) (w : World) :
  let sent := if queried env server then [(probe_resolver server t, domain, "A")] else [] in
  queries (snd (test_single_server env server domain t w)) = queries w ++ sent
  /\ Forall (fun q => configure q.1.1 = false /\ nameservers q.1.1 = [server]
                      /\ timeout q.1.1 = t /\ lifetime q.1.1 = t
                      /\ q.1.2 = domain /\ q.2 = "A") sent.
Proof.
  cbv zeta. split.
  - destruct (queried env server) eqn:Hq.
    + rewrite (test_single_server_queried _ _ _ _ _ Hq). cbv zeta.
      destruct (resolve env (probe_resolver server t) domain "A") as [[first others | e] ms];
        simpl fst; simpl snd.
      * apply real_time_save_after_query.
      * reflexivity.
    + unfold queried in Hq. rewrite app_nil_r.
      destruct (has_nul server) eqn:Hn.
      { rewrite test_single_server_nul by assumption. reflexivity. }
      destruct (c_inet_aton (chars server)) eqn:Hc.
      2:{ rewrite test_single_server_rejected by assumption. reflexivity. }
      simpl in Hq. apply bool_decide_eq_false in Hq.
      destruct (nameservers_error env [server]) as [msg|] eqn:He; [|congruence].
      rewrite (test_single_server_refused _ _ _ _ _ msg) by assumption. reflexivity.
  - destruct (queried env server); repeat constructor.
Qed.

(** ** The test domain *)

Lemma print_stdin (line : string) (w : World) :
  print line w = (Ret tt, with_console (fun c => c ++ [line]) w).
Proof. reflexivity. Qed.

Lemma bind_eval {A B : Type} (m : M A) (f : A -> M B) (w : World) :
  (m ≫= f) w = match m w with
               | (Ret a, w') => f a w'
               | (Raise e, w') => (Raise e, w')
               end.
Proof. reflexivity. Qed.

Lemma is_digit_not_space (c : ascii) : is_digit c = true -> is_space c = false.
Proof.
  unfold is_digit, is_space, in_range. intros H.
  apply andb_prop in H as [H1 H2]. apply Nat.leb_le in H1, H2.
  apply orb_false_iff. split; apply andb_false_iff.
  - right. apply Nat.leb_gt. lia.
  - right. apply Nat.leb_gt. lia.
Qed.

Lemma lstrip_digits (s : string) : forallb is_digit (chars s) = true -> lstrip s = s.
Proof.
  destruct s as [|c s]; [reflexivity|]. cbn [chars list_ascii_of_string forallb lstrip].
  intros H. apply andb_prop in H as [H _]. now rewrite (is_digit_not_space c H).
Qed.

Lemma rstrip_digits (s : string) : forallb is_digit (chars s) = true -> rstrip s = s.
Proof.
  induction s as [|c s IH]; [reflexivity|]. cbn [chars list_ascii_of_string forallb rstrip].
  intros H. apply andb_prop in H as [Hc Hs]. rewrite (IH Hs).
  destruct s; [now rewrite (is_digit_not_space c Hc) | reflexivity].
Qed.

Lemma strip_digits (s : string) : isdigit s = true -> strip s = s.
Proof.
  unfold isdigit, strip. intros H. apply andb_prop in H as [_ H].
  rewrite (lstrip_digits s H). now apply rstrip_digits.
Qed.

Lemma int_digits_all (cs : list ascii) :
  forall (prev : bool) (acc : Z) (count : nat),
    forallb is_digit cs = true -> (cs <> [] \/ prev = true) ->
    int_digits cs prev acc count
    = Some (fold_left (fun a c => a * 10 + digit_value c)%Z cs acc, count + length cs).
Proof.
  induction cs as [|c cs IH]; intros prev acc count Hall Hne.
  - destruct Hne as [Hne | ->]; [congruence|]. cbn. now rewrite Nat.add_0_r.
  - cbn [forallb] in Hall. apply andb_prop in Hall as [Hc Hcs].
    cbn [int_digits]. rewrite Hc. rewrite IH by (auto).
    cbn [fold_left length]. f_equal. f_equal. lia.
Qed.

Lemma chars_length (s : string) : length (chars s) = String.length s.
Proof. induction s as [|c s IH]; [reflexivity|]. cbn. now rewrite <- IH. Qed.

(** [int] on text that is nothing but digits. *)
Lemma py_int_digits (s : string) :
  isdigit s = true ->
  py_int s = if (int_max_str_digits <? String.length s)%nat
             then None else Some (digits_value (chars s)).
Proof.
  intros Hd. unfold py_int. rewrite (strip_digits s Hd).
  unfold isdigit in Hd. apply andb_prop in Hd as [Hne Hall].
  destruct (chars s) as [|c cs] eqn:Hcs.
  - destruct s; discriminate.
  - assert (Hc : is_digit c = true) by (cbn [forallb] in Hall; now apply andb_prop in Hall).
    assert (Hplus : Ascii.eqb c "+" = false).
    { apply Ascii.eqb_neq. intros ->. discriminate. }
    assert (Hminus : Ascii.eqb c "-" = false).
    { apply Ascii.eqb_neq. intros ->. discriminate. }
    rewrite Hplus, Hminus, int_digits_all by (auto; left; discriminate).
    unfold within_limit, digits_value. rewrite <- chars_length, Hcs. reflexivity.
Qed.

Lemma int_digits_eval (s : string) (w : World) :
  isdigit s = true ->
  int s w = if (int_max_str_digits <? String.length s)%nat
            then (Raise (int_error s), w)
            else (Ret (digits_value (chars s)), w).
Proof.
  intros Hd. unfold int. rewrite (py_int_digits s Hd).
  destruct (int_max_str_digits <? String.length s)%nat; reflexivity.
Qed.

(** One round on a line of the input. *)
Lemma get_test_domain_round_eq (w : World) (line : string) (rest : list string) :
  stdin w = line :: rest ->
  exists w' : World,
    stdin w' = rest
    /\ get_test_domain_round w = (choice_answer (strip line), w').
Proof.
  intros Hin. unfold get_test_domain_round. rewrite bind_eval.
  unfold input. cbn [stdin with_console]. rewrite Hin. unfold choice_answer.
  set (c := strip line).
  set (w1 := with_stdin (drop 1) _).
  assert (Hw1 : stdin w1 = rest) by (unfold w1; cbn; now rewrite Hin).
  assert (Hrest : exists w' : World,
             stdin w' = rest
             /\ (if negb (is_empty c) && contains "." c
                     && negb (startswith "http://" c || startswith "https://" c)
                 then mret (Some c)
                 else if is_empty c then mret (Some "google.com")
                 else print "Invalid! Use 1-3 or valid domain (e.g., example.com)";;
                      mret None) w1
                = (if negb (is_empty c) && contains "." c
                      && negb (startswith "http://" c || startswith "https://" c)
                   then Ret (Some c)
                   else if is_empty c then Ret (Some "google.com")
                   else Ret None, w')).
  { destruct (negb (is_empty c) && contains "." c && _).
    - exists w1. split; [exact Hw1 | reflexivity].
    - destruct (is_empty c).
      + exists w1. split; [exact Hw1 | reflexivity].
      + eexists. split; [|reflexivity]. exact Hw1. }
  rewrite bind_eval.
  destruct (isdigit c) eqn:Hd.
  - rewrite bind_eval, (int_digits_eval c w1 Hd).
    destruct (int_max_str_digits <? String.length c)%nat eqn:Hlim.
    + exists w1. split; [exact Hw1 | reflexivity].
    + cbn [andb mret M_ret].
      destruct ((1 <=? digits_value (chars c)) && (digits_value (chars c) <=? 3))%Z eqn:Hr.
      * rewrite bind_eval, (int_digits_eval c w1 Hd), Hlim, bind_eval.
        apply andb_prop in Hr as [H1 H3]. apply Z.leb_le in H1, H3.
        assert (Hv : (digits_value (chars c) = 1 \/ digits_value (chars c) = 2
                      \/ digits_value (chars c) = 3)%Z) by lia.
        exists w1. split; [exact Hw1|].
        destruct Hv as [-> | [-> | ->]]; reflexivity.
      * exact Hrest.
  - cbn [andb mret M_ret]. exact Hrest.
Qed.

Lemma while_true_domain (lines : list string) :
  forall (n : nat) (w : World),
    stdin w = lines -> (length lines < n)%nat ->
    fst (while_true n get_test_domain_round w) = first_answer lines.
Proof.
  induction lines as [|line rest IH]; intros n w Hin Hn.
  - destruct n as [|n]; [simpl in Hn; lia|].
    cbn [while_true first_answer]. rewrite bind_eval.
    unfold get_test_domain_round. rewrite bind_eval. unfold input.
    cbn [stdin with_console]. rewrite Hin. reflexivity.
  - destruct n as [|n]; [simpl in Hn; lia|].
    destruct (get_test_domain_round_eq w line rest Hin) as (w' & Hw' & Hr).
    cbn [while_true first_answer]. rewrite bind_eval, Hr.
    destruct (choice_answer (strip line)) as [[d|]|e]; [reflexivity| |reflexivity].
    apply IH; [exact Hw' | simpl in Hn; lia].
Qed.

Lemma print_menu_stdin (ds : list string) :
  forall (i : nat) (w : World),
    fst (print_menu i ds w) = Ret tt /\ stdin (snd (print_menu i ds w)) = stdin w.
Proof.
  induction ds as [|d ds IH]; intros i w; [split; reflexivity|].
  cbn [print_menu]. rewrite bind_eval, print_stdin.
  destruct (IH (S i) (with_console (fun c => c ++ [("  " +:+ str_of_nat i +:+ ". " +:+ d)]) w))
    as [H1 H2].
  destruct (print_menu (S i) ds _) as [r w']. simpl in *. subst r. auto.
Qed.

Lemma get_test_domain_first_answer (w : World) :
  fst (get_test_domain w) = first_answer (stdin w).
Proof.
  unfold get_test_domain. rewrite bind_eval, print_stdin, bind_eval.
  match goal with |- context [print_menu 1 domains ?w0] =>
    destruct (print_menu_stdin domains 1 w0) as [H1 H2];
    destruct (print_menu 1 domains w0) as [r w1] end.
  simpl in H1, H2. subst r. rewrite bind_eval, print_stdin. unfold prompt_loop.
  apply while_true_domain; simpl; [exact H2 | rewrite H2; simpl; lia].
Qed.

Lemma contains_not_isdigit (c : string) : contains "." c = true -> isdigit c = false.
Proof.
  unfold contains, isdigit. intros H. apply andb_false_iff. right.
  induction (chars c) as [|x cs IH]; cbn [existsb forallb] in *; [discriminate|].
  apply orb_prop in H as [H|H].
  - apply Ascii.eqb_eq in H. subst x. reflexivity.
  - rewrite (IH H). apply andb_false_r.
Qed.

Lemma choice_answer_nonempty (c d : string) :
  choice_answer c = Ret (Some d) -> d <> EmptyString.
Proof.
  unfold choice_answer.
  destruct (isdigit c && (int_max_str_digits <? String.length c)%nat); [discriminate|].
  destruct (isdigit c && _) eqn:Hd.
  - apply andb_prop in Hd as [_ Hr]. apply andb_prop in Hr as [H1 H3].
    apply Z.leb_le in H1, H3.
    assert (Hv : (digits_value (chars c) = 1 \/ digits_value (chars c) = 2
                  \/ digits_value (chars c) = 3)%Z) by lia.
    destruct Hv as [-> | [-> | ->]]; simpl; intros [= <-]; discriminate.
  - destruct (negb (is_empty c) && contains "." c && _) eqn:Hdot.
    + intros [= <-]. destruct c; [discriminate | discriminate].
    + destruct (is_empty c); [intros [= <-]; discriminate | discriminate].
Qed.

Lemma first_answer_nonempty (lines : list string) (d : string) :
  first_answer lines = Ret d -> d <> EmptyString.
Proof.
  induction lines as [|line rest IH]; cbn [first_answer]; [discriminate|].
  destruct (choice_answer (strip line)) as [[d'|]|e] eqn:Hc; [|exact IH|discriminate].
  intros [= <-]. eapply choice_answer_nonempty, Hc.
Qed.

(** C10: [get_test_domain] returns the answer to the first line of the
    input that gets one (it ends in [EOFError] when none does, and in the
    [ValueError] of [int] at a line of more digits than [int] takes);
    what it returns is never empty. The first line decides when, trimmed,
    it is empty (the default), one of 1, 2, 3 (the menu), or has a dot
    and does not begin with http:// or https:// (returned as it is, with
    no other check). *)
Theorem get_test_domain_validation (w : World) :
  fst (get_test_domain w) = first_answer (stdin w)
  /\ (forall d : string, fst (get_test_domain w) = Ret d -> d <> EmptyString)
  /\ (forall (line : string) (rest : list string),
        stdin w = line :: rest ->
        let choice := strip line in
        (choice = EmptyString -> fst (get_test_domain w) = Ret "google.com")
        /\ (forall (i : nat) (d : string),
              domains !! i = Some d -> choice = str_of_nat (S i) ->
              fst (get_test_domain w) = Ret d)
        /\ (contains "." choice = true ->
            startswith "http://" choice = false ->
            startswith "https://" choice = false ->
            fst (get_test_domain w) = Ret choice)).
Proof.
  rewrite get_test_domain_first_answer. split; [reflexivity|]. split.
  - intros d. apply first_answer_nonempty.
  - intros line rest Hin. cbv zeta. rewrite Hin. cbn [first_answer].
    split; [|split].
    + intros ->. reflexivity.
    + intros i d Hd ->.
      destruct i as [|[|[|i]]]; simpl in Hd; try discriminate;
        injection Hd as <-; reflexivity.
    + intros Hdot H1 H2. unfold choice_answer.
      rewrite (contains_not_isdigit _ Hdot), Hdot, H1, H2. simpl.
      destruct (strip line) eqn:Hs; [discriminate Hdot | reflexivity].
Qed.

Lemma get_test_domain_validation_witness :
  let w := with_stdin (fun _ => ["  my host!.x y  "; "2"]) empty_world in
  fst (get_test_domain w) = Ret "my host!.x y".
Proof.
  intros w.
  destruct (get_test_domain_validation w) as (_ & _ & Hfirst).
  destruct (Hfirst "  my host!.x y  " ["2"] eq_refl) as (_ & _ & Hdot).
  apply Hdot; vm_compute; reflexivity.
Defined.

Example get_test_domain_examples :
  map (fun lines => fst (get_test_domain (with_stdin (fun _ => lines) empty_world)))
      [ ["2"]; [" 3 "]; [""]; ["x"; "4"; "http://a.b"; "a.b"]; ["x"]; ["01"] ]
  = [ Ret "cloudflare.com"; Ret "example.com"; Ret "google.com"; Ret "a.b";
      Raise (Exn EOFError "EOF when reading a line"); Ret "google.com" ].
Proof. vm_compute. reflexivity. Qed.

(** ** Loading the candidates *)

Lemma read_file_ok (path content : string) (w : World) :
  files w !! path = Some content -> path ∉ read_denied w ->
  read_file path w = (Ret content, w).
Proof.
  intros Hf Hr. unfold read_file. rewrite Hf.
  rewrite bool_decide_eq_false_2 by exact Hr. reflexivity.
Qed.

Lemma read_file_missing (path : string) (w : World) :
  files w !! path = None ->
  read_file path w
  = (Raise (Exn FileNotFoundError (errno_text "2" "No such file or directory" path)), w).
Proof. intros Hf. unfold read_file. rewrite Hf. reflexivity. Qed.

Lemma create_sample_servers_exists (filename content : string) (w : World) :
  files w !! filename = Some content ->
  create_sample_servers filename w = (Ret tt, w).
Proof.
  intros Hf. unfold create_sample_servers, script_path. rewrite bind_eval.
  unfold path_exists. rewrite Hf.
  rewrite bool_decide_eq_true_2 by (eexists; reflexivity). reflexivity.
Qed.

Lemma elements_no_address (content : string) :
  findall content = [] -> elements (list_to_set (findall content) : gset string) = [].
Proof. intros ->. apply elements_empty. Qed.

(** A file without any address is read again and again: writing the
    sample is skipped because the file exists, so every activation calls
    the next one until the interpreter refuses; the innermost [except
    Exception] then returns the empty list. *)
Lemma load_servers_within_no_address (depth : nat) :
  forall (filename content : string) (w : World),
    files w !! filename = Some content -> filename ∉ read_denied w ->
    findall content = [] ->
    exists w' : World,
      load_servers_within (S depth) filename w = (Ret [], w')
      /\ files w' = files w /\ read_denied w' = read_denied w
      /\ write_denied w' = write_denied w /\ stdin w' = stdin w
      /\ queries w' = queries w.
Proof.
  induction depth as [|depth IH]; intros filename content w Hf Hr Hnone.
  - change (load_servers_within 1 filename)
      with (load_servers_body (load_servers_within 0 filename) filename).
    unfold load_servers_body, try_except, script_path.
    rewrite bind_eval, (read_file_ok _ _ _ Hf Hr).
    rewrite (elements_no_address _ Hnone), Hnone.
    repeat (rewrite bind_eval; cbn [print]).
    rewrite (create_sample_servers_exists _ content) by exact Hf.
    eexists. split; [reflexivity|]. repeat split.
  - change (load_servers_within (S (S depth)) filename)
      with (load_servers_body (load_servers_within (S depth) filename) filename).
    unfold load_servers_body, try_except, script_path.
    rewrite bind_eval, (read_file_ok _ _ _ Hf Hr).
    rewrite (elements_no_address _ Hnone), Hnone.
    repeat (rewrite bind_eval; cbn [print]).
    rewrite (create_sample_servers_exists _ content) by exact Hf.
    match goal with |- context [load_servers_within (S depth) filename ?w0] =>
      destruct (IH filename content w0 Hf Hr Hnone) as (w' & Hload & Hw') end.
    rewrite Hload. exists w'. split; [reflexivity | exact Hw'].
Qed.

Lemma findall_sample : findall (unlines sample_servers) = sample_servers.
Proof. vm_compute. reflexivity. Qed.

Lemma elements_sample :
  elements (list_to_set sample_servers : gset string) ≡ₚ sample_servers.
Proof.
  apply NoDup_Permutation.
  - apply NoDup_elements.
  - apply (bool_decide_unpack _). vm_compute. exact I.
  - intros x. rewrite elem_of_elements, elem_of_list_to_set. reflexivity.
Qed.

(** The path that works: no file, so the sample is written and read. *)
Lemma load_servers_missing_file (filename : string) (w : World) :
  files w !! filename = None ->
  filename ∉ write_denied w -> filename ∉ read_denied w ->
  exists servers : list string,
    fst (load_servers filename w) = Ret servers /\ servers ≡ₚ sample_servers.
Proof.
  intros Hf Hw Hr. unfold load_servers, recursion_limit.
  change (load_servers_within 1000 filename)
    with (load_servers_body (load_servers_body (load_servers_within 998 filename) filename)
                            filename).
  unfold load_servers_body at 1. unfold try_except at 1. unfold script_path.
  rewrite bind_eval, (read_file_missing _ _ Hf).
  cbn [isinstance issubclass subclass_upto exn_cls base_class].
  rewrite bool_decide_eq_true_2 by reflexivity. cbn [orb].
  repeat (rewrite bind_eval; cbn [print]).
  unfold create_sample_servers at 1. unfold script_path.
  rewrite bind_eval. unfold path_exists at 1. cbn [files with_console].
  rewrite Hf. rewrite bool_decide_eq_false_2 by (intros [x Hx]; discriminate).
  unfold try_except at 1. rewrite bind_eval. unfold write_file at 1.
  cbn [write_denied with_console]. rewrite bool_decide_eq_false_2 by exact Hw.
  cbn [print].
  unfold load_servers_body, try_except. unfold script_path.
  rewrite bind_eval.
  erewrite read_file_ok;
    [| cbn [files with_files with_console]; apply lookup_insert_eq
     | cbn [read_denied with_files with_console]; exact Hr].
  rewrite findall_sample.
  pose proof elements_sample as Hperm.
  destruct (elements (list_to_set sample_servers : gset string)) as [|s l] eqn:He.
  - apply Permutation_nil in Hperm. discriminate.
  - repeat (rewrite bind_eval; cbn [print]).
    exists (s :: l). split; [reflexivity | exact Hperm].
Qed.

Lemma load_servers_body_NoDup (again : M (list string)) (filename : string) :
  (forall (w : World) (r : list string), fst (again w) = Ret r -> NoDup r) ->
  forall (w : World) (r : list string),
    fst (load_servers_body again filename w) = Ret r -> NoDup r.
Proof.
  intros Hagain w r. unfold load_servers_body, try_except, script_path.
  rewrite bind_eval.
  destruct (read_file filename w) as [[content|e] w1].
  - repeat (rewrite bind_eval; cbn [print]).
    destruct (elements (list_to_set (findall content) : gset string)) as [|s l] eqn:He.
    + repeat (rewrite bind_eval; cbn [print]).
      destruct (create_sample_servers filename _) as [[[]|e] w2].
      * destruct (again w2) as [[r'|e] w3] eqn:Ha.
        -- simpl. intros [= <-]. apply (Hagain w2). rewrite Ha. reflexivity.
        -- destruct (isinstance e FileNotFoundError).
           ++ repeat (rewrite bind_eval; cbn [print]).
              destruct (create_sample_servers filename _) as [[[]|e'] w4]; [|discriminate].
              intros H. eapply Hagain, H.
           ++ destruct (isinstance e Exception); [|discriminate].
              simpl. intros [= <-]. constructor.
      * destruct (isinstance e FileNotFoundError).
        -- repeat (rewrite bind_eval; cbn [print]).
           destruct (create_sample_servers filename _) as [[[]|e'] w4]; [|discriminate].
           intros H. eapply Hagain, H.
        -- destruct (isinstance e Exception); [|discriminate].
           simpl. intros [= <-]. constructor.
    + simpl. intros [= <-]. rewrite <- He. apply NoDup_elements.
  - destruct (isinstance e FileNotFoundError).
    + repeat (rewrite bind_eval; cbn [print]).
      destruct (create_sample_servers filename _) as [[[]|e'] w4]; [|discriminate].
      intros H. eapply Hagain, H.
    + destruct (isinstance e Exception); [|discriminate].
      simpl. intros [= <-]. constructor.
Qed.

(** The candidates are a set: no address comes twice. *)
Lemma load_servers_NoDup (filename : string) (w : World) (servers : list string) :
  fst (load_servers filename w) = Ret servers -> NoDup servers.
Proof.
  unfold load_servers. generalize recursion_limit. intros depth. revert w servers.
  induction depth as [|depth IH]; intros w servers.
  - discriminate.
  - cbn [load_servers_within]. apply load_servers_body_NoDup. exact IH.
Qed.

(** C5, at a file that holds no address: [load_servers] returns the
    empty list, not the sample servers. *)
Theorem load_servers_no_address_gives_nothing :
  findall "# resolvers: none yet" = []
  /\ fst (load_servers "dns_servers.txt" (world_with_candidates "# resolvers: none yet"))
     = Ret [].
Proof.
  assert (Hnone : findall "# resolvers: none yet" = []) by (vm_compute; reflexivity).
  split; [exact Hnone|].
  unfold load_servers, recursion_limit.
  destruct (load_servers_within_no_address 999 "dns_servers.txt" "# resolvers: none yet"
              (world_with_candidates "# resolvers: none yet"))
    as (w' & Hload & _).
  - apply lookup_insert_eq.
  - cbn. set_solver.
  - exact Hnone.
  - rewrite Hload. reflexivity.
Qed.

(** ** Sorting *)

Section SortFacts.
Context {A : Type} (key : A -> Q).

Lemma insert_by_perm (x : A) (l : list A) : insert_by key x l ≡ₚ x :: l.
Proof.
  induction l as [|y l IH]; simpl; [reflexivity|].
  destruct (Qle_bool (key x) (key y)); [reflexivity|].
  rewrite IH. apply Permutation_swap.
Qed.

Lemma sorted_by_perm (l : list A) : sorted_by key l ≡ₚ l.
Proof.
  induction l as [|x l IH]; simpl; [reflexivity|].
  rewrite insert_by_perm. now rewrite IH.
Qed.

Lemma sorted_by_length (l : list A) : length (sorted_by key l) = length l.
Proof. apply Permutation_length, sorted_by_perm. Qed.

Lemma insert_by_ascending (x : A) (l : list A) :
  ascending key l -> ascending key (insert_by key x l).
Proof.
  unfold ascending. induction 1 as [|y l Hl IH Hy]; simpl.
  - constructor; constructor.
  - destruct (Qle_bool (key x) (key y)) eqn:Hxy.
    + apply Qle_bool_iff in Hxy. constructor.
      * constructor; assumption.
      * constructor; [exact Hxy|].
        eapply Forall_impl; [exact Hy|]. intros z Hz. cbv beta in *.
        eapply Qle_trans; eassumption.
    + assert (Hyx : (key y <= key x)%Q).
      { apply Qlt_le_weak, Qnot_le_lt. intros H. apply Qle_bool_iff in H. congruence. }
      constructor; [exact IH|].
      rewrite (insert_by_perm x l). constructor; assumption.
Qed.

Lemma sorted_by_ascending (l : list A) : ascending key (sorted_by key l).
Proof.
  induction l as [|x l IH]; simpl; [constructor|].
  apply insert_by_ascending, IH.
Qed.

Lemma insert_by_with_key (q : Q) (x : A) (l : list A) :
  with_key key q (insert_by key x l) = with_key key q (x :: l).
Proof.
  induction l as [|y l IH]; [reflexivity|].
  cbn [insert_by]. destruct (Qle_bool (key x) (key y)) eqn:Hxy; [reflexivity|].
  unfold with_key in *. cbn [List.filter] in *. rewrite IH.
  destruct (Qeq_bool (key x) q) eqn:Hx; [|reflexivity].
  destruct (Qeq_bool (key y) q) eqn:Hy; [|reflexivity].
  apply Qeq_bool_iff in Hx, Hy.
  assert (Hle : Qle_bool (key x) (key y) = true).
  { apply Qle_bool_iff. rewrite Hx, Hy. apply Qle_refl. }
  congruence.
Qed.

(** Stability: elements with equal keys keep their order. *)
Lemma sorted_by_stable (q : Q) (l : list A) :
  with_key key q (sorted_by key l) = with_key key q l.
Proof.
  induction l as [|x l IH]; [reflexivity|].
  cbn [sorted_by fold_right]. rewrite insert_by_with_key.
  unfold with_key in *. cbn [List.filter]. fold (sorted_by key l). now rewrite IH.
Qed.

Lemma ascending_take_drop (n : nat) (l : list A) :
  ascending key l ->
  forall x y : A, x ∈ take n l -> y ∈ drop n l -> (key x <= key y)%Q.
Proof.
  unfold ascending. intros Hl. revert n.
  induction Hl as [|z l Hl IH Hz]; intros n x y Hx Hy.
  - destruct n; inversion Hx.
  - destruct n as [|n]; [inversion Hx|].
    simpl in Hx, Hy. apply elem_of_cons in Hx as [-> | Hx].
    + rewrite Forall_forall in Hz. apply Hz.
      eapply (subseteq_drop n l), Hy.
    + eapply IH; eassumption.
Qed.
End SortFacts.

(** ** The report on the fastest servers *)

Lemma printed_nil (w : World) : printed [] w = w.
Proof. destruct w. unfold printed, with_console. simpl. now rewrite app_nil_r. Qed.

Lemma printed_printed (a b : list string) (w : World) :
  printed b (printed a w) = printed (a ++ b) w.
Proof. unfold printed, with_console. simpl. now rewrite app_assoc. Qed.

Lemma print_printed (line : string) (w : World) : print line w = (Ret tt, printed [line] w).
Proof. reflexivity. Qed.

Lemma insert_by_timed (x : string * Q) (s : list (string * Q)) :
  insert_by latency (fst x, Some (snd x)) (timed s) = timed (insert_by snd x s).
Proof.
  induction s as [|y s IHs]; [reflexivity|].
  cbn [timed map insert_by]. fold (timed s).
  change (latency (x.1, Some x.2)) with x.2.
  change (latency (y.1, Some y.2)) with y.2.
  destruct (Qle_bool x.2 y.2); [reflexivity|].
  cbn [timed map]. fold (timed (insert_by snd x s)). now rewrite IHs.
Qed.

Lemma sorted_by_timed (found : list (string * Q)) :
  sorted_by latency (timed found) = timed (sorted_by snd found).
Proof.
  induction found as [|x l IH]; [reflexivity|].
  cbn [timed map sorted_by fold_right]. fold (timed l).
  fold (sorted_by latency (timed l)). fold (sorted_by snd l).
  rewrite IH. apply insert_by_timed.
Qed.

Lemma no_missing_time (found : list (string * Q)) :
  existsb (fun x : string * option Q => bool_decide (snd x = None)) (timed found) = false.
Proof. induction found as [|x l IH]; [reflexivity|]. simpl. exact IH. Qed.

Lemma sorted_working_timed (found : list (string * Q)) (w : World) :
  sorted_working (timed found) w = (Ret (timed (sorted_by snd found)), w).
Proof.
  unfold sorted_working. rewrite no_missing_time, andb_false_r, sorted_by_timed. reflexivity.
Qed.

Lemma print_entries_timed (l : list (string * Q)) :
  forall (i : nat) (w : World),
    print_entries i (timed l) w = (Ret tt, printed (entry_lines i l) w).
Proof.
  induction l as [|[server t] l IH]; intros i w.
  - simpl. now rewrite printed_nil.
  - cbn [timed map print_entries fst snd]. rewrite bind_eval, print_printed.
    fold (timed l). rewrite IH, printed_printed. reflexivity.
Qed.

Lemma timed_take (n : nat) (l : list (string * Q)) : take n (timed l) = timed (take n l).
Proof. unfold timed. now rewrite <- fmap_take. Qed.

Lemma timed_length (l : list (string * Q)) : length (timed l) = length l.
Proof. unfold timed. apply length_map. Qed.

(** What [top5] prints for the working servers [found]. *)
Lemma top5_prints (found : list (string * Q)) (w : World) :
  found <> [] ->
  top5 (timed found) w
  = (Ret tt,
     printed (["TOP 5 FASTEST SERVERS:"]
              ++ entry_lines 1 (take 5 (sorted_by snd found))
              ++ (if (5 <? length found)%nat then [more_line (length found - 5)] else [])
              ++ [""]) w).
Proof.
  intros Hne. destruct found as [|x l]; [congruence|].
  unfold top5. cbn [timed map]. fold (timed l).
  change ((x.1, Some x.2) :: timed l) with (timed (x :: l)).
  rewrite bind_eval, print_printed, bind_eval, sorted_working_timed.
  rewrite bind_eval, timed_take, print_entries_timed, printed_printed, timed_length.
  rewrite bind_eval.
  destruct (5 <? length (x :: l))%nat.
  - rewrite print_printed, printed_printed, print_printed, printed_printed.
    unfold more_line. rewrite <- !app_assoc. reflexivity.
  - cbn [mret M_ret]. rewrite print_printed, printed_printed.
    rewrite <- !app_assoc. reflexivity.
Qed.

(** C6: the report ranks the working servers by response time, servers
    with equal times in the order in which they were found; up to five
    servers are all listed and no line about more servers follows; of
    more than five the five fastest are listed, then the number of the
    others. Nothing is printed when no server works. *)
Theorem top5_report (found : list (string * Q)) (w : World) :
  let ranked := sorted_by snd found in
  let listed := take 5 ranked in
  ranked ≡ₚ found
  /\ ascending snd ranked
  /\ (forall q : Q, with_key snd q ranked = with_key snd q found)
  /\ (found = [] -> top5 (timed found) w = (Ret tt, w))
  /\ (found <> [] -> (length found <= 5)%nat ->
      listed = ranked
      /\ top5 (timed found) w
         = (Ret tt, printed ("TOP 5 FASTEST SERVERS:" :: entry_lines 1 ranked ++ [""]) w))
  /\ ((5 < length found)%nat ->
      length listed = 5%nat
      /\ (forall x y : string * Q, x ∈ listed -> y ∈ drop 5 ranked -> (snd x <= snd y)%Q)
      /\ top5 (timed found) w
         = (Ret tt, printed ("TOP 5 FASTEST SERVERS:" :: entry_lines 1 listed
                             ++ [more_line (length found - 5); ""]) w)).
Proof.
  cbv zeta. split; [apply sorted_by_perm|]. split; [apply sorted_by_ascending|].
  split; [intros q; apply sorted_by_stable|]. split; [intros ->; reflexivity|]. split.
  - intros Hne Hlen.
    assert (Htake : take 5 (sorted_by snd found) = sorted_by snd found).
    { apply take_ge. rewrite sorted_by_length. exact Hlen. }
    split; [exact Htake|]. rewrite (top5_prints found w Hne), Htake.
    destruct (5 <? length found)%nat eqn:Hlt; [apply Nat.ltb_lt in Hlt; lia|].
    reflexivity.
  - intros Hlen. split; [|split].
    + rewrite length_take, sorted_by_length. lia.
    + intros x y. apply ascending_take_drop, sorted_by_ascending.
    + rewrite (top5_prints found w) by (intros ->; simpl in Hlen; lia).
      apply Nat.ltb_lt in Hlen. rewrite Hlen. reflexivity.
Qed.

Lemma top5_report_witness :
  top5 (timed six_found) empty_world
  = (Ret tt,
     printed [ "TOP 5 FASTEST SERVERS:";
               "  1. 8.8.4.4         7ms";
               "  2. 1.1.1.1         12ms";
               "  3. 1.0.0.1         12ms";
               "  4. 9.9.9.9         30ms";
               "  5. 8.8.8.8         30ms";
               "  ... 1 more servers";
               "" ] empty_world)
  /\ top5 (timed (take 2 six_found)) empty_world
     = (Ret tt,
        printed [ "TOP 5 FASTEST SERVERS:";
                  "  1. 1.1.1.1         12ms";
                  "  2. 9.9.9.9         30ms";
                  "" ] empty_world).
Proof.
  split.
  - destruct (top5_report six_found empty_world) as (_ & _ & _ & _ & _ & Hmore).
    destruct Hmore as (_ & _ & Hprint); [simpl; lia | exact Hprint].
  - destruct (top5_report (take 2 six_found) empty_world) as (_ & _ & _ & _ & Hfew & _).
    destruct Hfew as (_ & Hprint); [discriminate | simpl; lia | exact Hprint].
Defined.

(** ** The loop over the futures *)

(** A probe in one of its five ways. *)
Lemma test_single_server_cases (env : Env) (server domain : string) (t : Z) (w : World) :
  (has_nul server = true
   /\ test_single_server env server domain t w
      = (Raise (Exn ValueError "embedded null character"), w))
  \/ (has_nul server = false /\ c_inet_aton (chars server) = false
      /\ test_single_server env server domain t w
         = (Ret (false, (server, None), server +:+ " INVALID IP"), w))
  \/ (exists msg : string,
        queried env server = false
        /\ test_single_server env server domain t w = (Raise (Exn ValueError msg), w))
  \/ (exists (first : string) (others : list string) (ms : Q),
        queried env server = true
        /\ resolve env (probe_resolver server t) domain "A" = (Answers first others, ms)
        /\ test_single_server env server domain t w
           = (Ret (on_answer server ms first others),
              snd (real_time_save (ledger_line server ms) (after_query server domain t w))))
  \/ (exists (e : exn) (ms : Q),
        queried env server = true
        /\ resolve env (probe_resolver server t) domain "A" = (Raises e, ms)
        /\ test_single_server env server domain t w
           = (Ret (on_error server t ms e), after_query server domain t w)).
Proof.
  destruct (has_nul server) eqn:Hn.
  { left. split; [reflexivity|]. now apply test_single_server_nul. }
  destruct (c_inet_aton (chars server)) eqn:Hc.
  2:{ right. left. repeat split. now apply test_single_server_rejected. }
  destruct (nameservers_error env [server]) as [msg|] eqn:He.
  { right. right. left. exists msg. split.
    - unfold queried. rewrite He, Hn, Hc. reflexivity.
    - now apply test_single_server_refused. }
  assert (Hq : queried env server = true).
  { unfold queried. rewrite He, Hn, Hc. reflexivity. }
  pose proof (test_single_server_queried env server domain t w Hq) as Heq. cbv zeta in Heq.
  destruct (resolve env (probe_resolver server t) domain "A") as [[first others|e] ms] eqn:Hr.
  - right. right. right. left. exists first, others, ms. repeat split; assumption.
  - right. right. right. right. exists e, ms. repeat split; assumption.
Qed.

Lemma succeeds_response (env : Env) (domain : string) (t : Z) (server : string) :
  succeeds env domain t server = bool_decide (is_Some (response env domain t server)).
Proof.
  unfold succeeds, response.
  destruct (test_single_server_cases env server domain t empty_world)
    as [[Hn H] | [(Hn & Hc & H) | [(msg & Hq & H) | [(f & o & ms & Hq & Hr & H)
       | (e & ms & Hq & Hr & H)]]]]; rewrite H; cbn [fst].
  - unfold queried. rewrite Hn. reflexivity.
  - unfold queried. rewrite Hn, Hc. reflexivity.
  - rewrite Hq. reflexivity.
  - rewrite Hq, Hr. reflexivity.
  - rewrite Hq, Hr. reflexivity.
Qed.

Lemma app_nil_r_str (s : string) : s +:+ EmptyString = s.
Proof.
  induction s as [|c s IH]; [reflexivity|].
  change (String c (s +:+ EmptyString) = String c s). now rewrite IH.
Qed.

Lemma unlines_app (a b : list string) : unlines (a ++ b) = unlines a +:+ unlines b.
Proof.
  induction a as [|l a IH]; [reflexivity|].
  cbn [unlines fold_right app]. fold (unlines (a ++ b)). fold (unlines a).
  rewrite IH. now rewrite !app_assoc_str.
Qed.

Lemma ledger_grows_refl (w : World) : ledger_grows [] w w.
Proof.
  repeat split; auto. intros _ c Hc. cbn [unlines fold_right].
  now rewrite app_nil_r_str.
Qed.

Lemma ledger_grows_trans (a b : list string) (w1 w2 w3 : World) :
  ledger_grows a w1 w2 -> ledger_grows b w2 w3 -> ledger_grows (a ++ b) w1 w3.
Proof.
  intros (Hd1 & Hw1 & Hn1) (Hd2 & Hw2 & Hn2). split; [congruence|]. split.
  - intros Hok c Hc. rewrite unlines_app, <- app_assoc_str.
    apply Hw2; [rewrite Hd1; exact Hok|]. apply Hw1; assumption.
  - intros Hno. rewrite Hn2 by (rewrite Hd1; exact Hno). now apply Hn1.
Qed.

Lemma ledger_grows_printed (ls : list string) (w : World) : ledger_grows [] w (printed ls w).
Proof. apply (ledger_grows_refl w). Qed.

Lemma ledger_grows_after_query (server domain : string) (t : Z) (w : World) :
  ledger_grows [] w (after_query server domain t w).
Proof. apply (ledger_grows_refl w). Qed.

Lemma real_time_save_grows (info : string) (w : World) :
  ledger_grows [info] w (snd (real_time_save info w)).
Proof.
  unfold ledger_grows, real_time_save, try_except, append_file, ledger_path, script_path.
  destruct (bool_decide ("working_dns.txt" ∈ write_denied w)) eqn:Hd.
  - apply bool_decide_eq_true in Hd.
    unfold catch_all. rewrite isinstance_Exception. rewrite print_printed.
    cbn [fst snd]. repeat split; auto. intros Hok. contradiction.
  - apply bool_decide_eq_false in Hd. cbn [fst snd].
    cbn [write_denied files with_files]. repeat split; [|intros Hno; contradiction].
    intros _ c Hc. rewrite lookup_insert_eq, Hc. cbn [default from_option id].
    cbn [unlines fold_right]. now rewrite app_nil_r_str.
Qed.

Lemma timed_app (a b : list (string * Q)) : timed (a ++ b) = timed a ++ timed b.
Proof. unfold timed. apply map_app. Qed.

Lemma found_among_cons (env : Env) (domain : string) (t : Z) (s : string) (l : list string) :
  found_among env domain t (s :: l)
  = found_among env domain t [s] ++ found_among env domain t l.
Proof. unfold found_among. apply (omap_app _ [s] l). Qed.

Lemma lost_among_cons (env : Env) (domain : string) (t : Z) (s : string) (l : list string) :
  lost_among env domain t (s :: l)
  = lost_among env domain t [s] ++ lost_among env domain t l.
Proof. unfold lost_among. apply (List.filter_app _ [s] l). Qed.

Lemma ledger_lines_app (a b : list (string * Q)) :
  ledger_lines (a ++ b) = ledger_lines a ++ ledger_lines b.
Proof. unfold ledger_lines. apply map_app. Qed.

Lemma future_to_server_lookup (servers : list string) (i : nat) (s : string) :
  (i, s) ∈ submit_all servers -> future_to_server servers !! i = Some s.
Proof.
  intros Hin. unfold future_to_server. apply elem_of_list_to_map_1'; [|exact Hin].
  intros y Hy. unfold submit_all in *.
  apply elem_of_lookup_imap in Hin as (j & x & [= -> ->] & Hx).
  apply elem_of_lookup_imap in Hy as (j' & x' & [= <- ->] & Hx').
  congruence.
Qed.

Lemma submit_all_servers (servers : list string) : map snd (submit_all servers) = servers.
Proof.
  unfold submit_all. change (map snd (imap pair servers)) with (snd <$> imap pair servers).
  rewrite fmap_imap. rewrite (imap_ext _ (fun _ x => x)) by reflexivity.
  induction servers as [|s l IH]; [reflexivity|]. cbn. f_equal.
  rewrite <- IH at 2. apply imap_ext. reflexivity.
Qed.

Lemma completed_perm (pool : Pool) (workers : Z) (servers : list string) :
  completed pool workers servers ≡ₚ servers.
Proof.
  unfold completed, as_completed.
  rewrite <- (submit_all_servers servers) at 2.
  apply Permutation_map, sorted_by_perm.
Qed.

Lemma filter_split_perm {A : Type} (f : A -> bool) (l : list A) :
  List.filter f l ++ List.filter (fun x => negb (f x)) l ≡ₚ l.
Proof.
  induction l as [|x l IH]; [reflexivity|]. cbn [List.filter].
  destruct (f x); cbn [negb app].
  - now rewrite IH.
  - rewrite <- Permutation_middle. now rewrite IH.
Qed.

Lemma found_among_servers (env : Env) (domain : string) (t : Z) (l : list string) :
  map fst (timed (found_among env domain t l)) = List.filter (succeeds env domain t) l.
Proof.
  induction l as [|s l IH]; [reflexivity|].
  rewrite found_among_cons, timed_app, map_app, IH. cbn [List.filter].
  rewrite succeeds_response. unfold found_among. cbn [omap list_omap].
  destruct (response env domain t s); reflexivity.
Qed.

Lemma probe_value_independent (env : Env) (server domain : string) (t : Z) (w w' : World) :
  fst (test_single_server env server domain t w)
  = fst (test_single_server env server domain t w').
Proof.
  destruct (has_nul server) eqn:Hn.
  { now rewrite !test_single_server_nul. }
  destruct (c_inet_aton (chars server)) eqn:Hc.
  2:{ now rewrite !test_single_server_rejected. }
  destruct (nameservers_error env [server]) as [msg|] eqn:He.
  { now rewrite !(test_single_server_refused _ _ _ _ _ msg). }
  assert (Hq : queried env server = true).
  { unfold queried. rewrite He, Hn, Hc. reflexivity. }
  rewrite !(test_single_server_queried _ _ _ _ _ Hq). cbv zeta.
  destruct (resolve env (probe_resolver server t) domain "A") as [[first others|e] ms];
    reflexivity.
Qed.

Lemma write_header_returns (env : Env) (domain : string) (w : World) :
  fst (write_header env domain w) = Ret tt.
Proof.
  unfold write_header, try_except, catch_all. rewrite bind_eval. unfold write_file.
  destruct (bool_decide (ledger_path ∈ write_denied w)).
  - rewrite isinstance_Exception. reflexivity.
  - reflexivity.
Qed.

Lemma write_header_writable (env : Env) (domain : string) (w : World) :
  ledger_path ∉ write_denied w ->
  write_header env domain w
  = (Ret tt,
     printed ["Header written to working_dns.txt"]
       (with_files (fun fs => <[ledger_path := unlines (header_lines (now env) domain)]> fs) w)).
Proof.
  intros Hok. unfold write_header, try_except. rewrite bind_eval. unfold write_file.
  rewrite bool_decide_eq_false_2 by exact Hok. reflexivity.
Qed.

Lemma write_header_denied (env : Env) (domain : string) (w : World) :
  ledger_path ∈ write_denied w ->
  write_header env domain w
  = (Ret tt,
     printed ["Header write error: " +:+ errno_text "13" "Permission denied" ledger_path] w).
Proof.
  intros Hno. unfold write_header, try_except. rewrite bind_eval. unfold write_file.
  rewrite bool_decide_eq_true_2 by exact Hno.
  unfold catch_all. rewrite isinstance_Exception. reflexivity.
Qed.

Lemma omap_lookup_seq {A : Type} (l : list A) :
  omap (fun i => l !! i) (seq 0 (length l)) = l.
Proof.
  induction l as [|x l IH] using rev_ind; [reflexivity|].
  rewrite length_app, Nat.add_comm. cbn [length Nat.add]. rewrite seq_S, omap_app.
  cbn [omap list_omap Nat.add]. rewrite list_lookup_middle by reflexivity.
  f_equal. etransitivity; [|exact IH].
  apply list_omap_ext. apply Forall2_same_length_lookup_2; [reflexivity|].
  intros i a b Ha Hb. assert (a = b) by congruence. subst b.
  apply lookup_seq in Ha as [-> Hi]. cbn [Nat.add].
  apply lookup_app_l. exact Hi.
Qed.

(** ** The probes in the workers *)

(** The two steps of a probe, one after the other, are the probe. *)
Lemma test_single_server_steps (env : Env) (server domain : string) (t : Z) (w : World) :
  test_single_server env server domain t w
  = (s ← probe_begin env server domain t; probe_end env server domain t s) w.
Proof.
  unfold test_single_server, probe_begin. rewrite !bind_eval.
  destruct (try_except (inet_aton server;; mret None) _ w) as [[[early|]|e] w1];
    [reflexivity | | reflexivity].
  cbv zeta. rewrite !bind_eval.
  destruct (assign_nameservers env [server] (Resolver_new false) w1) as [[r|e] w2];
    [|reflexivity].
  unfold attempt, probe_end, try_except, resume. rewrite !bind_eval. cbn [fst snd].
  destruct (do_resolve env (set_lifetime t (set_timeout t r)) domain "A" w2) as [[a|e] w3];
    reflexivity.
Qed.

Lemma probe_begin_cases (env : Env) (server domain : string) (t : Z) (w : World) :
  (queried env server = false
   /\ exists r : result started,
        (forall w0 : World, probe_begin env server domain t w0 = (r, w0))
        /\ match r with
           | Ret (Settled p) => True
           | Ret (Asked _ _) => False
           | Raise _ => True
           end)
  \/ (queried env server = true
      /\ forall w0 : World,
           probe_begin env server domain t w0
           = (Ret (Asked (probe_resolver server t)
                     match fst (resolve env (probe_resolver server t) domain "A") with
                     | Answers first others => Ret (first :: others)
                     | Raises e => Raise e
                     end),
              after_query server domain t w0)).
Proof.
  unfold queried, probe_begin.
  destruct (has_nul server) eqn:Hn.
  { left. split; [reflexivity|]. eexists. split.
    - intros w0. unfold try_except. rewrite !bind_eval, (inet_aton_nul _ _ Hn). reflexivity.
    - exact I. }
  destruct (c_inet_aton (chars server)) eqn:Hc.
  2:{ left. split; [reflexivity|]. eexists. split.
      - intros w0. unfold try_except. rewrite !bind_eval, (inet_aton_rejected _ _ Hn Hc).
        reflexivity.
      - exact I. }
  destruct (nameservers_error env [server]) as [msg|] eqn:He.
  { left. split; [reflexivity|]. eexists. split.
    - intros w0. unfold try_except. rewrite !bind_eval, (inet_aton_accepted _ _ Hn Hc).
      cbn. unfold assign_nameservers. rewrite He. reflexivity.
    - exact I. }
  right. split; [reflexivity|]. intros w0.
  unfold mbind, M_bind, try_except. rewrite (inet_aton_accepted _ _ Hn Hc). simpl.
  unfold assign_nameservers. rewrite He. simpl. rewrite probe_resolver_built.
  unfold attempt, do_resolve, after_query. cbn [fst snd].
  destruct (fst (resolve env (probe_resolver server t) domain "A")); reflexivity.
Qed.

(** The first step: its result, whatever the world, and what it does to
    the world. *)
Lemma probe_begin_eq (env : Env) (server domain : string) (t : Z) (w : World) :
  probe_begin env server domain t w
  = (begins env domain t server, asked_world env domain t server w).
Proof.
  unfold begins, asked_world.
  destruct (probe_begin_cases env server domain t w) as [(-> & r & Hr & _) | [-> Hr]];
    now rewrite !Hr.
Qed.

(** The whole probe likewise. *)
Lemma test_single_server_eq (env : Env) (server domain : string) (t : Z) (w : World) :
  test_single_server env server domain t w
  = (outcome env domain t server,
     saved_world env domain t server (asked_world env domain t server w)).
Proof.
  unfold outcome. rewrite (probe_value_independent env server domain t empty_world w).
  unfold saved_world, asked_world, response.
  destruct (test_single_server_cases env server domain t w)
    as [[Hn H] | [(Hn & Hc & H) | [(m & Hq & H) | [(f & o & ms & Hq & Hr & H)
       | (e & ms & Hq & Hr & H)]]]]; rewrite H; cbn [fst].
  - assert (Hq : queried env server = false) by (unfold queried; now rewrite Hn).
    now rewrite Hq.
  - assert (Hq : queried env server = false) by (unfold queried; now rewrite Hn, Hc).
    now rewrite Hq.
  - now rewrite Hq.
  - now rewrite Hq, Hr.
  - now rewrite Hq, Hr.
Qed.

Lemma probe_end_asked (env : Env) (server domain : string) (t : Z) (w : World) :
  probe_end env server domain t
    (Asked (probe_resolver server t)
       match fst (resolve env (probe_resolver server t) domain "A") with
       | Answers first others => Ret (first :: others)
       | Raises e => Raise e
       end) w
  = let ms := snd (resolve env (probe_resolver server t) domain "A") in
    match fst (resolve env (probe_resolver server t) domain "A") with
    | Answers first others =>
        (Ret (on_answer server ms first others),
         snd (real_time_save (ledger_line server ms) w))
    | Raises e => (Ret (on_error server t ms e), w)
    end.
Proof.
  unfold probe_end, mbind, M_bind, try_except, resume, elapsed_ms.
  destruct (resolve env (probe_resolver server t) domain "A") as [rep ms]. simpl.
  destruct rep as [first others | e]; simpl.
  - unfold ledger_line, on_answer. str_norm.
    match goal with |- context [real_time_save ?i ?w'] =>
      pose proof (real_time_save_queries i w') as [Hr _];
      destruct (real_time_save i w') as [r w''] end.
    simpl in Hr. subst r. reflexivity.
  - unfold on_error, status_of_reply, isinstance, issubclass.
    destruct e as [c s]. destruct c; simpl; str_norm; reflexivity.
Qed.

(** The second step, after a first that has returned. *)
Lemma probe_end_eq (env : Env) (server domain : string) (t : Z) (s : started) (w : World) :
  begins env domain t server = Ret s ->
  probe_end env server domain t s w
  = (outcome env domain t server, saved_world env domain t server w).
Proof.
  unfold begins, outcome, saved_world, response. intros Hb.
  destruct (probe_begin_cases env server domain t w) as [(Hq & r & Hr & Hshape) | [Hq Hr]].
  - rewrite Hq. rewrite Hr in Hb. cbn [fst] in Hb. subst r.
    destruct s as [p|]; [|contradiction].
    rewrite test_single_server_steps, bind_eval, Hr. reflexivity.
  - rewrite Hq. rewrite Hr in Hb. cbn [fst] in Hb. injection Hb as <-.
    rewrite probe_end_asked, (test_single_server_queried _ _ _ _ _ Hq). cbv zeta.
    destruct (resolve env (probe_resolver server t) domain "A") as [[first others|e] ms];
      reflexivity.
Qed.

Lemma begins_raise (env : Env) (domain : string) (t : Z) (server : string) (e : exn) :
  begins env domain t server = Raise e ->
  outcome env domain t server = Raise e /\ response env domain t server = None.
Proof.
  unfold begins, outcome, response. intros Hb.
  destruct (probe_begin_cases env server domain t empty_world)
    as [(Hq & r & Hr & _) | [Hq Hr]].
  - rewrite Hq. split; [|reflexivity].
    rewrite Hr in Hb. cbn [fst] in Hb. subst r.
    now rewrite test_single_server_steps, bind_eval, Hr.
  - rewrite Hr in Hb. discriminate Hb.
Qed.

(** A step of a task. *)
Lemma work_eq (env : Env) (domain : string) (t : Z) (server : string) (tk : task)
    (w : World) :
  task_ok env domain t server tk ->
  exists tk' : task,
    work env domain t server tk w
    = (Ret tk', advance env domain t server (phase tk) (phase tk') w)
    /\ task_ok env domain t server tk'
    /\ (phase tk <= phase tk')%nat
    /\ (forall r : result probe, tk = Over r -> tk' = Over r).
Proof.
  intros Hok. destruct tk as [|b|r]; unfold work, attempt; rewrite ?bind_eval.
  - rewrite probe_begin_eq. cbn [fst snd].
    destruct (begins env domain t server) as [b|e] eqn:Hb.
    + exists (Begun b). split; [reflexivity|]. split; [exact Hb|].
      split; [cbn; lia | discriminate].
    + destruct (begins_raise env domain t server e Hb) as [Ho Hr].
      exists (Over (Raise e)). split.
      * unfold advance, saved_world. cbn [phase Nat.ltb Nat.leb andb]. now rewrite Hr.
      * split; [symmetry; exact Ho|]. split; [cbn; lia | discriminate].
  - rewrite (probe_end_eq env server domain t b w Hok). cbn [fst snd].
    exists (Over (outcome env domain t server)). split; [reflexivity|].
    split; [reflexivity|]. split; [cbn; lia | discriminate].
  - exists (Over r). split; [reflexivity|]. split; [exact Hok|]. split; [lia | auto].
Qed.

(** What is left of a task, run to its end. *)
Lemma finish_eq (env : Env) (domain : string) (t : Z) (server : string) (tk : task)
    (w : World) :
  task_ok env domain t server tk ->
  finish env domain t server tk w
  = (Ret (outcome env domain t server), advance env domain t server (phase tk) 2 w).
Proof.
  intros Hok. destruct tk as [|b|r]; unfold finish, attempt.
  - rewrite <- test_single_server_steps, test_single_server_eq. reflexivity.
  - rewrite (probe_end_eq env server domain t b w Hok). reflexivity.
  - cbn in Hok. subst r. reflexivity.
Qed.

(** What a probe ends with, in the three ways the loop tells apart. *)
Lemma outcome_cases (env : Env) (domain : string) (t : Z) (server : string) :
  (exists e : exn,
      outcome env domain t server = Raise e /\ response env domain t server = None)
  \/ (exists (time : option Q) (msg : string),
        outcome env domain t server = Ret (false, (server, time), msg)
        /\ response env domain t server = None)
  \/ (exists (ms : Q) (msg : string),
        outcome env domain t server = Ret (true, (server, Some ms), msg)
        /\ response env domain t server = Some ms).
Proof.
  unfold outcome, response.
  destruct (test_single_server_cases env server domain t empty_world)
    as [[Hn H] | [(Hn & Hc & H) | [(m & Hq & H) | [(f & o & ms & Hq & Hr & H)
       | (e & ms & Hq & Hr & H)]]]]; rewrite H; cbn [fst].
  - left. eexists. split; [reflexivity|]. unfold queried. now rewrite Hn.
  - right. left. eexists _, _. split; [reflexivity|]. unfold queried. now rewrite Hn, Hc.
  - left. eexists. split; [reflexivity|]. now rewrite Hq.
  - right. right. eexists _, _. split; [reflexivity|]. now rewrite Hq, Hr.
  - right. left. eexists _, _. split; [reflexivity|]. now rewrite Hq, Hr.
Qed.

(** ** The invariant of the pool *)

Lemma servers_at_snoc (servers : list string) (order : list nat) (j : nat) (s : string)
    (a : bool) :
  servers !! j = Some s ->
  servers_at servers (order ++ (if a then [j] else []))
  = servers_at servers order ++ (if a then [s] else []).
Proof.
  intros Hj. unfold servers_at. rewrite omap_app. f_equal.
  destruct a; [|reflexivity]. cbn [omap list_omap]. now rewrite Hj.
Qed.

Lemma found_among_app (env : Env) (domain : string) (t : Z) (a b : list string) :
  found_among env domain t (a ++ b) = found_among env domain t a ++ found_among env domain t b.
Proof. unfold found_among. apply omap_app. Qed.

(** An order of the tasks that have taken [k] steps, when one task goes on. *)
Lemma order_advance (k : nat) (order : list nat) (tasks : list task) (j : nat)
    (tk tk' : task) :
  NoDup order ->
  (forall i : nat,
      i ∈ order <-> exists x : task, tasks !! i = Some x /\ (k <= phase x)%nat) ->
  tasks !! j = Some tk -> (phase tk <= phase tk')%nat ->
  let order' := order ++ (if (phase tk <? k)%nat && (k <=? phase tk')%nat then [j] else []) in
  NoDup order'
  /\ (forall i : nat,
        i ∈ order' <-> exists x : task, <[j := tk']> tasks !! i = Some x /\ (k <= phase x)%nat).
Proof.
  intros Hnd Hin Hj Hle. cbv zeta.
  assert (Hlen : (j < length tasks)%nat) by (eapply lookup_lt_Some; exact Hj).
  destruct ((phase tk <? k)%nat && (k <=? phase tk')%nat) eqn:Ha.
  - apply andb_prop in Ha as [H1 H2]. apply Nat.ltb_lt in H1. apply Nat.leb_le in H2.
    split.
    + apply NoDup_app. split; [exact Hnd|]. split; [|apply NoDup_singleton].
      intros i Hi Hi'. apply list_elem_of_singleton in Hi'. subst i.
      apply Hin in Hi as (x & Hx & Hk). rewrite Hj in Hx. injection Hx as <-. lia.
    + intros i. rewrite elem_of_app, list_elem_of_singleton.
      destruct (decide (i = j)) as [->|Hne].
      * rewrite list_lookup_insert_eq by exact Hlen. split; [|auto].
        intros _. exists tk'. auto.
      * rewrite list_lookup_insert_ne by congruence. rewrite Hin. tauto.
  - rewrite app_nil_r. split; [exact Hnd|]. intros i.
    destruct (decide (i = j)) as [->|Hne].
    + rewrite list_lookup_insert_eq by exact Hlen. rewrite Hin. split.
      * intros (x & Hx & Hk). rewrite Hj in Hx. injection Hx as <-. exists tk'. split; [auto|lia].
      * intros (x & [= <-] & Hk). exists tk. split; [exact Hj|].
        apply andb_false_iff in Ha as [Ha|Ha];
          [apply Nat.ltb_ge in Ha | apply Nat.leb_gt in Ha]; lia.
    + rewrite list_lookup_insert_ne by congruence. apply Hin.
Qed.

(** What going on does to the world. *)
Lemma advance_world (env : Env) (domain : string) (t : Z) (server : string) (p p' : nat)
    (w : World) :
  let a1 := (p <? 1)%nat && (1 <=? p')%nat in
  let a2 := (p <? 2)%nat && (2 <=? p')%nat in
  let w' := advance env domain t server p p' w in
  queries w'
  = queries w ++ map (fun s => (probe_resolver s t, domain, "A"))
                     (List.filter (queried env) (if a1 then [server] else []))
  /\ stdin w' = stdin w
  /\ ledger_grows (ledger_lines (found_among env domain t (if a2 then [server] else []))) w w'.
Proof.
  cbv zeta. unfold advance.
  set (w1 := if (p <? 1)%nat && (1 <=? p')%nat then asked_world env domain t server w else w).
  assert (H1 : queries w1
               = queries w ++ map (fun s => (probe_resolver s t, domain, "A"))
                   (List.filter (queried env)
                      (if (p <? 1)%nat && (1 <=? p')%nat then [server] else []))
               /\ stdin w1 = stdin w /\ ledger_grows [] w w1).
  { unfold w1, asked_world. destruct ((p <? 1)%nat && (1 <=? p')%nat); cbn [List.filter].
    - destruct (queried env server); cbn [map].
      + split; [reflexivity|]. split; [reflexivity | apply ledger_grows_after_query].
      + rewrite app_nil_r. split; [reflexivity|]. split; [reflexivity | apply ledger_grows_refl].
    - cbn [map]. rewrite app_nil_r. split; [reflexivity|].
      split; [reflexivity | apply ledger_grows_refl]. }
  destruct H1 as (Hq1 & Hs1 & Hg1). clearbody w1.
  destruct ((p <? 2)%nat && (2 <=? p')%nat).
  - unfold saved_world, found_among. cbn [omap list_omap].
    destruct (response env domain t server) as [ms|]; cbn [fmap option_fmap option_map].
    + destruct (real_time_save_queries (ledger_line server ms) w1) as (_ & -> & ->).
      split; [exact Hq1|]. split; [exact Hs1|].
      apply (ledger_grows_trans [] [ledger_line server ms] w w1); [exact Hg1|].
      apply real_time_save_grows.
    + split; [exact Hq1|]. split; [exact Hs1 | exact Hg1].
  - split; [exact Hq1|]. split; [exact Hs1 | exact Hg1].
Qed.

Lemma pool_inv_advance (env : Env) (domain : string) (t : Z) (servers : list string)
    (w0 : World) (tasks : list task) (w : World) (j : nat) (s : string) (tk tk' : task) :
  pool_inv env domain t servers w0 tasks w ->
  servers !! j = Some s -> tasks !! j = Some tk ->
  task_ok env domain t s tk' -> (phase tk <= phase tk')%nat ->
  pool_inv env domain t servers w0 (<[j := tk']> tasks)
    (advance env domain t s (phase tk) (phase tk') w).
Proof.
  intros (Hlen & Hok & asked & saved & Hnd1 & Hnd2 & Hin1 & Hin2 & Hq & Hs & Hg)
         Hsj Htj Hok' Hle.
  assert (Hj : (j < length tasks)%nat) by (eapply lookup_lt_Some; exact Htj).
  split; [now rewrite length_insert|]. split.
  { intros i x y Hx Hy. destruct (decide (i = j)) as [->|Hne].
    - rewrite list_lookup_insert_eq in Hy by exact Hj. injection Hy as <-.
      rewrite Hsj in Hx. injection Hx as <-. exact Hok'.
    - rewrite list_lookup_insert_ne in Hy by congruence. eapply Hok; eassumption. }
  destruct (order_advance 1 asked tasks j tk tk' Hnd1 Hin1 Htj Hle) as [Hnd1' Hin1'].
  destruct (order_advance 2 saved tasks j tk tk' Hnd2 Hin2 Htj Hle) as [Hnd2' Hin2'].
  destruct (advance_world env domain t s (phase tk) (phase tk') w) as (Hq' & Hs' & Hg').
  eexists _, _. split; [exact Hnd1'|]. split; [exact Hnd2'|].
  split; [exact Hin1'|]. split; [exact Hin2'|].
  rewrite !(servers_at_snoc servers _ j s _ Hsj).
  rewrite List.filter_app, map_app, found_among_app, ledger_lines_app.
  split; [|split].
  - rewrite Hq', Hq. now rewrite <- app_assoc.
  - now rewrite Hs'.
  - eapply ledger_grows_trans; eassumption.
Qed.

Lemma pool_inv_printed (env : Env) (domain : string) (t : Z) (servers : list string)
    (w0 : World) (tasks : list task) (w : World) (ls : list string) :
  pool_inv env domain t servers w0 tasks w ->
  pool_inv env domain t servers w0 tasks (printed ls w).
Proof.
  intros (Hlen & Hok & asked & saved & Hnd1 & Hnd2 & Hin1 & Hin2 & Hq & Hs & Hg).
  split; [exact Hlen|]. split; [exact Hok|]. exists asked, saved.
  repeat (split; [assumption|]).
  rewrite <- (app_nil_r (ledger_lines _)).
  eapply ledger_grows_trans; [exact Hg | apply ledger_grows_printed].
Qed.

(** A step of a worker keeps the invariant, and a task that is over as
    it is. *)
Lemma worker_step_inv (env : Env) (domain : string) (t : Z) (servers : list string)
    (w0 : World) (j : nat) (tasks : list task) (w : World) :
  pool_inv env domain t servers w0 tasks w ->
  exists (tasks' : list task) (w' : World),
    worker_step env domain t servers j tasks w = (Ret tasks', w')
    /\ pool_inv env domain t servers w0 tasks' w'
    /\ (forall (i : nat) (r : result probe),
          tasks !! i = Some (Over r) -> tasks' !! i = Some (Over r)).
Proof.
  intros Hinv. unfold worker_step.
  destruct (servers !! j) as [s|] eqn:Hs; [|exists tasks, w; auto].
  destruct (tasks !! j) as [tk|] eqn:Ht; [|exists tasks, w; auto].
  assert (Hok : task_ok env domain t s tk).
  { destruct Hinv as (_ & Hok & _). eapply Hok; eassumption. }
  destruct (work_eq env domain t s tk w Hok) as (tk' & Hw & Hok' & Hle & Hover).
  rewrite bind_eval, Hw. eexists _, _. split; [reflexivity|]. split.
  - eapply pool_inv_advance; eassumption.
  - intros i r Hi. destruct (decide (i = j)) as [->|Hne].
    + rewrite Ht in Hi. injection Hi as ->. rewrite (Hover r eq_refl).
      apply list_lookup_insert_eq. eapply lookup_lt_Some; exact Ht.
    + now rewrite list_lookup_insert_ne by congruence.
Qed.

Lemma workers_run_inv (env : Env) (domain : string) (t : Z) (servers : list string)
    (w0 : World) (schedule : list nat) :
  forall (tasks : list task) (w : World),
    pool_inv env domain t servers w0 tasks w ->
    exists (tasks' : list task) (w' : World),
      workers_run env domain t servers schedule tasks w = (Ret tasks', w')
      /\ pool_inv env domain t servers w0 tasks' w'
      /\ (forall (i : nat) (r : result probe),
            tasks !! i = Some (Over r) -> tasks' !! i = Some (Over r)).
Proof.
  induction schedule as [|j schedule IH]; intros tasks w Hinv.
  - exists tasks, w. auto.
  - destruct (worker_step_inv env domain t servers w0 j tasks w Hinv)
      as (tasks1 & w1 & Hstep & Hinv1 & Hover1).
    destruct (IH tasks1 w1 Hinv1) as (tasks2 & w2 & Hrun & Hinv2 & Hover2).
    exists tasks2, w2. cbn [workers_run]. rewrite bind_eval, Hstep.
    split; [exact Hrun|]. split; [exact Hinv2|]. intros i r Hi. eauto.
Qed.

(** One round of the loop, for the future [i] of the server [s]. *)
Lemma collect_round (env : Env) (pool : Pool) (workers : Z) (domain : string) (t : Z)
    (servers : list string) (w0 : World) (d : gmap nat string)
    (i : nat) (s : string) (rest : list (nat * string)) (tasks : list task) (taken : nat)
    (working : list (string * option Q)) (failed : list string) (w : World) :
  d !! i = Some s -> servers !! i = Some s ->
  pool_inv env domain t servers w0 tasks w ->
  exists (tasks' : list task) (w' : World),
    collect env pool workers domain t d servers ((i, s) :: rest) tasks taken working failed w
    = collect env pool workers domain t d servers rest tasks' (S taken)
        (working ++ timed (found_among env domain t [s]))
        (failed ++ lost_among env domain t [s]) w'
    /\ pool_inv env domain t servers w0 tasks' w'
    /\ (forall (j : nat) (r : result probe),
          tasks !! j = Some (Over r) -> tasks' !! j = Some (Over r))
    /\ (exists r : result probe, tasks' !! i = Some (Over r)).
Proof.
  intros Hd Hs Hinv. cbn [collect]. rewrite bind_eval.
  destruct (workers_run_inv env domain t servers w0 (runs pool workers taken) tasks w Hinv)
    as (tasks1 & w1 & -> & Hinv1 & Hover1).
  assert (Hlen : (i < length tasks1)%nat).
  { destruct Hinv1 as (-> & _). eapply lookup_lt_Some; exact Hs. }
  destruct (lookup_lt_is_Some_2 tasks1 i Hlen) as [tk Htk].
  assert (Hok : task_ok env domain t s tk).
  { destruct Hinv1 as (_ & Hok & _). eapply Hok; eassumption. }
  rewrite bind_eval, Htk. cbn [default from_option id].
  rewrite (finish_eq env domain t s tk w1 Hok). cbv zeta.
  assert (Hinv2 : pool_inv env domain t servers w0
                    (<[i := Over (outcome env domain t s)]> tasks1)
                    (advance env domain t s (phase tk) 2 w1)).
  { apply (pool_inv_advance env domain t servers w0 tasks1 w1 i s tk
             (Over (outcome env domain t s)) Hinv1 Hs Htk eq_refl).
    destruct tk; cbn; lia. }
  assert (Hover2 : forall (j : nat) (r : result probe),
             tasks !! j = Some (Over r) ->
             <[i := Over (outcome env domain t s)]> tasks1 !! j = Some (Over r)).
  { intros j r Hj. apply Hover1 in Hj. destruct (decide (j = i)) as [->|Hne].
    - rewrite Htk in Hj. injection Hj as ->. cbn in Hok. subst r.
      now apply list_lookup_insert_eq.
    - now rewrite list_lookup_insert_ne by congruence. }
  assert (Hi : <[i := Over (outcome env domain t s)]> tasks1 !! i
               = Some (Over (outcome env domain t s))) by now apply list_lookup_insert_eq.
  revert Hinv2 Hover2 Hi.
  generalize (<[i := Over (outcome env domain t s)]> tasks1).
  generalize (advance env domain t s (phase tk) 2 w1). intros w2 tasks2 Hinv2 Hover2 Hi.
  rewrite bind_eval. unfold try_except, catch_all, resume. rewrite bind_eval.
  unfold found_among, lost_among. cbn [omap list_omap List.filter].
  rewrite succeeds_response.
  destruct (outcome_cases env domain t s)
    as [(e & -> & ->) | [(time & msg & -> & ->) | (ms & msg & -> & ->)]].
  - rewrite isinstance_Exception, bind_eval. unfold dict_get. rewrite Hd.
    rewrite bool_decide_eq_false_2 by (intros [x Hx]; discriminate).
    cbn [mret M_ret negb fmap option_fmap option_map timed map].
    rewrite bind_eval, print_printed. cbn [fst snd]. rewrite !app_nil_r.
    eexists _, _. split; [reflexivity|]. split; [now apply pool_inv_printed|].
    split; [exact Hover2 | eauto].
  - rewrite bool_decide_eq_false_2 by (intros [x Hx]; discriminate).
    cbn [negb fmap option_fmap option_map timed map].
    rewrite bind_eval, print_printed. cbn [fst snd]. rewrite !app_nil_r.
    eexists _, _. split; [reflexivity|]. split; [now apply pool_inv_printed|].
    split; [exact Hover2 | eauto].
  - rewrite bool_decide_eq_true_2 by (eexists; reflexivity).
    cbn [negb fmap option_fmap option_map timed map fst snd].
    rewrite bind_eval, print_printed. cbn [fst snd]. rewrite !app_nil_r.
    eexists _, _. split; [reflexivity|]. split; [now apply pool_inv_printed|].
    split; [exact Hover2 | eauto].
Qed.

(** The whole loop. *)
Lemma collect_all (env : Env) (pool : Pool) (workers : Z) (domain : string) (t : Z)
    (servers : list string) (w0 : World) (d : gmap nat string)
    (futures : list (nat * string)) :
  (forall (i : nat) (s : string),
      (i, s) ∈ futures -> d !! i = Some s /\ servers !! i = Some s) ->
  forall (tasks : list task) (taken : nat)
         (working : list (string * option Q)) (failed : list string) (w : World),
    pool_inv env domain t servers w0 tasks w ->
    exists (tasks' : list task) (w' : World),
      collect env pool workers domain t d servers futures tasks taken working failed w
      = (Ret (working ++ timed (found_among env domain t (map snd futures)),
              failed ++ lost_among env domain t (map snd futures)), w')
      /\ pool_inv env domain t servers w0 tasks' w'
      /\ (forall (j : nat) (r : result probe),
            tasks !! j = Some (Over r) -> tasks' !! j = Some (Over r))
      /\ (forall (i : nat) (s : string),
            (i, s) ∈ futures -> exists r : result probe, tasks' !! i = Some (Over r)).
Proof.
  induction futures as [|[i s] rest IH]; intros Hd tasks taken working failed w Hinv.
  - exists tasks, w. cbn. rewrite !app_nil_r. split; [reflexivity|].
    split; [exact Hinv|]. split; [auto|]. intros i s Hin. inversion Hin.
  - destruct (Hd i s ltac:(left)) as [Hdi Hsi].
    destruct (collect_round env pool workers domain t servers w0 d i s rest tasks taken
                working failed w Hdi Hsi Hinv) as (tasks1 & w1 & Hstep & Hinv1 & Hover1 & Hi).
    destruct (IH (fun j x Hj => Hd j x (list_elem_of_further _ _ _ Hj)) tasks1 (S taken)
                 (working ++ timed (found_among env domain t [s]))
                 (failed ++ lost_among env domain t [s]) w1 Hinv1)
      as (tasks2 & w2 & Hrest & Hinv2 & Hover2 & Hall).
    exists tasks2, w2. rewrite Hstep, Hrest. cbn [map snd].
    rewrite (found_among_cons _ _ _ s (map snd rest)).
    rewrite (lost_among_cons _ _ _ s (map snd rest)).
    rewrite timed_app, <- !app_assoc.
    split; [reflexivity|]. split; [exact Hinv2|]. split; [eauto|].
    intros j x Hin. inversion Hin as [|? ? ? Hin']; subst.
    + destruct Hi as [r Hr]. exists r. now apply Hover2.
    + eapply Hall; exact Hin'.
Qed.

Lemma pool_inv_start (env : Env) (domain : string) (t : Z) (servers : list string)
    (w0 : World) :
  pool_inv env domain t servers w0 (replicate (length servers) Queued) w0.
Proof.
  split; [apply length_replicate|]. split.
  { intros j s tk _ Htk. apply lookup_replicate in Htk as [-> _]. exact I. }
  exists [], []. split; [constructor|]. split; [constructor|].
  assert (Hnone : forall (k j : nat),
             (1 <= k)%nat ->
             j ∈ ([] : list nat)
             <-> exists tk : task,
                   replicate (length servers) Queued !! j = Some tk /\ (k <= phase tk)%nat).
  { intros k j Hk. split; [intros Hj; inversion Hj|].
    intros (tk & Htk & Hp). apply lookup_replicate in Htk as [-> _]. cbn in Hp. lia. }
  split; [intros j; apply Hnone; lia|]. split; [intros j; apply Hnone; lia|].
  cbn. rewrite app_nil_r. split; [reflexivity|]. split; [reflexivity|].
  apply ledger_grows_refl.
Qed.

(** When every task is over, the tasks in the order of their first
    steps, and in that of their last, are all the servers. *)
Lemma all_over_servers (servers : list string) (tasks : list task) (k : nat)
    (order : list nat) :
  length tasks = length servers ->
  (forall j : nat, (j < length servers)%nat -> exists r : result probe,
        tasks !! j = Some (Over r)) ->
  NoDup order ->
  (forall j : nat,
      j ∈ order <-> exists tk : task, tasks !! j = Some tk /\ (k <= phase tk)%nat) ->
  (k <= 2)%nat ->
  servers_at servers order ≡ₚ servers.
Proof.
  intros Hlen Hover Hnd Hin Hk.
  assert (Hperm : order ≡ₚ seq 0 (length servers)).
  { apply NoDup_Permutation; [exact Hnd | apply NoDup_seq|].
    intros j. rewrite Hin, elem_of_seq. split.
    - intros (tk & Htk & _). apply lookup_lt_Some in Htk. lia.
    - intros [_ Hj]. destruct (Hover j ltac:(lia)) as [r Hr]. exists (Over r).
      split; [exact Hr | cbn; lia]. }
  unfold servers_at. rewrite Hperm. now rewrite omap_lookup_seq.
Qed.

(** The testing part of the run: the two lists it leaves, the queries
    and the ledger. The lists are in the order in which the futures are
    taken; the queries and the lines of the ledger are in the orders in
    which the workers get to them. *)
Lemma test_all_eq (env : Env) (pool : Pool) (servers : list string)
    (workers t : Z) (domain : string) (w : World) :
  let order := completed pool workers servers in
  exists (w' : World) (asked saved : list string),
    test_all env pool servers workers t domain w
    = (Ret (timed (found_among env domain t order), lost_among env domain t order), w')
    /\ write_denied w' = write_denied w
    /\ asked ≡ₚ servers /\ saved ≡ₚ servers
    /\ queries w'
       = queries w ++ map (fun s => (probe_resolver s t, domain, "A"))
                          (List.filter (queried env) asked)
    /\ stdin w' = stdin w
    /\ (ledger_path ∉ write_denied w ->
        files w' !! ledger_path
        = Some (unlines (header_lines (now env) domain
                         ++ ledger_lines (found_among env domain t saved))))
    /\ (ledger_path ∈ write_denied w -> files w' = files w).
Proof.
  cbv zeta. unfold test_all, completed.
  set (futures := as_completed pool workers (submit_all servers)).
  assert (Hfut : forall (i : nat) (s : string), (i, s) ∈ futures <-> servers !! i = Some s).
  { intros i s. unfold futures, as_completed. rewrite sorted_by_perm. unfold submit_all.
    rewrite elem_of_lookup_imap. split.
    - intros (j & x & [= -> ->] & Hx). exact Hx.
    - intros Hx. exists i, s. auto. }
  assert (Hd : forall (i : nat) (s : string),
             (i, s) ∈ futures -> future_to_server servers !! i = Some s /\ servers !! i = Some s).
  { intros i s Hin. split; [|now apply Hfut]. apply future_to_server_lookup.
    unfold futures, as_completed in Hin. now rewrite sorted_by_perm in Hin. }
  rewrite bind_eval.
  assert (Hrun : forall w0 : World,
             exists (w' : World) (asked saved : list string),
               collect env pool workers domain t (future_to_server servers) servers futures
                 (replicate (length servers) Queued) 0 [] [] w0
               = (Ret (timed (found_among env domain t (map snd futures)),
                       lost_among env domain t (map snd futures)), w')
               /\ asked ≡ₚ servers /\ saved ≡ₚ servers
               /\ queries w'
                  = queries w0 ++ map (fun s => (probe_resolver s t, domain, "A"))
                                      (List.filter (queried env) asked)
               /\ stdin w' = stdin w0
               /\ ledger_grows (ledger_lines (found_among env domain t saved)) w0 w').
  { intros w0.
    destruct (collect_all env pool workers domain t servers w0 (future_to_server servers)
                futures Hd (replicate (length servers) Queued) 0 [] [] w0
                (pool_inv_start env domain t servers w0))
      as (tasks & w' & Heq & (Hlen & _ & asked & saved & Hnd1 & Hnd2 & Hin1 & Hin2
                               & Hq & Hs & Hg) & _ & Hall).
    assert (Hover : forall j : nat, (j < length servers)%nat ->
                      exists r : result probe, tasks !! j = Some (Over r)).
    { intros j Hj. destruct (lookup_lt_is_Some_2 servers j Hj) as [s Hs'].
      apply (Hall j s). now apply Hfut. }
    exists w', (servers_at servers asked), (servers_at servers saved).
    split; [exact Heq|].
    split; [apply (all_over_servers servers tasks 1); auto|].
    split; [apply (all_over_servers servers tasks 2); auto|].
    auto. }
  destruct (decide (ledger_path ∈ write_denied w)) as [Hno|Hok].
  - rewrite (write_header_denied _ _ _ Hno).
    repeat (rewrite bind_eval, print_printed). cbv zeta.
    match goal with |- context [collect _ _ _ _ _ _ _ _ _ _ _ _ ?w0] =>
      destruct (Hrun w0) as (w' & asked & saved & Heq & Hp1 & Hp2 & Hq & Hs
                             & Hd' & _ & Hn) end.
    exists w', asked, saved. fold futures. rewrite Heq. split; [reflexivity|].
    split; [exact Hd'|]. split; [exact Hp1|]. split; [exact Hp2|].
    split; [exact Hq|]. split; [exact Hs|].
    split; [intros Hok; contradiction|]. intros _. now rewrite Hn.
  - rewrite (write_header_writable _ _ _ Hok).
    repeat (rewrite bind_eval, print_printed). cbv zeta.
    match goal with |- context [collect _ _ _ _ _ _ _ _ _ _ _ _ ?w0] =>
      destruct (Hrun w0) as (w' & asked & saved & Heq & Hp1 & Hp2 & Hq & Hs
                             & Hd' & Hg & _) end.
    exists w', asked, saved. fold futures. rewrite Heq. split; [reflexivity|].
    split; [exact Hd'|]. split; [exact Hp1|]. split; [exact Hp2|].
    split; [exact Hq|]. split; [exact Hs|].
    split; [|intros Hno; contradiction]. intros _.
    rewrite unlines_app. apply Hg; [exact Hok|].
    cbn [files printed with_console with_files]. apply lookup_insert_eq.
Qed.
(** C1: the testing part of the run returns, whatever the pool does and
    whatever the probes do; every submitted server is in one of the two
    lists as often as it was submitted, in [working] when its own probe
    succeeds and in [failed] when it does not, in particular when the
    probe raises. *)
Theorem every_candidate_has_one_outcome (env : Env) (pool : Pool) (servers : list string)
    (workers t : Z) (domain : string) (w : World) :
  exists (working : list (string * option Q)) (failed : list string) (w' : World),
    test_all env pool servers workers t domain w = (Ret (working, failed), w')
    /\ map fst working ++ failed ≡ₚ servers
    /\ (forall s : string, s ∈ map fst working -> succeeds env domain t s = true)
    /\ (forall s : string, s ∈ failed -> succeeds env domain t s = false)
    /\ (forall (s : string) (e : exn) (w0 : World),
          s ∈ servers ->
          fst (test_single_server env s domain t w0) = Raise e ->
          s ∈ failed /\ s ∉ map fst working).
Proof.
  destruct (test_all_eq env pool servers workers t domain w) as (w' & _ & _ & Heq & _).
  set (order := completed pool workers servers) in *.
  exists (timed (found_among env domain t order)), (lost_among env domain t order), w'.
  split; [exact Heq|]. rewrite found_among_servers. unfold lost_among.
  assert (Hw : forall s : string,
             s ∈ List.filter (succeeds env domain t) order -> succeeds env domain t s = true).
  { intros s Hs. apply list_elem_of_In, filter_In in Hs. tauto. }
  split; [|split; [exact Hw|split]].
  - rewrite filter_split_perm. apply completed_perm.
  - intros s Hs. apply list_elem_of_In, filter_In in Hs as [_ Hs].
    now apply negb_true_iff in Hs.
  - intros s e w0 Hin Hraise.
    assert (Hfail : succeeds env domain t s = false).
    { unfold succeeds.
      rewrite (probe_value_independent env s domain t empty_world w0), Hraise. reflexivity. }
    split.
    + apply list_elem_of_In, filter_In. split.
      * apply list_elem_of_In. unfold order. now rewrite completed_perm.
      * now rewrite Hfail.
    + intros Hs. apply Hw in Hs. congruence.
Qed.

Lemma every_candidate_has_one_outcome_witness :
  exists (working : list (string * option Q)) (failed : list string) (w' : World),
    test_all strict_env last_first ["1.1.1.1"; "1.1.1"; "203.0.113.5"] 100 3 "example.com"
      empty_world
    = (Ret (working, failed), w')
    /\ "1.1.1" ∈ failed /\ "1.1.1" ∉ map fst working.
Proof.
  destruct (every_candidate_has_one_outcome strict_env last_first
              ["1.1.1.1"; "1.1.1"; "203.0.113.5"] 100 3 "example.com" empty_world)
    as (working & failed & w' & Hrun & _ & _ & _ & Hraise).
  exists working, failed, w'. split; [exact Hrun|].
  apply (Hraise "1.1.1" (Exn ValueError "nameserver is not an IP address") empty_world).
  - apply list_elem_of_In. right. left. reflexivity.
  - vm_compute. reflexivity.
Defined.

Example test_all_example :
  fst (test_all strict_env last_first ["1.1.1.1"; "1.1.1"; "203.0.113.5"] 100 3 "example.com"
         empty_world)
  = Ret ([("1.1.1.1", Some 20%Q)], ["203.0.113.5"; "1.1.1"]).
Proof. vm_compute. reflexivity. Qed.

(** ** The whole run *)

Lemma top5_timed_files (found : list (string * Q)) (w : World) :
  exists ls : list string, top5 (timed found) w = (Ret tt, printed ls w).
Proof.
  destruct found as [|x l].
  - exists []. now rewrite printed_nil.
  - eexists. apply top5_prints. discriminate.
Qed.

Lemma report_eq (env : Env) (servers : list string) (domain : string)
    (found : list (string * Q)) (failed : list string) (w : World) :
  exists ls : list string,
    report env servers domain (timed found) failed w = (Ret (timed found), printed ls w).
Proof.
  unfold report. repeat (rewrite bind_eval, print_printed, ?printed_printed).
  rewrite bind_eval.
  match goal with |- context [top5 _ ?w0] =>
    destruct (top5_timed_files found w0) as (ls & ->) end.
  repeat (rewrite bind_eval, print_printed, ?printed_printed).
  cbn [mret M_ret]. eexists. reflexivity.
Qed.

(** C7, as the code has it: with no candidate the run says so and
    returns the empty list; nothing is raised, and the summary, with its
    total and its rate, is not printed. The rate itself is 0 by its guard
    when there is no candidate. *)
Theorem no_candidates_no_report (env : Env) (pool : Pool) (filename : string) (w w1 : World) :
  load_servers filename (printed banner w) = (Ret [], w1) ->
  check_dns_servers env pool filename w = (Ret [], printed ["No servers to test. Exiting."] w1)
  /\ forall working : list (string * option Q), success_rate working [] = 0%Q.
Proof.
  intros Hload. split; [|reflexivity].
  unfold check_dns_servers. rewrite bind_eval, print_printed, bind_eval, print_printed.
  rewrite printed_printed. change (["Azadi DNS Tester"] ++ [rule "=" 70]) with banner.
  rewrite bind_eval, Hload. reflexivity.
Qed.

Lemma no_candidates_no_report_witness :
  check_dns_servers scenario_env last_first "dns_servers.txt" unreadable_world
  = (Ret [],
     printed [ "Azadi DNS Tester";
               "======================================================================";
               "Error loading servers: [Errno 13] Permission denied: 'dns_servers.txt'";
               "No servers to test. Exiting." ] unreadable_world).
Proof.
  destruct (no_candidates_no_report scenario_env last_first "dns_servers.txt" unreadable_world
              (printed (banner ++ ["Error loading servers: [Errno 13] Permission denied: 'dns_servers.txt'"])
                       unreadable_world)) as [Hrun _].
  - vm_compute. reflexivity.
  - rewrite Hrun. vm_compute. reflexivity.
Defined.

(** C7 fails as it is worded: with no candidate there is no line with a
    total of 0 nor one with a rate of 0%. *)
Lemma no_candidates_nothing_reported :
  fst (load_servers "dns_servers.txt" (printed banner unreadable_world)) = Ret []
  /\ console (snd (check_dns_servers scenario_env last_first "dns_servers.txt" unreadable_world))
     = [ "Azadi DNS Tester";
         "======================================================================";
         "Error loading servers: [Errno 13] Permission denied: 'dns_servers.txt'";
         "No servers to test. Exiting." ]
  /\ ~ In "Total servers tested: 0"
          (console (snd (check_dns_servers scenario_env last_first "dns_servers.txt"
                           unreadable_world)))
  /\ ~ In "Working servers:      0 (0.0%)"
          (console (snd (check_dns_servers scenario_env last_first "dns_servers.txt"
                           unreadable_world))).
Proof.
  assert (Hc : console (snd (check_dns_servers scenario_env last_first "dns_servers.txt"
                               unreadable_world))
               = [ "Azadi DNS Tester";
                   "======================================================================";
                   "Error loading servers: [Errno 13] Permission denied: 'dns_servers.txt'";
                   "No servers to test. Exiting." ]) by (vm_compute; reflexivity).
  split; [vm_compute; reflexivity|]. split; [exact Hc|]. rewrite Hc.
  split; intros [H|[H|[H|[H|[]]]]]; discriminate H.
Qed.

(** ** Threads at the ledger *)

Lemma start_state_inv (writable : bool) (ops : list file_op) (ledger : list ascii) :
  ledger_inv writable ops ledger (start_state ops ledger).
Proof.
  unfold ledger_inv, start_state. cbn [threads lock content].
  split; [apply length_replicate|]. split; [|split].
  - intros i p Hp. apply lookup_replicate in Hp as [-> _]. discriminate.
  - discriminate.
  - exists []. split; [constructor|]. split; [|reflexivity].
    intros i. split; [intros H; inversion H|].
    intros (p & Hp & Hw). apply lookup_replicate in Hp as [-> _]. discriminate.
Qed.

Lemma serial_snoc (writable : bool) (ops : list file_op) (order : list nat) (i : nat)
    (op : file_op) (ledger : list ascii) :
  ops !! i = Some op ->
  serial writable ops (order ++ [i]) ledger
  = apply_op writable (serial writable ops order ledger) op.
Proof.
  intros Hop. unfold serial, ops_of. rewrite omap_app, fold_left_app.
  cbn [omap list_omap]. rewrite Hop. reflexivity.
Qed.

(** The threads after thread [i] moved to [p']. *)
Lemma moved_lookup (ts : list pc) (i j : nat) (p p' q : pc) :
  ts !! i = Some p -> <[i := p']> ts !! j = Some q ->
  (j = i /\ q = p') \/ (j <> i /\ ts !! j = Some q).
Proof.
  intros Hi Hj. destruct (decide (j = i)) as [->|Hne].
  - left. split; [reflexivity|].
    rewrite list_lookup_insert_eq in Hj by (eapply lookup_lt_Some, Hi). congruence.
  - right. split; [exact Hne|]. now rewrite list_lookup_insert_ne in Hj by congruence.
Qed.

Lemma moved_self (ts : list pc) (i : nat) (p p' : pc) :
  ts !! i = Some p -> <[i := p']> ts !! i = Some p'.
Proof. intros Hi. apply list_lookup_insert_eq. eapply lookup_lt_Some, Hi. Qed.

(** The threads through with the file do not change when a thread moves
    between two points that are both before or both after that. *)
Lemma written_moved (ts : list pc) (i : nat) (p p' : pc) (order : list nat) :
  ts !! i = Some p -> written p = written p' ->
  (forall j : nat, j ∈ order <-> exists q : pc, ts !! j = Some q /\ written q = true) ->
  forall j : nat,
    j ∈ order <-> exists q : pc, <[i := p']> ts !! j = Some q /\ written q = true.
Proof.
  intros Hi Hw Horder j. rewrite Horder. split.
  - intros (q & Hq & Hwq). destruct (decide (j = i)) as [->|Hne].
    + exists p'. split; [eapply moved_self, Hi|]. rewrite <- Hw. congruence.
    + exists q. split; [|exact Hwq]. now rewrite list_lookup_insert_ne by congruence.
  - intros (q & Hq & Hwq).
    destruct (moved_lookup _ _ _ _ _ _ Hi Hq) as [[-> ->] | [Hne Hq']].
    + exists p. split; [exact Hi | congruence].
    + exists q. split; assumption.
Qed.

(** The same when the thread gets through with the file. *)
Lemma written_joined (ts : list pc) (i : nat) (p p' : pc) (order : list nat) :
  ts !! i = Some p -> written p = false -> written p' = true ->
  (forall j : nat, j ∈ order <-> exists q : pc, ts !! j = Some q /\ written q = true) ->
  NoDup order ->
  NoDup (order ++ [i])
  /\ forall j : nat,
       j ∈ order ++ [i] <-> exists q : pc, <[i := p']> ts !! j = Some q /\ written q = true.
Proof.
  intros Hi Hw Hw' Horder Hnd. split.
  - apply NoDup_app. split; [exact Hnd|]. split; [|apply NoDup_singleton].
    intros j Hj Hji. apply list_elem_of_singleton in Hji as ->.
    apply Horder in Hj as (q & Hq & Hwq). congruence.
  - intros j. rewrite elem_of_app, list_elem_of_singleton, Horder. split.
    + intros [(q & Hq & Hwq) | ->].
      * destruct (decide (j = i)) as [->|Hne]; [congruence|].
        exists q. split; [|exact Hwq]. now rewrite list_lookup_insert_ne by congruence.
      * exists p'. split; [eapply moved_self, Hi | exact Hw'].
    + intros (q & Hq & Hwq).
      destruct (moved_lookup _ _ _ _ _ _ Hi Hq) as [[-> ->] | [Hne Hq']].
      * right. reflexivity.
      * left. exists q. split; assumption.
Qed.

(** Every step keeps [ledger_inv]. *)
Lemma step_thread_inv (writable : bool) (ops : list file_op) (ledger : list ascii)
    (i : nat) (s s' : Shared) :
  ledger_inv writable ops ledger s ->
  step_thread writable ops i s = Some s' ->
  ledger_inv writable ops ledger s'.
Proof.
  intros (Hlen & Hcrit & Hlock & order & Hnd & Horder & Hcontent) Hstep.
  unfold step_thread in Hstep.
  destruct (threads s !! i) as [p|] eqn:Hi; [|discriminate].
  destruct (ops !! i) as [[m txt]|] eqn:Hop; [|destruct p as [| |[|]| |]; discriminate].
  assert (Hmine : critical p = true -> lock s = Some i) by (apply Hcrit, Hi).
  assert (Hothers : forall (l : option nat) (p' : pc) (j : nat) (q : pc),
             (critical p = true \/ lock s = None) ->
             <[i := p']> (threads s) !! j = Some q -> critical q = true ->
             j = i /\ q = p').
  { intros l p' j q Hp Hj Hq.
    destruct (moved_lookup _ _ _ _ _ _ Hi Hj) as [[-> ->] | [Hne Hj']]; [auto|].
    pose proof (Hcrit j q Hj' Hq) as Hlj.
    destruct Hp as [Hp | Hp]; [rewrite (Hmine Hp) in Hlj | rewrite Hp in Hlj]; congruence. }
  destruct p as [| |[|c todo]| |].
  - (* taking the lock *)
    destruct (lock s) as [h|] eqn:Hl; [discriminate|]. injection Hstep as <-.
    unfold ledger_inv. cbn [threads lock content].
    split; [now rewrite length_insert|]. split; [|split].
    + intros j q Hj Hq. f_equal. symmetry.
      now apply (Hothers None Holding j q (or_intror eq_refl) Hj Hq).
    + intros h [= <-]. exists Holding. split; [eapply moved_self, Hi | reflexivity].
    + exists order. split; [exact Hnd|]. split.
      * now apply (written_moved _ _ Start Holding).
      * rewrite (moved_self _ _ _ Holding Hi), ?Hop. exact Hcontent.
  - (* opening the file *)
    pose proof (Hmine eq_refl) as Hl. rewrite Hl, Hi in Hcontent.
    destruct writable; injection Hstep as <-; unfold ledger_inv; cbn [threads lock content].
    + split; [now rewrite length_insert|]. split; [|split].
      * intros j q Hj Hq. rewrite Hl. f_equal. symmetry.
        now apply (Hothers None (Writing txt) j q (or_introl eq_refl) Hj Hq).
      * intros h Hh. rewrite Hl in Hh. injection Hh as <-.
        exists (Writing txt). split; [eapply moved_self, Hi | reflexivity].
      * exists order. split; [exact Hnd|]. split.
        -- now apply (written_moved _ _ Holding (Writing txt)).
        -- rewrite Hl, (moved_self _ _ _ (Writing txt) Hi), Hop.
           split; [reflexivity|]. exists []. split; [reflexivity|].
           rewrite app_nil_r. destruct m; [reflexivity | exact Hcontent].
    + split; [now rewrite length_insert|]. split; [|split].
      * intros j q Hj Hq. rewrite Hl. f_equal. symmetry.
        now apply (Hothers None Releasing j q (or_introl eq_refl) Hj Hq).
      * intros h Hh. rewrite Hl in Hh. injection Hh as <-.
        exists Releasing. split; [eapply moved_self, Hi | reflexivity].
      * destruct (written_joined _ _ Holding Releasing order Hi eq_refl eq_refl Horder Hnd)
          as [Hnd' Horder'].
        exists (order ++ [i]). split; [exact Hnd'|]. split; [exact Horder'|].
        rewrite Hl, (moved_self _ _ _ Releasing Hi), ?Hop.
        rewrite (serial_snoc _ _ _ _ _ _ Hop). exact Hcontent.
  - (* closing the file *)
    pose proof (Hmine eq_refl) as Hl. rewrite Hl, Hi, Hop in Hcontent.
    destruct Hcontent as (-> & pre & Htxt & Hc). rewrite app_nil_r in Htxt. subst pre.
    injection Hstep as <-. unfold ledger_inv. cbn [threads lock content].
    split; [now rewrite length_insert|]. split; [|split].
    + intros j q Hj Hq. rewrite Hl. f_equal. symmetry.
      now apply (Hothers None Releasing j q (or_introl eq_refl) Hj Hq).
    + intros h Hh. rewrite Hl in Hh. injection Hh as <-.
      exists Releasing. split; [eapply moved_self, Hi | reflexivity].
    + destruct (written_joined _ _ (Writing []) Releasing order Hi eq_refl eq_refl Horder Hnd)
        as [Hnd' Horder'].
      exists (order ++ [i]). split; [exact Hnd'|]. split; [exact Horder'|].
      rewrite Hl, (moved_self _ _ _ Releasing Hi), ?Hop.
      rewrite (serial_snoc _ _ _ _ _ _ Hop). rewrite Hc.
      unfold apply_op. cbn [fst snd]. destruct m; reflexivity.
  - (* writing one character *)
    pose proof (Hmine eq_refl) as Hl. rewrite Hl, Hi, Hop in Hcontent.
    destruct Hcontent as (-> & pre & Htxt & Hc).
    injection Hstep as <-. unfold ledger_inv. cbn [threads lock content].
    split; [now rewrite length_insert|]. split; [|split].
    + intros j q Hj Hq. rewrite Hl. f_equal. symmetry.
      now apply (Hothers None (Writing todo) j q (or_introl eq_refl) Hj Hq).
    + intros h Hh. rewrite Hl in Hh. injection Hh as <-.
      exists (Writing todo). split; [eapply moved_self, Hi | reflexivity].
    + exists order. split; [exact Hnd|]. split.
      * now apply (written_moved _ _ (Writing (c :: todo)) (Writing todo)).
      * rewrite Hl, (moved_self _ _ _ (Writing todo) Hi), Hop.
        split; [reflexivity|]. exists (pre ++ [c]). split.
        -- rewrite Htxt, <- app_assoc. reflexivity.
        -- rewrite Hc, app_assoc. reflexivity.
  - (* giving the lock back *)
    pose proof (Hmine eq_refl) as Hl. rewrite Hl, Hi in Hcontent.
    injection Hstep as <-. unfold ledger_inv. cbn [threads lock content].
    split; [now rewrite length_insert|]. split; [|split].
    + intros j q Hj Hq.
      destruct (Hothers None Finished j q (or_introl eq_refl) Hj Hq) as [_ ->]. discriminate.
    + discriminate.
    + exists order. split; [exact Hnd|]. split; [|exact Hcontent].
      now apply (written_moved _ _ Releasing Finished).
  - discriminate.
Qed.

Lemma run_threads_inv (writable : bool) (ops : list file_op) (ledger : list ascii)
    (schedule : list nat) :
  forall s : Shared,
    ledger_inv writable ops ledger s ->
    ledger_inv writable ops ledger (run_threads writable ops schedule s).
Proof.
  induction schedule as [|i schedule IH]; intros s Hs; [exact Hs|].
  cbn [run_threads]. apply IH.
  destruct (step_thread writable ops i s) as [s'|] eqn:Hstep; [|exact Hs].
  eapply step_thread_inv; eassumption.
Qed.

Lemma run_threads_app (writable : bool) (ops : list file_op) (a b : list nat) (s : Shared) :
  run_threads writable ops (a ++ b) s
  = run_threads writable ops b (run_threads writable ops a s).
Proof. revert s. induction a as [|i a IH]; intros s; [reflexivity|]. cbn. apply IH. Qed.

Lemma all_finished_lookup (s : Shared) :
  all_finished s = true <->
  forall (i : nat) (p : pc), threads s !! i = Some p -> p = Finished.
Proof.
  unfold all_finished. rewrite forallb_forall. split.
  - intros H i p Hp. apply list_elem_of_lookup_2, list_elem_of_In, H in Hp.
    now destruct p.
  - intros H p Hp. apply list_elem_of_In, list_elem_of_lookup in Hp as [i Hi].
    now rewrite (H i p Hi).
Qed.

(** Mutual exclusion. *)
Lemma one_thread_at_the_file (writable : bool) (ops : list file_op) (ledger : list ascii)
    (s : Shared) (i j : nat) (p q : pc) :
  ledger_inv writable ops ledger s ->
  threads s !! i = Some p -> threads s !! j = Some q ->
  critical p = true -> critical q = true -> i = j.
Proof.
  intros (_ & Hcrit & _) Hi Hj Hp Hq.
  pose proof (Hcrit i p Hi Hp) as H1. pose proof (Hcrit j q Hj Hq) as H2. congruence.
Qed.

(** When all threads have finished, the ledger is what their calls leave
    when they are run one after the other in some order. *)
Lemma finished_serial (writable : bool) (ops : list file_op) (ledger : list ascii)
    (s : Shared) :
  ledger_inv writable ops ledger s -> all_finished s = true ->
  exists order : list nat,
    order ≡ₚ seq 0 (length ops) /\ content s = serial writable ops order ledger.
Proof.
  intros (Hlen & Hcrit & Hlock & order & Hnd & Horder & Hcontent) Hfin.
  rewrite all_finished_lookup in Hfin.
  assert (Hl : lock s = None).
  { destruct (lock s) as [h|] eqn:Hl; [|reflexivity].
    destruct (Hlock h eq_refl) as (p & Hp & Hc). rewrite (Hfin h p Hp) in Hc. discriminate. }
  rewrite Hl in Hcontent. exists order. split; [|exact Hcontent].
  apply NoDup_Permutation; [exact Hnd | apply NoDup_seq|].
  intros i. rewrite Horder, elem_of_seq, <- Hlen. split.
  - intros (p & Hp & _). apply lookup_lt_Some in Hp. lia.
  - intros [_ Hi]. destruct (lookup_lt_is_Some_2 (threads s) i Hi) as [p Hp].
    exists p. split; [exact Hp|]. now rewrite (Hfin i p Hp).
Qed.

Lemma sum_list_insert (l : list nat) :
  forall (i x y : nat), l !! i = Some x -> sum_list (<[i := y]> l) + x = sum_list l + y.
Proof.
  induction l as [|z l IH]; intros i x y Hi; [discriminate|].
  destruct i as [|i]; simpl in *.
  - injection Hi as ->. unfold sum_list. lia.
  - specialize (IH i x y Hi). unfold sum_list in *. lia.
Qed.

(** Every step brings the end nearer. *)
Lemma step_thread_decreases (writable : bool) (ops : list file_op) (i : nat) (s s' : Shared) :
  step_thread writable ops i s = Some s' ->
  steps_left_all ops s' < steps_left_all ops s.
Proof.
  unfold step_thread, steps_left_all. intros Hstep.
  destruct (threads s !! i) as [p|] eqn:Hi; [|discriminate].
  destruct (ops !! i) as [op|] eqn:Hop; [|destruct p as [| |[|]| |]; discriminate].
  assert (Hz : zip_with steps_left ops (threads s) !! i = Some (steps_left op p)).
  { apply lookup_zip_with_Some. exists op, p. repeat split; assumption. }
  assert (Hmove : forall p' : pc,
             steps_left op p' < steps_left op p ->
             sum_list (zip_with steps_left ops (<[i := p']> (threads s)))
             < sum_list (zip_with steps_left ops (threads s))).
  { intros p' Hlt.
    rewrite <- (list_insert_id ops i op Hop) at 1. rewrite <- insert_zip_with.
    pose proof (sum_list_insert _ i _ (steps_left op p') Hz). lia. }
  destruct op as [m txt].
  destruct p as [| |[|c todo]| |]; cbn [threads].
  - destruct (lock s); [discriminate|]. injection Hstep as <-. apply Hmove. simpl. lia.
  - destruct writable; injection Hstep as <-; apply Hmove; simpl; lia.
  - injection Hstep as <-. apply Hmove. simpl. lia.
  - injection Hstep as <-. apply Hmove. simpl. lia.
  - injection Hstep as <-. apply Hmove. simpl. lia.
  - discriminate.
Qed.

Lemma forallb_false_lookup {A : Type} (f : A -> bool) (l : list A) :
  forallb f l = false -> exists (i : nat) (x : A), l !! i = Some x /\ f x = false.
Proof.
  induction l as [|y l IH]; [discriminate|]. cbn [forallb].
  destruct (f y) eqn:Hy.
  - intros H. destruct (IH H) as (i & x & Hi & Hx). exists (S i), x. split; assumption.
  - intros _. exists 0, y. split; [reflexivity | exact Hy].
Qed.

(** As long as a thread has not finished, some thread can step. *)
Lemma some_thread_steps (writable : bool) (ops : list file_op) (ledger : list ascii)
    (s : Shared) :
  ledger_inv writable ops ledger s -> all_finished s = false ->
  exists (i : nat) (s' : Shared), step_thread writable ops i s = Some s'.
Proof.
  intros (Hlen & Hcrit & Hlock & _) Hfin.
  destruct (lock s) as [h|] eqn:Hl.
  - destruct (Hlock h eq_refl) as (p & Hp & Hc).
    assert (Hh : h < length ops) by (rewrite <- Hlen; eapply lookup_lt_Some, Hp).
    destruct (lookup_lt_is_Some_2 ops h Hh) as [op Hop].
    exists h. unfold step_thread. rewrite Hp, Hop. destruct op as [m txt].
    destruct p as [| |[|c todo]| |]; try discriminate; try (eexists; reflexivity).
    destruct writable; eexists; reflexivity.
  - assert (Hex : exists (i : nat) (p : pc), threads s !! i = Some p /\ p <> Finished).
    { apply forallb_false_lookup in Hfin as (i & p & Hp & Hf).
      exists i, p. split; [exact Hp|]. intros ->. discriminate. }
    destruct Hex as (i & p & Hp & Hne).
    assert (Hi : i < length ops) by (rewrite <- Hlen; eapply lookup_lt_Some, Hp).
    destruct (lookup_lt_is_Some_2 ops i Hi) as [op Hop].
    assert (Hstart : p = Start).
    { destruct p; try reflexivity; try congruence;
        pose proof (Hcrit i _ Hp eq_refl); congruence. }
    subst p. exists i. unfold step_thread. rewrite Hp, Hop, Hl. eexists. reflexivity.
Qed.

(** Every run can be brought to its end: no thread waits for ever. *)
Lemma run_can_finish (writable : bool) (ops : list file_op) (ledger : list ascii) :
  forall (n : nat) (s : Shared),
    steps_left_all ops s <= n ->
    ledger_inv writable ops ledger s ->
    exists more : list nat, all_finished (run_threads writable ops more s) = true.
Proof.
  induction n as [|n IH]; intros s Hn Hs.
  - destruct (all_finished s) eqn:Hfin; [exists []; exact Hfin|].
    destruct (some_thread_steps _ _ _ _ Hs Hfin) as (i & s' & Hstep).
    apply step_thread_decreases in Hstep. lia.
  - destruct (all_finished s) eqn:Hfin; [exists []; exact Hfin|].
    destruct (some_thread_steps _ _ _ _ Hs Hfin) as (i & s' & Hstep).
    destruct (IH s') as [more Hmore].
    + apply step_thread_decreases in Hstep. lia.
    + eapply step_thread_inv; eassumption.
    + exists (i :: more). cbn [run_threads]. rewrite Hstep. exact Hmore.
Qed.

Lemma chars_app (a b : string) : chars (a +:+ b) = chars a ++ chars b.
Proof.
  induction a as [|c a IH]; [reflexivity|].
  change (c :: chars (a +:+ b) = c :: (chars a ++ chars b)). now rewrite IH.
Qed.

Lemma serial_saves (lines : list string) :
  forall ledger : list ascii,
    fold_left (apply_op true) (map real_time_save_op lines) ledger
    = ledger ++ chars (unlines lines).
Proof.
  induction lines as [|l lines IH]; intros ledger.
  - cbn. now rewrite app_nil_r.
  - cbn [map fold_left]. rewrite IH. unfold apply_op, real_time_save_op. cbn [fst snd].
    cbn [unlines fold_right]. fold (unlines lines).
    rewrite <- app_assoc, <- chars_app, app_assoc_str. reflexivity.
Qed.

Lemma ops_of_saves (infos : list string) (order : list nat) :
  ops_of (map real_time_save_op infos) order
  = map real_time_save_op (omap (fun i => infos !! i) order).
Proof.
  unfold ops_of. induction order as [|i order IH]; [reflexivity|].
  cbn [omap list_omap]. fold (omap (fun i => map real_time_save_op infos !! i) order).
  fold (omap (fun i => infos !! i) order).
  change (map real_time_save_op infos !! i) with ((real_time_save_op <$> infos) !! i).
  rewrite list_lookup_fmap, IH. destruct (infos !! i); reflexivity.
Qed.

(** C4: threads that save working servers at the same time are never
    two at the file; when all of them have finished the ledger has, after
    what it held before, the lines of all of them, whole, each once, in
    some order; and the threads can always finish. The same holds with
    the call that writes the header among them: the ledger is then what
    the calls leave when run one after the other in some order. *)
Theorem concurrent_saves_are_whole_lines (infos : list string) (ledger : list ascii)
    (schedule : list nat) :
  let ops := map real_time_save_op infos in
  let s := run_threads true ops schedule (start_state ops ledger) in
  (forall (i j : nat) (p q : pc),
      threads s !! i = Some p -> threads s !! j = Some q ->
      critical p = true -> critical q = true -> i = j)
  /\ (all_finished s = true ->
      exists order : list string,
        order ≡ₚ infos /\ content s = ledger ++ chars (unlines order))
  /\ (exists more : list nat, all_finished (run_threads true ops more s) = true)
  /\ (forall (timestamp domain : string) (others : list nat),
        let ops' := write_header_op timestamp domain :: ops in
        let s' := run_threads true ops' others (start_state ops' ledger) in
        all_finished s' = true ->
        exists order : list nat,
          order ≡ₚ seq 0 (length ops') /\ content s' = serial true ops' order ledger).
Proof.
  cbv zeta.
  pose proof (run_threads_inv true (map real_time_save_op infos) ledger schedule _
                (start_state_inv true _ ledger)) as Hinv.
  split; [|split; [|split]].
  - intros i j p q. eapply one_thread_at_the_file, Hinv.
  - intros Hfin. destruct (finished_serial _ _ _ _ Hinv Hfin) as (order & Hperm & Hc).
    exists (omap (fun i => infos !! i) order). split.
    + rewrite Hperm, length_map. now rewrite omap_lookup_seq.
    + rewrite Hc. unfold serial. rewrite ops_of_saves. apply serial_saves.
  - eapply run_can_finish; [reflexivity | exact Hinv].
  - intros timestamp domain others Hfin.
    eapply finished_serial; [|exact Hfin].
    apply run_threads_inv, start_state_inv.
Qed.

Lemma concurrent_saves_are_whole_lines_witness :
  let ledger := chars (unlines (header_lines "2024-01-01 12:00:00" "example.com")) in
  let s := run_threads true (map real_time_save_op two_saves) taking_turns
             (start_state (map real_time_save_op two_saves) ledger) in
  content s = ledger ++ chars (unlines two_saves)
  /\ exists order : list string,
       order ≡ₚ two_saves /\ content s = ledger ++ chars (unlines order).
Proof.
  cbv zeta. split; [vm_compute; reflexivity|].
  destruct (concurrent_saves_are_whole_lines two_saves
              (chars (unlines (header_lines "2024-01-01 12:00:00" "example.com")))
              taking_turns) as (_ & Hfin & _).
  apply Hfin. vm_compute. reflexivity.
Defined.

(** ** What the pattern extracts *)

Lemma passes_over_one (f : ascii -> bool) :
  passes_over (one f) (fun ds => exists c : ascii, ds = [c] /\ f c = true).
Proof.
  intros [prev cs] p Hp. unfold one in Hp. cbn [snd] in Hp.
  destruct cs as [|c cs]; [inversion Hp|].
  destruct (f c) eqn:Hf; [|inversion Hp].
  apply list_elem_of_singleton in Hp as ->. exists [c]. split; [reflexivity|].
  exists c. split; [reflexivity | exact Hf].
Qed.

Lemma passes_over_cat (r1 r2 : pattern) (P1 P2 : list ascii -> Prop) :
  passes_over r1 P1 -> passes_over r2 P2 ->
  passes_over (cat r1 r2)
    (fun ds => exists a b : list ascii, ds = a ++ b /\ P1 a /\ P2 b).
Proof.
  intros H1 H2 pos p Hp. unfold cat in Hp.
  apply list_elem_of_bind in Hp as (q & Hp & Hq).
  destruct (H1 pos q Hq) as (a & Ha & HPa). destruct (H2 q p Hp) as (b & Hb & HPb).
  exists (a ++ b). split; [rewrite Ha, Hb; apply app_assoc|].
  exists a, b. repeat split; assumption.
Qed.

Lemma passes_over_alt (r1 r2 : pattern) (P1 P2 : list ascii -> Prop) :
  passes_over r1 P1 -> passes_over r2 P2 ->
  passes_over (alt r1 r2) (fun ds => P1 ds \/ P2 ds).
Proof.
  intros H1 H2 pos p Hp. unfold alt in Hp. apply elem_of_app in Hp as [Hp|Hp].
  - destruct (H1 pos p Hp) as (ds & Hds & HP). exists ds. auto.
  - destruct (H2 pos p Hp) as (ds & Hds & HP). exists ds. auto.
Qed.

Lemma passes_over_opt (r : pattern) (P : list ascii -> Prop) :
  passes_over r P -> passes_over (opt r) (fun ds => P ds \/ ds = []).
Proof.
  intros H pos p Hp. unfold opt in Hp. apply elem_of_app in Hp as [Hp|Hp].
  - destruct (H pos p Hp) as (ds & Hds & HP). exists ds. auto.
  - apply list_elem_of_singleton in Hp as ->. exists []. auto.
Qed.

Lemma passes_over_boundary : passes_over word_boundary (fun ds => ds = []).
Proof.
  intros pos p Hp. unfold word_boundary in Hp.
  destruct (xorb _ _); [|inversion Hp].
  apply list_elem_of_singleton in Hp as ->. exists []. auto.
Qed.

Lemma passes_over_weaken (r : pattern) (P Q : list ascii -> Prop) :
  (forall ds : list ascii, P ds -> Q ds) -> passes_over r P -> passes_over r Q.
Proof.
  intros HPQ H pos p Hp. destruct (H pos p Hp) as (ds & Hds & HP). exists ds. auto.
Qed.

Lemma in_range_code (lo hi : nat) (c : ascii) :
  in_range lo hi c = true <-> (lo <= code c <= hi)%nat.
Proof.
  unfold in_range. rewrite andb_true_iff, !Nat.leb_le. reflexivity.
Qed.

Lemma chr_code (c x : ascii) : Ascii.eqb c x = true -> code x = code c.
Proof. intros H. apply Ascii.eqb_eq in H. now subst. Qed.

Lemma part_ok_codes (ds : list ascii) :
  (1 <= length ds <= 3)%nat ->
  Forall (fun c => (48 <= code c <= 57)%nat) ds ->
  (digits_value ds <= 255)%Z ->
  part_ok ds = true.
Proof.
  intros Hlen Hall Hval. unfold part_ok. rewrite !andb_true_iff. repeat split.
  - apply negb_true_iff, Nat.eqb_neq. lia.
  - apply Nat.leb_le. lia.
  - apply forallb_forall. intros c Hc. rewrite Forall_forall in Hall.
    apply in_range_code, Hall, list_elem_of_In, Hc.
  - apply Z.leb_le, Hval.
Qed.

(** Whatever [octet] matches is one number of a dotted quad. *)
Lemma octet_part : passes_over octet (fun ds => part_ok ds = true).
Proof.
  unfold octet.
  eapply passes_over_weaken;
    [| apply passes_over_alt;
       [ apply passes_over_cat; [apply passes_over_one | apply passes_over_cat; apply passes_over_one]
       | apply passes_over_alt;
         [ apply passes_over_cat; [apply passes_over_one | apply passes_over_cat; apply passes_over_one]
         | apply passes_over_cat;
           [ apply passes_over_opt, passes_over_one
           | apply passes_over_cat; [apply passes_over_one | apply passes_over_opt, passes_over_one]]]]].
  cbv beta. intros ds H.
  destruct H as [H | [H | H]].
  - destruct H as (a & b & -> & (x & -> & Hx) & (b1 & b2 & -> & (y & -> & Hy) & (z & -> & Hz))).
    apply chr_code in Hx, Hy. apply in_range_code in Hz.
    change (code "2") with 50%nat in Hx. change (code "5") with 53%nat in Hy.
    apply part_ok_codes; [simpl; lia | | ].
    + cbn [app]. repeat first [apply Forall_nil_2 | apply Forall_cons_2]; lia.
    + unfold digits_value, digit_value. cbn [app fold_left]. lia.
  - destruct H as (a & b & -> & (x & -> & Hx) & (b1 & b2 & -> & (y & -> & Hy) & (z & -> & Hz))).
    apply chr_code in Hx. apply in_range_code in Hy, Hz.
    change (code "2") with 50%nat in Hx.
    apply part_ok_codes; [simpl; lia | | ].
    + cbn [app]. repeat first [apply Forall_nil_2 | apply Forall_cons_2]; lia.
    + unfold digits_value, digit_value. cbn [app fold_left]. lia.
  - destruct H as (a & b & -> & Ha & (b1 & b2 & -> & (y & -> & Hy) & Hb2)).
    apply in_range_code in Hy.
    destruct Ha as [(x & -> & Hx) | ->]; destruct Hb2 as [(z & -> & Hz) | ->];
      try apply in_range_code in Hx; try apply in_range_code in Hz;
      (apply part_ok_codes;
       [ simpl; lia
       | cbn [app]; repeat first [apply Forall_nil_2 | apply Forall_cons_2]; lia
       | unfold digits_value, digit_value; cbn [app fold_left]; lia ]).
Qed.

Lemma octet_dot_part :
  passes_over octet_dot
    (fun ds => exists o : list ascii, ds = o ++ ["."%char] /\ part_ok o = true).
Proof.
  unfold octet_dot, chr.
  eapply passes_over_weaken;
    [| apply passes_over_cat; [apply octet_part | apply passes_over_one]].
  cbv beta. intros ds (a & b & -> & Ha & (c & -> & Hc)).
  apply Ascii.eqb_eq in Hc as <-. exists a. split; [reflexivity | exact Ha].
Qed.

(** Whatever the whole pattern matches is four numbers with dots between. *)
Lemma ip_pattern_quad : passes_over ip_pattern quad_text.
Proof.
  unfold ip_pattern.
  eapply passes_over_weaken;
    [| apply passes_over_cat; [apply passes_over_boundary|];
       apply passes_over_cat; [apply octet_dot_part|];
       apply passes_over_cat; [apply octet_dot_part|];
       apply passes_over_cat; [apply octet_dot_part|];
       apply passes_over_cat; [apply octet_part | apply passes_over_boundary]].
  cbv beta.
  intros ds (a0 & r0 & -> & -> & (a1 & r1 & -> & (o1 & -> & H1)
            & (a2 & r2 & -> & (o2 & -> & H2)
            & (a3 & r3 & -> & (o3 & -> & H3) & (o4 & e & -> & H4 & ->))))).
  exists o1, o2, o3, o4. split; [|repeat split; assumption].
  cbn [app]. rewrite <- !app_assoc, app_nil_r. reflexivity.
Qed.

Lemma match_at_quad (prev : option ascii) (cs m : list ascii) :
  match_at (prev, cs) = Some m ->
  quad_text m /\ exists rest : list ascii, cs = m ++ rest.
Proof.
  unfold match_at. cbn [snd].
  destruct (ip_pattern (prev, cs)) as [|[q rest] l] eqn:Hm; [discriminate|].
  intros [= <-].
  destruct (ip_pattern_quad (prev, cs) (q, rest)) as (ds & Hds & Hquad).
  { rewrite Hm. left. }
  cbn [snd] in Hds. subst cs.
  rewrite length_app, Nat.add_sub, take_app_length.
  split; [exact Hquad | exists rest; reflexivity].
Qed.

Lemma chars_text (cs : list ascii) : chars (text cs) = cs.
Proof. apply list_ascii_of_string_of_list_ascii. Qed.

Lemma text_chars (s : string) : text (chars s) = s.
Proof. apply string_of_list_ascii_of_string. Qed.

Lemma text_app (a b : list ascii) : text (a ++ b) = text a +:+ text b.
Proof.
  induction a as [|c a IH]; [reflexivity|].
  change (String c (text (a ++ b)) = String c (text a +:+ text b)). now rewrite IH.
Qed.

(** The scan yields matches only, each a piece of the text scanned. *)
Lemma scan_quads (cs : list ascii) :
  forall (prev : option ascii) (skip : nat),
    Forall (fun s => quad_text (chars s)
                     /\ exists pre post : list ascii, cs = pre ++ chars s ++ post)
           (scan prev cs skip).
Proof.
  induction cs as [|c cs IH]; intros prev skip; [constructor|].
  assert (Hlater : forall (p : option ascii) (k : nat),
             Forall (fun s => quad_text (chars s)
                              /\ exists pre post : list ascii,
                                   c :: cs = pre ++ chars s ++ post)
                    (scan p cs k)).
  { intros p k. eapply Forall_impl; [apply (IH p k)|].
    intros s (Hq & pre & post & ->). split; [exact Hq|].
    exists (c :: pre), post. reflexivity. }
  cbn [scan]. destruct skip as [|k]; [|apply Hlater].
  destruct (match_at (prev, c :: cs)) as [m|] eqn:Hm; [|apply Hlater].
  apply match_at_quad in Hm as (Hq & rest & Hrest).
  constructor; [|apply Hlater].
  rewrite chars_text. split; [exact Hq|]. exists [], rest. exact Hrest.
Qed.

Lemma part_ok_no_dot (o : list ascii) : part_ok o = true -> forallb is_digit o = true.
Proof. unfold part_ok. rewrite !andb_true_iff. tauto. Qed.

Lemma split_dots_digits (o : list ascii) :
  forallb is_digit o = true ->
  forall (rest acc : list ascii),
    split_dots (o ++ "."%char :: rest) acc = (acc ++ o) :: split_dots rest []
    /\ split_dots o acc = [acc ++ o].
Proof.
  induction o as [|c o IH]; intros Hall rest acc.
  - cbn. rewrite app_nil_r. auto.
  - cbn [forallb] in Hall. apply andb_prop in Hall as [Hc Ho].
    assert (Hdot : Ascii.eqb c "." = false).
    { apply Ascii.eqb_neq. intros ->. discriminate. }
    cbn [app split_dots]. rewrite Hdot.
    destruct (IH Ho rest (acc ++ [c])) as [H1 H2].
    rewrite H1, H2, <- app_assoc. auto.
Qed.

Lemma quad_text_dotted (ds : list ascii) : quad_text ds -> dotted_quad (text ds) = true.
Proof.
  intros (o1 & o2 & o3 & o4 & -> & H1 & H2 & H3 & H4).
  unfold dotted_quad. rewrite chars_text.
  destruct (split_dots_digits o1 (part_ok_no_dot _ H1)
              (o2 ++ "."%char :: o3 ++ "."%char :: o4) []) as [-> _].
  destruct (split_dots_digits o2 (part_ok_no_dot _ H2) (o3 ++ "."%char :: o4) []) as [-> _].
  destruct (split_dots_digits o3 (part_ok_no_dot _ H3) o4 []) as [-> _].
  destruct (split_dots_digits o4 (part_ok_no_dot _ H4) [] []) as [_ ->].
  cbn [app length Nat.eqb andb forallb]. fold (part_ok o1) (part_ok o2) (part_ok o3) (part_ok o4).
  now rewrite H1, H2, H3, H4.
Qed.

(** X1: every address that the pattern of [load_servers] extracts is a
    dotted quad, four numbers of one to three digits and at most 255, and
    stands in the text it was extracted from. *)
Theorem findall_dotted_quads (content : string) :
  Forall (fun s => dotted_quad s = true
                   /\ exists pre post : string, content = pre +:+ s +:+ post)
         (findall content).
Proof.
  unfold findall. eapply Forall_impl; [apply (scan_quads (chars content) None 0)|].
  intros s (Hq & pre & post & Hcs). split.
  - rewrite <- (text_chars s). now apply quad_text_dotted.
  - exists (text pre), (text post).
    rewrite <- (text_chars content), Hcs. rewrite <- (text_chars s) at 2.
    now rewrite !text_app.
Qed.

(** ** What [load_servers] can return *)

(** A property of the empty list and of every set of extracted addresses
    holds of whatever [load_servers] returns. *)
Lemma load_servers_body_returns (P : list string -> Prop) (again : M (list string))
    (filename : string) :
  P [] ->
  (forall content : string, P (elements (list_to_set (findall content) : gset string))) ->
  (forall (w : World) (r : list string), fst (again w) = Ret r -> P r) ->
  forall (w : World) (r : list string),
    fst (load_servers_body again filename w) = Ret r -> P r.
Proof.
  intros Hnil Hset Hagain w r. unfold load_servers_body, try_except, script_path.
  rewrite bind_eval.
  assert (Hhandler : forall (e : exn) (w1 : World),
             fst (match (if isinstance e FileNotFoundError
                         then Some (print (filename +:+ " not found. Creating sample file...");;
                                    create_sample_servers filename;; again)
                         else if isinstance e Exception
                              then Some (print ("Error loading servers: " +:+ exn_str e);;
                                         mret [])
                              else None) with
                  | Some h => h w1
                  | None => (Raise e, w1)
                  end) = Ret r -> P r).
  { intros e w1. destruct (isinstance e FileNotFoundError).
    - repeat (rewrite bind_eval; cbn [print]).
      destruct (create_sample_servers filename _) as [[[]|e'] w4]; [|discriminate].
      apply Hagain.
    - destruct (isinstance e Exception); [|discriminate].
      cbn. intros [= <-]. exact Hnil. }
  destruct (read_file filename w) as [[content|e] w1]; [|apply Hhandler].
  repeat (rewrite bind_eval; cbn [print]).
  destruct (elements (list_to_set (findall content) : gset string)) as [|s l] eqn:He.
  - repeat (rewrite bind_eval; cbn [print]).
    destruct (create_sample_servers filename _) as [[[]|e] w2]; [|apply Hhandler].
    destruct (again w2) as [[r'|e] w3] eqn:Ha; [|apply Hhandler].
    cbn. intros [= <-]. apply (Hagain w2). now rewrite Ha.
  - cbn. intros [= <-]. rewrite <- He. apply Hset.
Qed.

Lemma load_servers_returns (P : list string -> Prop) (filename : string) :
  P [] ->
  (forall content : string, P (elements (list_to_set (findall content) : gset string))) ->
  forall (w : World) (r : list string), fst (load_servers filename w) = Ret r -> P r.
Proof.
  intros Hnil Hset. unfold load_servers. generalize recursion_limit. intros depth.
  induction depth as [|depth IH]; intros w r.
  - discriminate.
  - cbn [load_servers_within]. now apply load_servers_body_returns.
Qed.

(** X2: the candidates [load_servers] returns are dotted quads, and none
    of them comes twice. *)
Theorem load_servers_gives_distinct_quads (filename : string) (w : World)
    (servers : list string) :
  fst (load_servers filename w) = Ret servers ->
  NoDup servers /\ Forall (fun s => dotted_quad s = true) servers.
Proof.
  apply (load_servers_returns
           (fun r => NoDup r /\ Forall (fun s => dotted_quad s = true) r)).
  - split; constructor.
  - intros content. split; [apply NoDup_elements|].
    apply Forall_forall. intros s Hs.
    apply elem_of_elements, elem_of_list_to_set in Hs.
    pose proof (scan_quads (chars content) None 0) as Hall.
    rewrite Forall_forall in Hall. destruct (Hall s Hs) as [Hq _].
    rewrite <- (text_chars s). now apply quad_text_dotted.
Qed.

Lemma load_servers_gives_distinct_quads_witness :
  NoDup ["1.1.1.1"; "8.8.8.8"]
  /\ Forall (fun s => dotted_quad s = true) ["1.1.1.1"; "8.8.8.8"].
Proof.
  apply (load_servers_gives_distinct_quads "dns_servers.txt"
           (world_with_candidates "a=1.1.1.1; b=8.8.8.8, c=1.1.1.1 d=999.1.1.1")).
  vm_compute. reflexivity.
Defined.

(** X3: [create_sample_servers] never raises, leaves every other file
    alone and a file that exists as it is; a file that is missing is
    written with the sample servers, one to a line, unless it cannot be
    written, and then nothing changes but the console. *)
Theorem create_sample_servers_effect (filename : string) (w : World) :
  exists w' : World,
    create_sample_servers filename w = (Ret tt, w')
    /\ (forall p : string, p <> filename -> files w' !! p = files w !! p)
    /\ (is_Some (files w !! filename) -> w' = w)
    /\ (files w !! filename = None -> filename ∉ write_denied w ->
        files w' !! filename = Some (unlines sample_servers)
        /\ findall (unlines sample_servers) = sample_servers)
    /\ (filename ∈ write_denied w -> files w' = files w).
Proof.
  unfold create_sample_servers, script_path. rewrite bind_eval. unfold path_exists.
  destruct (files w !! filename) as [c|] eqn:Hf.
  - rewrite bool_decide_eq_true_2 by (eexists; reflexivity).
    exists w. split; [reflexivity|]. split; [reflexivity|]. split; [reflexivity|].
    split; [discriminate | reflexivity].
  - rewrite bool_decide_eq_false_2 by (intros [x Hx]; discriminate).
    unfold try_except. rewrite bind_eval. unfold write_file.
    destruct (decide (filename ∈ write_denied w)) as [Hno|Hok].
    + rewrite bool_decide_eq_true_2 by exact Hno.
      unfold catch_all. rewrite isinstance_Exception. cbn [print].
      eexists. split; [reflexivity|]. cbn [files with_console].
      split; [reflexivity|]. split; [intros [x Hx]; discriminate|].
      split; [intros _ Hok; contradiction | reflexivity].
    + rewrite bool_decide_eq_false_2 by exact Hok. cbn [print].
      eexists. split; [reflexivity|]. cbn [files with_console with_files].
      split; [intros p Hp; now apply lookup_insert_ne|].
      split; [intros [x Hx]; discriminate|].
      split; [|intros Hno; contradiction].
      intros _ _. split; [apply lookup_insert_eq | apply findall_sample].
Qed.

Lemma create_sample_servers_effect_witness :
  exists w' : World,
    create_sample_servers "dns_servers.txt" empty_world = (Ret tt, w')
    /\ files w' !! "dns_servers.txt" = Some (unlines sample_servers).
Proof.
  destruct (create_sample_servers_effect "dns_servers.txt" empty_world)
    as (w' & Hrun & _ & _ & Hnew & _).
  exists w'. split; [exact Hrun|].
  apply Hnew; [reflexivity | vm_compute; set_solver].
Defined.

Lemma elements_nonempty (l : list string) :
  l <> [] -> elements (list_to_set l : gset string) <> [].
Proof.
  destruct l as [|x l]; [congruence|]. intros _ He.
  assert (Hx : x ∈ elements (list_to_set (x :: l) : gset string)).
  { apply elem_of_elements, elem_of_list_to_set. left. }
  rewrite He in Hx. inversion Hx.
Qed.

(** X4: from a file that can be read and holds an address [load_servers]
    returns the extracted addresses, each once, and changes nothing but
    the console. *)
Theorem load_servers_reads_addresses (filename content : string) (w : World) :
  files w !! filename = Some content -> filename ∉ read_denied w ->
  findall content <> [] ->
  exists (servers lines : list string),
    load_servers filename w = (Ret servers, printed lines w)
    /\ NoDup servers
    /\ forall s : string, s ∈ servers <-> s ∈ findall content.
Proof.
  intros Hf Hr Hne. unfold load_servers, recursion_limit.
  change (load_servers_within 1000 filename)
    with (load_servers_body (load_servers_within 999 filename) filename).
  unfold load_servers_body, try_except, script_path.
  rewrite bind_eval, (read_file_ok _ _ _ Hf Hr).
  pose proof (elements_nonempty _ Hne) as Hel.
  assert (Hnd : NoDup (elements (list_to_set (findall content) : gset string)))
    by apply NoDup_elements.
  assert (Hin : forall s : string,
             s ∈ elements (list_to_set (findall content) : gset string)
             <-> s ∈ findall content).
  { intros s. now rewrite elem_of_elements, elem_of_list_to_set. }
  destruct (elements (list_to_set (findall content) : gset string)) as [|s l];
    [congruence|].
  repeat (rewrite bind_eval, print_printed, ?printed_printed).
  eexists _, _. split; [reflexivity|]. split; assumption.
Qed.

Lemma load_servers_reads_addresses_witness :
  exists (servers lines : list string),
    load_servers "dns_servers.txt" (world_with_candidates "ns1 = 9.9.9.9 (Quad9), 9.9.9.9:53")
    = (Ret servers,
       printed lines (world_with_candidates "ns1 = 9.9.9.9 (Quad9), 9.9.9.9:53"))
    /\ NoDup servers
    /\ forall s : string, s ∈ servers <-> s ∈ ["9.9.9.9"; "9.9.9.9"].
Proof.
  apply (load_servers_reads_addresses "dns_servers.txt" "ns1 = 9.9.9.9 (Quad9), 9.9.9.9:53"
           (world_with_candidates "ns1 = 9.9.9.9 (Quad9), 9.9.9.9:53")).
  - apply lookup_insert_eq.
  - vm_compute. set_solver.
  - vm_compute. discriminate.
Defined.

(** X5: when there is no file and it can be written, [load_servers]
    writes the sample file and returns the sample servers. *)
Theorem load_servers_first_run (filename : string) (w : World) :
  files w !! filename = None ->
  filename ∉ write_denied w -> filename ∉ read_denied w ->
  exists (servers : list string) (w' : World),
    load_servers filename w = (Ret servers, w')
    /\ servers ≡ₚ sample_servers
    /\ files w' = <[filename := unlines sample_servers]> (files w).
Proof.
  intros Hf Hw Hr. unfold load_servers, recursion_limit.
  change (load_servers_within 1000 filename)
    with (load_servers_body (load_servers_body (load_servers_within 998 filename) filename)
                            filename).
  unfold load_servers_body at 1. unfold try_except at 1. unfold script_path.
  rewrite bind_eval, (read_file_missing _ _ Hf).
  cbn [isinstance issubclass subclass_upto exn_cls base_class].
  rewrite bool_decide_eq_true_2 by reflexivity. cbn [orb].
  repeat (rewrite bind_eval; cbn [print]).
  unfold create_sample_servers at 1. unfold script_path.
  rewrite bind_eval. unfold path_exists at 1. cbn [files with_console].
  rewrite Hf. rewrite bool_decide_eq_false_2 by (intros [x Hx]; discriminate).
  unfold try_except at 1. rewrite bind_eval. unfold write_file at 1.
  cbn [write_denied with_console]. rewrite bool_decide_eq_false_2 by exact Hw.
  cbn [print].
  unfold load_servers_body, try_except. unfold script_path.
  rewrite bind_eval.
  erewrite read_file_ok;
    [| cbn [files with_files with_console]; apply lookup_insert_eq
     | cbn [read_denied with_files with_console]; exact Hr].
  rewrite findall_sample.
  pose proof elements_sample as Hperm.
  destruct (elements (list_to_set sample_servers : gset string)) as [|s l] eqn:He.
  - apply Permutation_nil in Hperm. discriminate.
  - repeat (rewrite bind_eval; cbn [print]).
    eexists _, _. split; [reflexivity|]. split; [exact Hperm | reflexivity].
Qed.

Lemma load_servers_first_run_witness :
  exists (servers : list string) (w' : World),
    load_servers "dns_servers.txt" empty_world = (Ret servers, w')
    /\ servers ≡ₚ sample_servers
    /\ files w' = <["dns_servers.txt" := unlines sample_servers]> (files empty_world).
Proof.
  apply (load_servers_first_run "dns_servers.txt" empty_world).
  - reflexivity.
  - vm_compute. set_solver.
  - vm_compute. set_solver.
Defined.

Lemma create_sample_servers_denied (filename : string) (w : World) :
  files w !! filename = None -> filename ∈ write_denied w ->
  exists lines : list string,
    create_sample_servers filename w = (Ret tt, printed lines w).
Proof.
  intros Hf Hno. unfold create_sample_servers, script_path. rewrite bind_eval.
  unfold path_exists. rewrite Hf.
  rewrite bool_decide_eq_false_2 by (intros [x Hx]; discriminate).
  unfold try_except. rewrite bind_eval. unfold write_file.
  rewrite bool_decide_eq_true_2 by exact Hno.
  unfold catch_all. rewrite isinstance_Exception, print_printed.
  eexists. reflexivity.
Qed.

Lemma load_servers_within_cannot_create (filename : string) (depth : nat) :
  forall w : World,
    files w !! filename = None -> filename ∈ write_denied w ->
    exists lines : list string,
      load_servers_within depth filename w
      = (Raise (Exn RecursionError "maximum recursion depth exceeded"), printed lines w).
Proof.
  induction depth as [|depth IH]; intros w Hf Hno.
  - exists []. now rewrite printed_nil.
  - cbn [load_servers_within]. unfold load_servers_body, try_except, script_path.
    rewrite bind_eval, (read_file_missing _ _ Hf).
    cbn [isinstance issubclass subclass_upto exn_cls base_class].
    rewrite bool_decide_eq_true_2 by reflexivity. cbn [orb].
    rewrite bind_eval, print_printed, bind_eval.
    destruct (create_sample_servers_denied filename (printed [filename +:+ " not found. Creating sample file..."] w) Hf Hno)
      as (l1 & ->).
    rewrite printed_printed.
    destruct (IH (printed ([filename +:+ " not found. Creating sample file..."] ++ l1) w) Hf Hno)
      as (l2 & ->).
    rewrite printed_printed. eexists. reflexivity.
Qed.

(** X6: when there is no file and none can be written, [load_servers]
    does not return: it calls itself until the interpreter raises
    [RecursionError], which no clause takes; only the console changes. *)
Theorem load_servers_cannot_create (filename : string) (w : World) :
  files w !! filename = None -> filename ∈ write_denied w ->
  exists lines : list string,
    load_servers filename w
    = (Raise (Exn RecursionError "maximum recursion depth exceeded"), printed lines w).
Proof. apply load_servers_within_cannot_create. Qed.

Lemma load_servers_cannot_create_witness :
  exists lines : list string,
    load_servers "dns_servers.txt"
      {| files := ∅; read_denied := ∅; write_denied := {[ "dns_servers.txt" ]};
         stdin := []; console := []; queries := [] |}
    = (Raise (Exn RecursionError "maximum recursion depth exceeded"),
       printed lines
         {| files := ∅; read_denied := ∅; write_denied := {[ "dns_servers.txt" ]};
            stdin := []; console := []; queries := [] |}).
Proof.
  apply load_servers_cannot_create.
  - reflexivity.
  - cbn. set_solver.
Defined.

(** X7: a file that is there but cannot be read gives the empty list and
    one line about the error; nothing is raised. *)
Theorem load_servers_unreadable (filename content : string) (w : World) :
  files w !! filename = Some content -> filename ∈ read_denied w ->
  load_servers filename w
  = (Ret [],
     printed ["Error loading servers: "
              +:+ errno_text "13" "Permission denied" filename] w).
Proof.
  intros Hf Hno. unfold load_servers, recursion_limit.
  change (load_servers_within 1000 filename)
    with (load_servers_body (load_servers_within 999 filename) filename).
  unfold load_servers_body, try_except, script_path.
  rewrite bind_eval. unfold read_file. rewrite Hf.
  rewrite bool_decide_eq_true_2 by exact Hno. reflexivity.
Qed.

Lemma load_servers_unreadable_witness :
  load_servers "dns_servers.txt" unreadable_world
  = (Ret [],
     printed ["Error loading servers: [Errno 13] Permission denied: 'dns_servers.txt'"]
       unreadable_world).
Proof.
  apply (load_servers_unreadable "dns_servers.txt" "1.1.1.1" unreadable_world).
  - vm_compute. reflexivity.
  - vm_compute. set_solver.
Defined.

(** ** The questions for the two numbers *)

Lemma while_true_number (lo hi dflt : Z) (body : M (option Z)) :
  (forall (w : World) (line : string) (rest : list string),
      stdin w = line :: rest ->
      exists w' : World,
        body w = (Ret (number_answer lo hi dflt line), w') /\ stdin w' = rest) ->
  (forall w : World,
      stdin w = [] ->
      exists w' : World,
        body w = (Raise (Exn EOFError "EOF when reading a line"), w') /\ stdin w' = []) ->
  forall (lines : list string) (n : nat) (w : World),
    stdin w = lines -> (length lines < n)%nat ->
    fst (while_true n body w) = first_number lo hi dflt lines
    /\ stdin (snd (while_true n body w)) = lines_after (answers_number lo hi dflt) lines.
Proof.
  intros Hline Heof lines.
  induction lines as [|line rest IH]; intros n w Hin Hn.
  - destruct n as [|n]; [simpl in Hn; lia|].
    destruct (Heof w Hin) as (w' & Hb & Hw').
    cbn [while_true first_number lines_after]. rewrite bind_eval, Hb. auto.
  - destruct n as [|n]; [simpl in Hn; lia|].
    destruct (Hline w line rest Hin) as (w' & Hb & Hw').
    cbn [while_true first_number lines_after]. rewrite bind_eval, Hb.
    unfold answers_number.
    destruct (number_answer lo hi dflt line) as [v|].
    + rewrite bool_decide_eq_true_2 by (eexists; reflexivity). auto.
    + rewrite bool_decide_eq_false_2 by (intros [x Hx]; discriminate).
      apply IH; [exact Hw' | simpl in Hn; lia].
Qed.

Lemma int_eval (s : string) (w : World) :
  int s w = match py_int s with
            | Some z => (Ret z, w)
            | None => (Raise (int_error s), w)
            end.
Proof. unfold int. destruct (py_int s); reflexivity. Qed.

Ltac number_round :=
  let Hin := fresh "Hin" in
  intros ? line ? Hin;
  unfold try_except, on_class;
  rewrite bind_eval, print_printed, bind_eval, print_printed, bind_eval;
  unfold input; cbn [stdin printed with_console]; rewrite Hin;
  unfold number_answer; cbv zeta;
  destruct (is_empty (strip line));
  [ eexists; split; [reflexivity | cbn; now rewrite Hin]
  | rewrite bind_eval, int_eval;
    destruct (py_int (strip line)) as [v|];
    [ destruct ((_ <=? v) && (v <=? _))%Z;
      eexists; (split; [reflexivity | cbn; now rewrite Hin])
    | eexists; split; [reflexivity | cbn; now rewrite Hin] ] ].

Ltac number_eof :=
  let Hin := fresh "Hin" in
  intros ? Hin;
  unfold try_except, on_class;
  rewrite bind_eval, print_printed, bind_eval, print_printed, bind_eval;
  unfold input; cbn [stdin printed with_console]; rewrite Hin;
  eexists; split; [reflexivity | cbn; exact Hin].

Lemma first_number_range (lo hi dflt : Z) (lines : list string) (v : Z) :
  (lo <= dflt <= hi)%Z ->
  first_number lo hi dflt lines = Ret v -> (lo <= v <= hi)%Z.
Proof.
  intros Hd. induction lines as [|line rest IH]; cbn [first_number]; [discriminate|].
  unfold number_answer. cbv zeta.
  destruct (is_empty (strip line)); [intros [= <-]; exact Hd|].
  destruct (py_int (strip line)) as [x|]; [|exact IH].
  destruct ((lo <=? x) && (x <=? hi))%Z eqn:Hr; [|exact IH].
  intros [= <-]. apply andb_prop in Hr as [H1 H2]. apply Z.leb_le in H1, H2. lia.
Qed.

Lemma first_number_raises (lo hi dflt : Z) (lines : list string) (e : exn) :
  first_number lo hi dflt lines = Raise e -> exn_cls e = EOFError.
Proof.
  induction lines as [|line rest IH]; cbn [first_number]; [intros [= <-]; reflexivity|].
  destruct (number_answer lo hi dflt line); [discriminate | exact IH].
Qed.

(** X8: [get_worker_count] returns the number the first line of the
    input gives that is empty (100) or a whole number from 1 to 500; it
    passes over every other line, whatever it holds, and ends in
    [EOFError], and in nothing else, when the input ends first. What it
    returns is from 1 to 500, and the input is read up to that line. *)
Theorem get_worker_count_in_range (w : World) :
  fst (get_worker_count w) = first_number 1 500 100 (stdin w)
  /\ stdin (snd (get_worker_count w)) = lines_after (answers_number 1 500 100) (stdin w)
  /\ (forall v : Z, fst (get_worker_count w) = Ret v -> (1 <= v <= 500)%Z)
  /\ (forall e : exn, fst (get_worker_count w) = Raise e -> exn_cls e = EOFError).
Proof.
  unfold get_worker_count, prompt_loop.
  match goal with |- context [while_true _ ?b w] =>
    assert (Hloop := while_true_number 1 500 100 b) end.
  destruct (Hloop ltac:(number_round) ltac:(number_eof) (stdin w) (S (length (stdin w))) w
              eq_refl ltac:(lia)) as [-> ->].
  split; [reflexivity|]. split; [reflexivity|]. split.
  - intros v. apply first_number_range. lia.
  - intros e. apply first_number_raises.
Qed.

(** X9: the same for [get_timeout], with 3 for the empty line and the
    numbers from 1 to 10. *)
Theorem get_timeout_in_range (w : World) :
  fst (get_timeout w) = first_number 1 10 3 (stdin w)
  /\ stdin (snd (get_timeout w)) = lines_after (answers_number 1 10 3) (stdin w)
  /\ (forall v : Z, fst (get_timeout w) = Ret v -> (1 <= v <= 10)%Z)
  /\ (forall e : exn, fst (get_timeout w) = Raise e -> exn_cls e = EOFError).
Proof.
  unfold get_timeout, prompt_loop.
  match goal with |- context [while_true _ ?b w] =>
    assert (Hloop := while_true_number 1 10 3 b) end.
  destruct (Hloop ltac:(number_round) ltac:(number_eof) (stdin w) (S (length (stdin w))) w
              eq_refl ltac:(lia)) as [-> ->].
  split; [reflexivity|]. split; [reflexivity|]. split.
  - intros v. apply first_number_range. lia.
  - intros e. apply first_number_raises.
Qed.

Example number_questions_examples :
  map (fun lines => fst (get_worker_count (with_stdin (fun _ => lines) empty_world)))
      [ [""]; ["0"; "501"; "abc"; " 25 "]; ["1_0"]; ["-3"; "x"]; ["+500"] ]
  = [ Ret 100%Z; Ret 25%Z; Ret 10%Z;
      Raise (Exn EOFError "EOF when reading a line"); Ret 500%Z ]
  /\ map (fun lines => fst (get_timeout (with_stdin (fun _ => lines) empty_world)))
      [ [""]; ["11"; "10"]; ["0"; "  "] ]
  = [ Ret 3%Z; Ret 10%Z; Ret 3%Z ].
Proof. vm_compute. split; reflexivity. Qed.

Lemma get_worker_count_in_range_witness :
  fst (get_worker_count (with_stdin (fun _ => ["0"; "many"; " 25 "; "7"]) empty_world))
  = Ret 25%Z
  /\ (1 <= 25 <= 500)%Z.
Proof.
  destruct (get_worker_count_in_range
              (with_stdin (fun _ => ["0"; "many"; " 25 "; "7"]) empty_world))
    as (Hfirst & _ & Hrange & _).
  assert (Hr : fst (get_worker_count
                      (with_stdin (fun _ => ["0"; "many"; " 25 "; "7"]) empty_world))
               = Ret 25%Z) by (rewrite Hfirst; vm_compute; reflexivity).
  split; [exact Hr | exact (Hrange 25%Z Hr)].
Defined.

Lemma get_timeout_in_range_witness :
  fst (get_timeout (with_stdin (fun _ => ["11"; "ten"; "10"]) empty_world)) = Ret 10%Z
  /\ (1 <= 10 <= 10)%Z.
Proof.
  destruct (get_timeout_in_range (with_stdin (fun _ => ["11"; "ten"; "10"]) empty_world))
    as (Hfirst & _ & Hrange & _).
  assert (Hr : fst (get_timeout (with_stdin (fun _ => ["11"; "ten"; "10"]) empty_world))
               = Ret 10%Z) by (rewrite Hfirst; vm_compute; reflexivity).
  split; [exact Hr | exact (Hrange 10%Z Hr)].
Defined.

(** ** What [get_test_domain] can return *)

Lemma lstrip_head (s : string) :
  match lstrip s with
  | String c _ => is_space c = false
  | EmptyString => True
  end.
Proof.
  induction s as [|c s IH]; [exact I|]. cbn [lstrip].
  destruct (is_space c) eqn:Hc; [exact IH | exact Hc].
Qed.

Lemma rstrip_cons (c : ascii) (s : string) :
  rstrip (String c s)
  = match rstrip s with
    | EmptyString => if is_space c then EmptyString else String c EmptyString
    | r => String c r
    end.
Proof. reflexivity. Qed.

Lemma rstrip_idem (s : string) : rstrip (rstrip s) = rstrip s.
Proof.
  induction s as [|c s IH]; [reflexivity|]. rewrite rstrip_cons.
  destruct (rstrip s) as [|d r] eqn:Hr.
  - destruct (is_space c) eqn:Hc; [reflexivity|].
    rewrite rstrip_cons. cbn [rstrip]. now rewrite Hc.
  - rewrite rstrip_cons, IH. reflexivity.
Qed.

Lemma rstrip_head (c : ascii) (s : string) :
  is_space c = false -> exists r : string, rstrip (String c s) = String c r.
Proof.
  intros Hc. rewrite rstrip_cons. destruct (rstrip s) as [|d r].
  - rewrite Hc. eexists. reflexivity.
  - eexists. reflexivity.
Qed.

(** Trimming twice is trimming once. *)
Lemma strip_idem (s : string) : strip (strip s) = strip s.
Proof.
  unfold strip. pose proof (lstrip_head s) as Hh.
  destruct (lstrip s) as [|c t] eqn:Hl; [reflexivity|].
  destruct (rstrip_head c t Hh) as (r & Hr).
  rewrite Hr at 1. cbn [lstrip]. rewrite Hh, <- Hr. apply rstrip_idem.
Qed.

Lemma choice_answer_shape (line d : string) :
  choice_answer (strip line) = Ret (Some d) ->
  contains "." d = true
  /\ startswith "http://" d = false /\ startswith "https://" d = false
  /\ strip d = d.
Proof.
  unfold choice_answer. set (c := strip line).
  destruct (isdigit c && (int_max_str_digits <? String.length c)%nat); [discriminate|].
  destruct (isdigit c && _) eqn:Hd.
  - apply andb_prop in Hd as [_ Hr]. apply andb_prop in Hr as [H1 H3].
    apply Z.leb_le in H1, H3.
    assert (Hv : (digits_value (chars c) = 1 \/ digits_value (chars c) = 2
                  \/ digits_value (chars c) = 3)%Z) by lia.
    destruct Hv as [-> | [-> | ->]]; cbn; intros [= <-]; vm_compute; repeat split.
  - destruct (negb (is_empty c) && contains "." c && _) eqn:Hdot.
    + intros [= <-]. apply andb_prop in Hdot as [Hdot Hs]. apply andb_prop in Hdot as [_ Hdot].
      apply negb_true_iff, orb_false_iff in Hs as [Hs1 Hs2].
      repeat split; try assumption. apply strip_idem.
    + destruct (is_empty c); [|discriminate].
      intros [= <-]. vm_compute. repeat split.
Qed.

Lemma first_answer_shape (lines : list string) (d : string) :
  first_answer lines = Ret d ->
  contains "." d = true
  /\ startswith "http://" d = false /\ startswith "https://" d = false
  /\ strip d = d.
Proof.
  induction lines as [|line rest IH]; cbn [first_answer]; [discriminate|].
  destruct (choice_answer (strip line)) as [[d'|]|e] eqn:Hc; [|exact IH|discriminate].
  intros [= <-]. eapply choice_answer_shape, Hc.
Qed.

(** X10: a domain that [get_test_domain] returns has a dot in it, does
    not begin with http:// or https://, and has no white space at either
    end. *)
Theorem get_test_domain_shape (w : World) (d : string) :
  fst (get_test_domain w) = Ret d ->
  contains "." d = true
  /\ startswith "http://" d = false /\ startswith "https://" d = false
  /\ strip d = d.
Proof. rewrite get_test_domain_first_answer. apply first_answer_shape. Qed.

Lemma get_test_domain_shape_witness :
  contains "." "dns.example" = true
  /\ startswith "http://" "dns.example" = false
  /\ startswith "https://" "dns.example" = false
  /\ strip "dns.example" = "dns.example".
Proof.
  apply (get_test_domain_shape
           (with_stdin (fun _ => ["https://dns.example"; "9"; "  dns.example "]) empty_world)).
  vm_compute. reflexivity.
Defined.

(** ** More on one probe *)

Lemma prefix_space (a rest : string) :
  String.prefix (a +:+ " ") (a +:+ String " " rest) = true.
Proof.
  induction a as [|c a IH].
  - destruct rest; reflexivity.
  - change (String.prefix (String c (a +:+ " ")) (String c (a +:+ String " " rest)) = true).
    cbn [String.prefix]. destruct (ascii_dec c c); [exact IH | congruence].
Qed.

(** X11: what a probe returns names the server it was given, in the pair
    and at the head of the message; a success comes with a response time;
    a probe without a response time did not succeed and left everything
    as it was. *)
Theorem probe_names_its_server (env : Env) (server domain : string) (t : Z) (w : World)
    (success : bool) (ip : string) (time : option Q) (msg : string) :
  fst (test_single_server env server domain t w) = Ret (success, (ip, time), msg) ->
  ip = server
  /\ startswith (server +:+ " ") msg = true
  /\ (success = true -> is_Some time)
  /\ (time = None -> success = false /\ snd (test_single_server env server domain t w) = w).
Proof.
  destruct (test_single_server_cases env server domain t w)
    as [[Hn H] | [(Hn & Hc & H) | [(m & Hq & H) | [(f & o & ms & Hq & Hr & H)
       | (e & ms & Hq & Hr & H)]]]]; rewrite H; cbn [fst snd]; try discriminate.
  - intros [= <- <- <- <-]. split; [reflexivity|]. split; [apply prefix_space|].
    split; [discriminate | auto].
  - unfold on_answer. intros [= <- <- <- <-]. split; [reflexivity|].
    split; [apply prefix_space|]. split; [eexists; reflexivity | discriminate].
  - unfold on_error. intros [= <- <- <- <-]. split; [reflexivity|].
    split; [apply prefix_space|]. split; [discriminate | discriminate].
Qed.

Lemma probe_names_its_server_witness :
  "203.0.113.5" = "203.0.113.5"
  /\ startswith ("203.0.113.5" +:+ " ") "203.0.113.5 TIMEOUT (3s, 3000ms)" = true
  /\ (false = true -> is_Some (Some 3000%Q))
  /\ (Some 3000%Q = None ->
      false = false
      /\ snd (test_single_server scenario_env "203.0.113.5" "example.com" 3 empty_world)
         = empty_world).
Proof.
  apply (probe_names_its_server scenario_env "203.0.113.5" "example.com" 3 empty_world).
  vm_compute. reflexivity.
Defined.

(** X12: a probe touches no file but the ledger, and the ledger only
    when it succeeds: then the ledger, if it can be written, has the line
    of the server at its end, and if it cannot, the probe succeeds all
    the same. *)
Theorem probe_writes_only_its_line (env : Env) (server domain : string) (t : Z) (w : World) :
  let w' := snd (test_single_server env server domain t w) in
  (forall p : string, p <> ledger_path -> files w' !! p = files w !! p)
  /\ (succeeds env domain t server = false -> files w' = files w)
  /\ (forall ms : Q,
        response env domain t server = Some ms ->
        (exists msg : string,
            fst (test_single_server env server domain t w)
            = Ret (true, (server, Some ms), msg))
        /\ (ledger_path ∉ write_denied w ->
            files w' !! ledger_path
            = Some (default EmptyString (files w !! ledger_path)
                    +:+ server +:+ " (" +:+ format_f 0 ms +:+ "ms)" +:+ newline))
        /\ (ledger_path ∈ write_denied w -> files w' = files w)).
Proof.
  cbv zeta. rewrite succeeds_response. unfold response.
  assert (Hsave : forall (info : string) (w0 : World),
             (forall p : string,
                 p <> ledger_path ->
                 files (snd (real_time_save info w0)) !! p = files w0 !! p)
             /\ (ledger_path ∉ write_denied w0 ->
                 files (snd (real_time_save info w0)) !! ledger_path
                 = Some (default EmptyString (files w0 !! ledger_path) +:+ info +:+ newline))
             /\ (ledger_path ∈ write_denied w0 ->
                 files (snd (real_time_save info w0)) = files w0)).
  { intros info w0. unfold real_time_save, try_except, append_file.
    destruct (decide (ledger_path ∈ write_denied w0)) as [Hno|Hok].
    - rewrite bool_decide_eq_true_2 by exact Hno.
      unfold catch_all. rewrite isinstance_Exception, print_printed. cbn [snd printed files with_console].
      split; [reflexivity|]. split; [intros Hok; contradiction | reflexivity].
    - rewrite bool_decide_eq_false_2 by exact Hok. cbn [snd files with_files].
      split; [intros p Hp; now apply lookup_insert_ne|].
      split; [intros _; apply lookup_insert_eq | intros Hno; contradiction]. }
  destruct (test_single_server_cases env server domain t w)
    as [[Hn H] | [(Hn & Hc & H) | [(m & Hq & H) | [(f & o & ms & Hq & Hr & H)
       | (e & ms & Hq & Hr & H)]]]]; rewrite H; cbn [fst snd].
  - assert (Hq : queried env server = false) by (unfold queried; now rewrite Hn).
    rewrite Hq. split; [reflexivity|]. split; [reflexivity | discriminate].
  - assert (Hq : queried env server = false) by (unfold queried; now rewrite Hn, Hc).
    rewrite Hq. split; [reflexivity|]. split; [reflexivity | discriminate].
  - rewrite Hq. split; [reflexivity|]. split; [reflexivity | discriminate].
  - rewrite Hq, Hr.
    destruct (Hsave (ledger_line server ms) (after_query server domain t w)) as (Ho & Hw & Hd).
    split; [exact Ho|].
    split; [rewrite bool_decide_eq_true_2 by (eexists; reflexivity); discriminate|].
    intros ms' [= <-]. split; [eexists; reflexivity|]. split.
    + intros Hok. rewrite (Hw Hok). unfold ledger_line. cbn [files after_query with_queries].
      f_equal. now rewrite !app_assoc_str.
    + exact Hd.
  - rewrite Hq, Hr. split; [reflexivity|]. split; [reflexivity | discriminate].
Qed.

Lemma probe_writes_only_its_line_witness :
  files (snd (test_single_server scenario_env "1.1.1.1" "example.com" 3 second_run_world))
    !! ledger_path
  = Some (old_ledger +:+ "1.1.1.1 (20ms)" +:+ newline).
Proof.
  destruct (probe_writes_only_its_line scenario_env "1.1.1.1" "example.com" 3 second_run_world)
    as (_ & _ & Hsucc).
  destruct (Hsucc 20%Q) as (_ & Hline & _); [vm_compute; reflexivity|].
  rewrite Hline by (vm_compute; set_solver). vm_compute. reflexivity.
Defined.

(** ** More on the run *)

(** X13: the testing part of a run asks the resolver library once for
    every candidate that gets as far as the query, each time with the
    candidate itself as the only name server, for the A records of the
    test domain and with the timeout of the run; the requests come in the
    order in which the workers get to them, which is some order of the
    candidates. Nothing else is asked, no candidate is asked oftener
    than it is among the candidates, and nothing is read from the
    input. *)
Theorem test_all_queries (env : Env) (pool : Pool) (servers : list string)
    (workers t : Z) (domain : string) (w : World) :
  let w' := snd (test_all env pool servers workers t domain w) in
  (exists asked : list string,
      asked ≡ₚ servers
      /\ queries w'
         = queries w
           ++ map (fun s => (probe_resolver s t, domain, "A"))
                (List.filter (queried env) asked))
  /\ stdin w' = stdin w.
Proof.
  cbv zeta.
  destruct (test_all_eq env pool servers workers t domain w)
    as (w' & asked & saved & Heq & _ & Hp & _ & Hq & Hs & _).
  rewrite Heq. cbn [snd]. split; [|exact Hs]. exists asked. split; [exact Hp | exact Hq].
Qed.

(** ** The run as a whole *)

Lemma create_sample_servers_returns (filename : string) (w : World) :
  fst (create_sample_servers filename w) = Ret tt.
Proof.
  unfold create_sample_servers, script_path. rewrite bind_eval. unfold path_exists.
  destruct (bool_decide (is_Some (files w !! filename))); [reflexivity|].
  unfold try_except. rewrite bind_eval. unfold write_file.
  destruct (bool_decide (filename ∈ write_denied w)).
  - unfold catch_all. rewrite isinstance_Exception. reflexivity.
  - reflexivity.
Qed.

(** A property of whatever the innermost call raises holds of whatever
    [load_servers] raises: no exception starts in its body. *)
Lemma load_servers_body_raises (Q : exn -> Prop) (again : M (list string))
    (filename : string) :
  (forall (w : World) (e : exn), fst (again w) = Raise e -> Q e) ->
  forall (w : World) (e : exn),
    fst (load_servers_body again filename w) = Raise e -> Q e.
Proof.
  intros Hagain w e. unfold load_servers_body, try_except, script_path.
  rewrite bind_eval.
  assert (Hhandler : forall (e0 : exn) (w1 : World),
             fst (match (if isinstance e0 FileNotFoundError
                         then Some (print (filename +:+ " not found. Creating sample file...");;
                                    create_sample_servers filename;; again)
                         else if isinstance e0 Exception
                              then Some (print ("Error loading servers: " +:+ exn_str e0);;
                                         mret [])
                              else None) with
                  | Some h => h w1
                  | None => (Raise e0, w1)
                  end) = Raise e -> Q e).
  { intros e0 w1. destruct (isinstance e0 FileNotFoundError).
    - repeat (rewrite bind_eval; cbn [print]).
      match goal with |- context [create_sample_servers filename ?w0] =>
        pose proof (create_sample_servers_returns filename w0) as Hc;
        destruct (create_sample_servers filename w0) as [[[]|e'] w4] end;
        [|discriminate Hc].
      apply Hagain.
    - rewrite isinstance_Exception. cbn. discriminate. }
  destruct (read_file filename w) as [[content|e0] w1]; [|apply Hhandler].
  repeat (rewrite bind_eval; cbn [print]).
  destruct (elements (list_to_set (findall content) : gset string)) as [|s l].
  - repeat (rewrite bind_eval; cbn [print]).
    match goal with |- context [create_sample_servers filename ?w0] =>
      pose proof (create_sample_servers_returns filename w0) as Hc;
      destruct (create_sample_servers filename w0) as [[[]|e'] w2] end;
      [|discriminate Hc].
    destruct (again w2) as [[r'|e1] w3]; [cbn; discriminate | apply Hhandler].
  - cbn. discriminate.
Qed.

Lemma load_servers_raises (filename : string) (w : World) (e : exn) :
  fst (load_servers filename w) = Raise e ->
  e = Exn RecursionError "maximum recursion depth exceeded".
Proof.
  unfold load_servers. generalize recursion_limit. intros depth. revert w e.
  induction depth as [|depth IH]; intros w e.
  - intros [= <-]. reflexivity.
  - cbn [load_servers_within].
    apply (load_servers_body_raises
             (fun x => x = Exn RecursionError "maximum recursion depth exceeded")).
    exact IH.
Qed.

Lemma get_worker_count_value (w : World) :
  fst (get_worker_count w) = first_number 1 500 100 (stdin w).
Proof.
  unfold get_worker_count, prompt_loop.
  match goal with |- context [while_true _ ?b w] =>
    assert (Hloop := while_true_number 1 500 100 b) end.
  now destruct (Hloop ltac:(number_round) ltac:(number_eof) (stdin w) (S (length (stdin w))) w
                  eq_refl ltac:(lia)) as [-> _].
Qed.

Lemma get_timeout_value (w : World) :
  fst (get_timeout w) = first_number 1 10 3 (stdin w).
Proof.
  unfold get_timeout, prompt_loop.
  match goal with |- context [while_true _ ?b w] =>
    assert (Hloop := while_true_number 1 10 3 b) end.
  now destruct (Hloop ltac:(number_round) ltac:(number_eof) (stdin w) (S (length (stdin w))) w
                  eq_refl ltac:(lia)) as [-> _].
Qed.

Lemma first_answer_raises (lines : list string) (e : exn) :
  first_answer lines = Raise e -> exn_cls e = EOFError \/ exn_cls e = ValueError.
Proof.
  induction lines as [|line rest IH]; cbn [first_answer].
  - intros [= <-]. now left.
  - destruct (choice_answer (strip line)) as [[d|]|e0] eqn:Hc; [discriminate | exact IH |].
    intros [= <-]. right. unfold choice_answer in Hc.
    repeat match type of Hc with
           | (if ?b then _ else _) = _ => destruct b
           end; try discriminate.
    now injection Hc as <-.
Qed.

(** The three ways of [check_dns_servers]: it ends in an exception of
    the loader or of the questions, returns for want of candidates, or
    returns the working servers among the candidates in the order in
    which their probes completed. *)
Lemma check_dns_servers_cases (env : Env) (pool : Pool) (filename : string) (w : World) :
  (exists e : exn,
      fst (check_dns_servers env pool filename w) = Raise e
      /\ (exn_cls e = EOFError \/ exn_cls e = ValueError \/ exn_cls e = RecursionError))
  \/ fst (check_dns_servers env pool filename w) = Ret []
  \/ (exists (servers : list string) (workers t : Z) (domain : string) (w0 : World),
        fst (load_servers filename w0) = Ret servers
        /\ (1 <= workers <= 500)%Z /\ (1 <= t <= 10)%Z
        /\ fst (check_dns_servers env pool filename w)
           = Ret (timed (found_among env domain t (completed pool workers servers)))).
Proof.
  unfold check_dns_servers.
  rewrite bind_eval, print_printed, bind_eval, print_printed, bind_eval.
  match goal with |- context [load_servers filename ?w0] =>
    destruct (load_servers filename w0) as [[servers|e] w1] eqn:Hl end.
  2:{ left. exists e. split; [reflexivity|]. right. right.
      rewrite (load_servers_raises filename _ e) by (now rewrite Hl). reflexivity. }
  destruct servers as [|s l].
  { right. left. reflexivity. }
  rewrite bind_eval.
  pose proof (get_worker_count_value w1) as Hw.
  destruct (get_worker_count w1) as [[workers|e] w2]; cbn [fst] in Hw; symmetry in Hw.
  2:{ left. exists e. split; [reflexivity|]. left. eapply first_number_raises, Hw. }
  apply first_number_range in Hw; [|lia].
  rewrite bind_eval.
  pose proof (get_timeout_value w2) as Ht.
  destruct (get_timeout w2) as [[t|e] w3]; cbn [fst] in Ht; symmetry in Ht.
  2:{ left. exists e. split; [reflexivity|]. left. eapply first_number_raises, Ht. }
  apply first_number_range in Ht; [|lia].
  rewrite bind_eval.
  pose proof (get_test_domain_first_answer w3) as Hd.
  destruct (get_test_domain w3) as [[domain|e] w4]; cbn [fst] in Hd; symmetry in Hd.
  2:{ left. exists e. split; [reflexivity|].
      destruct (first_answer_raises _ _ Hd) as [He|He]; rewrite He; auto. }
  rewrite bind_eval.
  destruct (test_all_eq env pool (s :: l) workers t domain w4) as (w5 & _ & _ & Heq & _).
  cbv zeta in Heq. rewrite Heq. cbn [fst snd].
  match goal with |- context [report env ?sv domain (timed ?f) ?fl w5] =>
    destruct (report_eq env sv domain f fl w5) as (ls & Hrep) end.
  rewrite Hrep. right. right. exists (s :: l), workers, t, domain. eexists.
  split; [now rewrite Hl|]. split; [exact Hw|]. split; [exact Ht | reflexivity].
Qed.

Lemma Zpos_of_nat (n : nat) : n <> 0%nat -> Zpos (Pos.of_nat n) = Z.of_nat n.
Proof. intros Hn. now rewrite <- positive_nat_Z, Nat2Pos.id. Qed.

(** ** Floating point *)

Lemma round_half_even_nonneg (n d : Z) :
  (0 <= n)%Z -> (0 < d)%Z -> (0 <= round_half_even n d)%Z.
Proof.
  intros Hn Hd. unfold round_half_even. cbv zeta.
  assert (0 <= n / d)%Z by (apply Z.div_pos; lia).
  destruct (2 * (n mod d) <? d)%Z; [lia|].
  destruct (d <? 2 * (n mod d))%Z; [lia|].
  destruct (Z.even (n / d)); lia.
Qed.

(** Rounding does not go past a whole number. *)
Lemma round_half_even_le (n d k : Z) :
  (0 < d)%Z -> (n <= k * d)%Z -> (round_half_even n d <= k)%Z.
Proof.
  intros Hd Hle. unfold round_half_even. cbv zeta.
  pose proof (Z.div_mod n d ltac:(lia)) as Hdm.
  pose proof (Z.mod_pos_bound n d Hd) as Hm.
  assert (Hq : (n / d <= k)%Z) by (apply Z.div_le_upper_bound; lia).
  destruct (2 * (n mod d) <? d)%Z eqn:H1; [exact Hq|].
  apply Z.ltb_ge in H1.
  assert (Hlt : (n / d < k)%Z) by nia.
  destruct (d <? 2 * (n mod d))%Z; [lia|].
  destruct (Z.even (n / d)); lia.
Qed.

Lemma log2_floor_lower (n d : Z) :
  (0 < n)%Z -> (0 < d)%Z ->
  (0 <= log2_floor n d -> d * 2 ^ log2_floor n d <= n)%Z
  /\ (log2_floor n d < 0 -> d <= n * 2 ^ (- log2_floor n d))%Z.
Proof.
  intros Hn Hd. unfold log2_floor. cbv zeta.
  destruct (Z.log2_spec n Hn) as [Hn1 Hn2]. destruct (Z.log2_spec d Hd) as [Hd1 Hd2].
  pose proof (Z.log2_nonneg n) as Hln. pose proof (Z.log2_nonneg d) as Hld.
  set (ln := Z.log2 n) in *. set (ld := Z.log2 d) in *.
  rewrite Z.pow_succ_r in Hn2, Hd2 by assumption.
  destruct (0 <=? ln - ld)%Z eqn:He.
  - apply Z.leb_le in He.
    destruct (d * 2 ^ (ln - ld) <=? n)%Z eqn:Ht.
    + apply Z.leb_le in Ht. split; [intros _; exact Ht | lia].
    + assert (Hsplit : (2 ^ ln = 2 ^ ld * 2 ^ (ln - ld))%Z).
      { rewrite <- Z.pow_add_r by lia. f_equal. lia. }
      split.
      * intros Hnn.
        assert (Hp : (2 ^ (ln - ld) = 2 * 2 ^ (ln - ld - 1))%Z).
        { rewrite <- Z.pow_succ_r by lia. f_equal. lia. }
        assert (0 < 2 ^ (ln - ld - 1))%Z by (apply Z.pow_pos_nonneg; lia).
        nia.
      * intros Hneg. assert (Heq : (ln - ld = 0)%Z) by lia.
        replace (- (ln - ld - 1))%Z with 1%Z by lia.
        rewrite Heq in Hsplit. rewrite Z.pow_0_r in Hsplit. rewrite Z.pow_1_r. lia.
  - apply Z.leb_gt in He.
    assert (Hsplit : (2 ^ ld = 2 ^ ln * 2 ^ (- (ln - ld)))%Z).
    { rewrite <- Z.pow_add_r by lia. f_equal. lia. }
    destruct (d <=? n * 2 ^ (- (ln - ld)))%Z eqn:Ht.
    + apply Z.leb_le in Ht. split; [lia | intros _; exact Ht].
    + split; [lia|]. intros _.
      assert (Hp : (2 ^ (- (ln - ld - 1)) = 2 * 2 ^ (- (ln - ld)))%Z).
      { rewrite <- Z.pow_succ_r by lia. f_equal. lia. }
      rewrite Hp.
      assert (0 < 2 ^ (- (ln - ld)))%Z by (apply Z.pow_pos_nonneg; lia).
      nia.
Qed.

Lemma to_double_nonneg (q : Q) : (0 <= Qnum q)%Z -> (0 <= Qnum (to_double q))%Z.
Proof.
  intros Hq. unfold to_double. cbv zeta.
  destruct (Z.abs (Qnum q) =? 0)%Z eqn:Hz; [cbn; lia|].
  apply Z.eqb_neq in Hz. rewrite Z.abs_eq in * by exact Hq.
  replace (Qnum q <? 0)%Z with false by (symmetry; apply Z.ltb_ge; exact Hq).
  set (e := Z.max (log2_floor (Qnum q) (Z.pos (Qden q)) - 52) (-1074)).
  destruct (0 <=? e)%Z eqn:He; cbn [Qnum].
  - apply Z.leb_le in He. apply Z.mul_nonneg_nonneg; [|apply Z.pow_nonneg; lia].
    apply round_half_even_nonneg; [lia|].
    apply Z.mul_pos_pos; [lia | apply Z.pow_pos_nonneg; lia].
  - apply round_half_even_nonneg; [|lia].
    apply Z.mul_nonneg_nonneg; [lia | apply Z.pow_nonneg; lia].
Qed.

(** A whole number below [2^53] is a binary64 number, and rounding does
    not go past it. *)
Lemma to_double_le_int (q : Q) (M : Z) :
  (0 <= Qnum q)%Z -> (0 < M < 2 ^ 53)%Z -> (Qnum q <= M * Z.pos (Qden q))%Z ->
  (Qnum (to_double q) <= M * Z.pos (Qden (to_double q)))%Z.
Proof.
  intros Hq HM Hle. unfold to_double. cbv zeta.
  destruct (Z.abs (Qnum q) =? 0)%Z eqn:Hz; [cbn; lia|].
  apply Z.eqb_neq in Hz. rewrite Z.abs_eq in * by exact Hq.
  replace (Qnum q <? 0)%Z with false by (symmetry; apply Z.ltb_ge; exact Hq).
  set (n := Qnum q) in *. set (d := Z.pos (Qden q)) in *.
  assert (Hn : (0 < n)%Z) by lia. assert (Hd : (0 < d)%Z) by (unfold d; lia).
  destruct (log2_floor_lower n d Hn Hd) as [Hlow _].
  set (lg := log2_floor n d) in *.
  assert (Hlg : (lg <= 52)%Z).
  { destruct (Z.le_gt_cases lg 52) as [H|H]; [exact H|]. exfalso.
    assert (Hp : (d * 2 ^ lg <= n)%Z) by (apply Hlow; lia).
    assert (H53 : (2 ^ 53 <= 2 ^ lg)%Z) by (apply Z.pow_le_mono_r; lia).
    nia. }
  set (e := Z.max (lg - 52) (-1074)).
  assert (He : (e <= 0)%Z) by (unfold e; lia).
  destruct (0 <=? e)%Z eqn:Hb.
  - apply Z.leb_le in Hb. assert (e = 0)%Z as -> by lia.
    cbn [Qnum Qden]. rewrite Z.pow_0_r, !Z.mul_1_r.
    apply round_half_even_le; lia.
  - apply Z.leb_gt in Hb. cbn [Qnum Qden].
    assert (Hpow : (0 < 2 ^ (- e))%Z) by (apply Z.pow_pos_nonneg; lia).
    rewrite Z2Pos.id by exact Hpow.
    apply round_half_even_le; [exact Hd|]. nia.
Qed.

Lemma success_rate_range (working : list (string * option Q)) (servers : list string) :
  (length working <= length servers)%nat ->
  (0 <= success_rate working servers)%Q /\ (success_rate working servers <= 100)%Q.
Proof.
  unfold success_rate. destruct servers as [|s l]; intros Hle.
  - split; unfold Qle; cbn; lia.
  - assert (Hn : length (s :: l) <> 0%nat) by (cbn [length]; lia).
    revert Hle Hn. generalize (length (s :: l)). generalize (length working).
    intros a b Hle Hn.
    set (x := to_double (Z.of_nat a # Pos.of_nat b)).
    assert (Hx0 : (0 <= Qnum x)%Z) by (apply to_double_nonneg; cbn [Qnum]; lia).
    assert (Hx1 : (Qnum x <= 1 * Z.pos (Qden x))%Z).
    { apply to_double_le_int; cbn [Qnum Qden].
      - lia.
      - split; [lia | reflexivity].
      - rewrite (Zpos_of_nat b Hn). lia. }
    assert (Hy0 : (0 <= Qnum (x * 100))%Z) by (cbn [Qmult Qnum]; lia).
    split; unfold Qle; cbn [Qnum Qden].
    + pose proof (to_double_nonneg (x * 100) Hy0). lia.
    + pose proof (to_double_le_int (x * 100) 100 Hy0) as H100. rewrite Z.mul_1_r.
      apply H100; [split; [lia | reflexivity]|]. cbn [Qmult Qnum Qden].
      rewrite Pos2Z.inj_mul. lia.
Qed.

(** The rate is not the exact quotient: 23 of 80 is 28.75 percent, and
    the float is a little less. *)
Example success_rate_examples :
  map (fun p => format_f 1 (success_rate (replicate (fst p) ("", None)) (replicate (snd p) "")))
      [ (23, 80); (1, 3); (2, 3); (57, 200); (5, 5); (0, 7) ]%nat
  = [ "28.7"; "33.3"; "66.7"; "28.5"; "100.0"; "0.0" ]
  /\ format_f 1 (2875 # 100) = "28.8".
Proof. vm_compute. split; reflexivity. Qed.

(** X14: of the two lists the testing part leaves, the lengths add up to
    the number of candidates, so the rate of the summary is between 0 and
    100; and the report that follows does not raise, returns the working
    list as it got it, and changes nothing but the console. *)
Theorem test_all_then_report (env : Env) (pool : Pool) (servers : list string)
    (workers t : Z) (domain : string) (w w1 : World)
    (working : list (string * option Q)) (failed : list string) :
  test_all env pool servers workers t domain w = (Ret (working, failed), w1) ->
  (length working + length failed = length servers)%nat
  /\ (0 <= success_rate working servers)%Q /\ (success_rate working servers <= 100)%Q
  /\ exists lines : list string,
       report env servers domain working failed w1 = (Ret working, printed lines w1).
Proof.
  intros Hrun.
  destruct (test_all_eq env pool servers workers t domain w) as (w' & _ & _ & Heq & _).
  cbv zeta in Heq. rewrite Heq in Hrun. injection Hrun as <- <- <-.
  set (order := completed pool workers servers).
  assert (Hlen : (length (timed (found_among env domain t order))
                  + length (lost_among env domain t order) = length servers)%nat).
  { rewrite <- (length_map fst), found_among_servers. unfold lost_among.
    rewrite <- length_app, filter_split_perm. unfold order. now rewrite completed_perm. }
  split; [exact Hlen|].
  destruct (success_rate_range (timed (found_among env domain t order)) servers) as [H0 H100];
    [lia|].
  split; [exact H0|]. split; [exact H100|]. apply report_eq.
Qed.

Lemma test_all_then_report_witness :
  (length [("1.1.1.1", Some 20%Q)] + length ["203.0.113.5"; "1.1.1"] = 3)%nat
  /\ (0 <= success_rate [("1.1.1.1", Some 20%Q)] ["1.1.1.1"; "1.1.1"; "203.0.113.5"])%Q
  /\ (success_rate [("1.1.1.1", Some 20%Q)] ["1.1.1.1"; "1.1.1"; "203.0.113.5"] <= 100)%Q
  /\ exists lines : list string,
       report strict_env ["1.1.1.1"; "1.1.1"; "203.0.113.5"] "example.com"
         [("1.1.1.1", Some 20%Q)] ["203.0.113.5"; "1.1.1"]
         (snd (test_all strict_env last_first ["1.1.1.1"; "1.1.1"; "203.0.113.5"] 100 3
                 "example.com" empty_world))
       = (Ret [("1.1.1.1", Some 20%Q)],
          printed lines
            (snd (test_all strict_env last_first ["1.1.1.1"; "1.1.1"; "203.0.113.5"] 100 3
                    "example.com" empty_world))).
Proof.
  apply (test_all_then_report strict_env last_first ["1.1.1.1"; "1.1.1"; "203.0.113.5"]
           100 3 "example.com" empty_world).
  vm_compute. reflexivity.
Defined.

(** X15: the servers a run returns are distinct dotted quads, and each
    comes with the response time of its own probe, for one test domain
    and one timeout from 1 to 10 seconds. *)
Theorem check_dns_servers_result (env : Env) (pool : Pool) (filename : string) (w : World)
    (working : list (string * option Q)) :
  fst (check_dns_servers env pool filename w) = Ret working ->
  NoDup (map fst working)
  /\ exists (domain : string) (t : Z),
       (1 <= t <= 10)%Z
       /\ Forall (fun x => dotted_quad (fst x) = true
                           /\ is_Some (snd x)
                           /\ snd x = response env domain t (fst x)) working.
Proof.
  intros Hrun.
  destruct (check_dns_servers_cases env pool filename w)
    as [(e & He & _) | [Hnil | (servers & workers & t & domain & w0 & Hl & _ & Ht & Hret)]].
  - congruence.
  - rewrite Hnil in Hrun. injection Hrun as <-.
    split; [constructor|]. exists EmptyString, 1%Z. split; [lia | constructor].
  - rewrite Hret in Hrun. injection Hrun as <-.
    assert (Hs : NoDup servers /\ Forall (fun s => dotted_quad s = true) servers).
    { revert Hl. apply (load_servers_returns
                          (fun r => NoDup r /\ Forall (fun s => dotted_quad s = true) r)).
      - split; constructor.
      - intros content. split; [apply NoDup_elements|].
        apply Forall_forall. intros s Hs.
        apply elem_of_elements, elem_of_list_to_set in Hs.
        pose proof (scan_quads (chars content) None 0) as Hall.
        rewrite Forall_forall in Hall. destruct (Hall s Hs) as [Hq _].
        rewrite <- (text_chars s). now apply quad_text_dotted. }
    destruct Hs as [Hnd Hquad].
    set (order := completed pool workers servers).
    assert (Hperm : order ≡ₚ servers) by apply completed_perm.
    split.
    + rewrite found_among_servers. apply NoDup_ListNoDup, List.NoDup_filter, NoDup_ListNoDup.
      now rewrite Hperm.
    + exists domain, t. split; [exact Ht|].
      rewrite <- Hperm in Hquad. clearbody order. clear Hperm.
      induction order as [|s l IH]; [constructor|].
      rewrite found_among_cons, timed_app. apply Forall_app. split.
      * unfold found_among. cbn [omap list_omap].
        destruct (response env domain t s) as [ms|] eqn:Hr; [|constructor].
        cbn. apply Forall_cons_2; [|apply Forall_nil_2].
        cbn [fst snd]. split; [now inversion Hquad|].
        split; [eexists; reflexivity | now rewrite Hr].
      * apply IH. now inversion Hquad.
Qed.

Lemma check_dns_servers_result_witness :
  NoDup (map fst [("1.1.1.1", Some 20%Q)])
  /\ exists (domain : string) (t : Z),
       (1 <= t <= 10)%Z
       /\ Forall (fun x => dotted_quad (fst x) = true
                           /\ is_Some (snd x)
                           /\ snd x = response scenario_env domain t (fst x))
            [("1.1.1.1", Some 20%Q)].
Proof.
  apply (check_dns_servers_result scenario_env last_first "dns_servers.txt" second_run_world).
  vm_compute. reflexivity.
Defined.

(** X16: however a run goes, [main] ends in one of two ways. It returns
    after the line [Testing complete!] and a line read from the input; or
    it exits with status 1 after a line about the error, which is the
    end of the input, a number too long for [int], or the depth of the
    recursion of [load_servers]. No exception leaves it. *)
Theorem main_exits (env : Env) (pool : Pool) (w : World) :
  match fst (main env pool w) with
  | Completed =>
      (newline +:+ "Testing complete!") ∈ console (snd (main env pool w))
      /\ exists working : list (string * option Q),
           fst (check_dns_servers env pool "dns_servers.txt" w) = Ret working
  | Exit status =>
      status = 1%Z
      /\ exists e : exn,
           (exn_cls e = EOFError \/ exn_cls e = ValueError \/ exn_cls e = RecursionError)
           /\ last (console (snd (main env pool w)))
              = Some (newline +:+ "Unexpected error: " +:+ exn_str e)
  | Uncaught _ => False
  end.
Proof.
  unfold main. rewrite bind_eval.
  assert (Hlast : forall (e : exn) (w0 : World),
             last (console (snd (print (newline +:+ "Unexpected error: " +:+ exn_str e) w0)))
             = Some (newline +:+ "Unexpected error: " +:+ exn_str e)).
  { intros e w0. rewrite print_printed. cbn [snd console printed with_console].
    apply last_snoc. }
  destruct (check_dns_servers_cases env pool "dns_servers.txt" w)
    as [(e & He & Hcls) | Hret].
  - destruct (check_dns_servers env pool "dns_servers.txt" w) as [[r|e'] w1];
      cbn [fst] in He; [discriminate|]. injection He as ->.
    rewrite isinstance_Exception. cbn [fst snd]. split; [reflexivity|].
    exists e. split; [exact Hcls | apply Hlast].
  - assert (Hw : exists working : list (string * option Q),
               fst (check_dns_servers env pool "dns_servers.txt" w) = Ret working).
    { destruct Hret as [-> | (? & ? & ? & ? & ? & _ & _ & _ & ->)]; eexists; reflexivity. }
    clear Hret. destruct Hw as (working & Hw).
    destruct (check_dns_servers env pool "dns_servers.txt" w) as [[r|e'] w1];
      cbn [fst] in Hw; [|discriminate]. injection Hw as ->.
    rewrite bind_eval, print_printed. unfold input.
    cbn [stdin printed with_console].
    destruct (stdin w1) as [|line rest].
    + rewrite isinstance_Exception. cbn [fst snd]. split; [reflexivity|].
      exists (Exn EOFError "EOF when reading a line"). split; [now left | apply Hlast].
    + cbn [fst snd console with_stdin with_console printed]. split.
      * apply elem_of_app. left. apply elem_of_app. right. apply list_elem_of_singleton.
        reflexivity.
      * eexists. reflexivity.
Qed.

(** ** One thread alone at the ledger *)

Lemma run_alone_finished (writable : bool) (op : file_op) (c : list ascii) (n : nat) :
  run_threads writable [op] (replicate n 0%nat)
    {| lock := None; content := c; threads := [Finished] |}
  = {| lock := None; content := c; threads := [Finished] |}.
Proof. induction n as [|n IH]; [reflexivity|]. cbn [replicate run_threads]. exact IH. Qed.

Lemma run_alone_releasing (writable : bool) (op : file_op) (c : list ascii) (n : nat)
    (l : option nat) :
  (1 <= n)%nat ->
  run_threads writable [op] (replicate n 0%nat)
    {| lock := l; content := c; threads := [Releasing] |}
  = {| lock := None; content := c; threads := [Finished] |}.
Proof.
  intros Hn. destruct n as [|n]; [lia|]. cbn [replicate run_threads].
  apply run_alone_finished.
Qed.

Lemma run_alone_writing (writable : bool) (op : file_op) (todo : list ascii) :
  forall (c : list ascii) (n : nat) (l : option nat),
    (2 + length todo <= n)%nat ->
    run_threads writable [op] (replicate n 0%nat)
      {| lock := l; content := c; threads := [Writing todo] |}
    = {| lock := None; content := c ++ todo; threads := [Finished] |}.
Proof.
  induction todo as [|x todo IH]; intros c n l Hn; cbn [length] in Hn;
    (destruct n as [|n]; [lia|]); cbn [replicate run_threads].
  - rewrite app_nil_r. apply run_alone_releasing. lia.
  - change (default _ (step_thread writable [op] 0 _))
      with {| lock := l; content := c ++ [x]; threads := [Writing todo] |}.
    rewrite IH by lia. now rewrite <- app_assoc.
Qed.

(** A call run by one thread with no other around, stepped to its end. *)
Lemma run_alone (writable : bool) (op : file_op) (ledger : list ascii) (n : nat) :
  (4 + length (snd op) <= n)%nat ->
  run_threads writable [op] (replicate n 0%nat) (start_state [op] ledger)
  = {| lock := None; content := apply_op writable ledger op; threads := [Finished] |}.
Proof.
  destruct op as [m txt]. cbn [snd]. intros Hn.
  destruct n as [|n]; [lia|]. destruct n as [|n]; [lia|].
  cbn [replicate run_threads]. unfold apply_op. cbn [fst snd].
  destruct writable.
  - change (default _ (step_thread true [(m, txt)] 0
                         (default _ (step_thread true [(m, txt)] 0 _))))
      with {| lock := Some 0%nat;
              content := match m with Truncate => [] | Append => ledger end;
              threads := [Writing txt] |}.
    rewrite run_alone_writing by lia. destruct m; reflexivity.
  - change (default _ (step_thread false [(m, txt)] 0
                         (default _ (step_thread false [(m, txt)] 0 _))))
      with {| lock := Some 0%nat; content := ledger; threads := [Releasing] |}.
    apply run_alone_releasing. lia.
Qed.

(** X17: [real_time_save] and [write_header] as one thread runs them
    from beginning to end leave the ledger that the same call leaves
    when it is taken step by step with no other thread around: the whole
    text after the old content for the one, in place of it for the
    other, and the old content when the file cannot be opened. *)
Theorem ledger_calls_agree_with_steps (env : Env) (info domain : string) (w : World) :
  let writable := bool_decide (ledger_path ∉ write_denied w) in
  let ledger := chars (default EmptyString (files w !! ledger_path)) in
  let ledger_after (call : M unit) :=
    chars (default EmptyString (files (snd (call w)) !! ledger_path)) in
  let alone (op : file_op) :=
    content (run_threads writable [op] (replicate (4 + length (snd op)) 0%nat)
               (start_state [op] ledger)) in
  ledger_after (real_time_save info) = alone (real_time_save_op info)
  /\ ledger_after (write_header env domain) = alone (write_header_op (now env) domain)
  /\ alone (real_time_save_op info)
     = (if writable then ledger ++ chars info ++ chars newline else ledger).
Proof.
  cbv beta zeta. rewrite !run_alone by lia. cbn [content]. unfold apply_op.
  destruct (decide (ledger_path ∈ write_denied w)) as [Hno|Hok].
  - rewrite bool_decide_eq_false_2 by tauto.
    rewrite (write_header_denied _ _ _ Hno).
    unfold real_time_save, try_except, append_file.
    rewrite bool_decide_eq_true_2 by exact Hno.
    unfold catch_all. rewrite isinstance_Exception, print_printed.
    cbn [snd files printed with_console]. auto.
  - rewrite bool_decide_eq_true_2 by exact Hok.
    rewrite (write_header_writable _ _ _ Hok).
    unfold real_time_save, try_except, append_file.
    rewrite bool_decide_eq_false_2 by exact Hok.
    cbn [fst snd files printed with_console with_files real_time_save_op write_header_op].
    rewrite !lookup_insert_eq. cbn [default from_option id].
    rewrite !chars_app. auto.
Qed.

(** ** The pattern of [load_servers] and the check of [test_single_server] *)

Lemma split_dots_nonempty (cs acc : list ascii) : split_dots cs acc <> [].
Proof.
  revert acc. induction cs as [|c cs IH]; intros acc; cbn [split_dots]; [discriminate|].
  destruct (Ascii.eqb c "."); [discriminate | apply IH].
Qed.

Lemma join_split_dots (cs : list ascii) :
  forall acc : list ascii, join_dots (split_dots cs acc) = acc ++ cs.
Proof.
  induction cs as [|c cs IH]; intros acc; cbn [split_dots].
  - cbn. now rewrite app_nil_r.
  - destruct (Ascii.eqb c ".") eqn:E.
    + apply Ascii.eqb_eq in E. subst c. cbn [join_dots].
      pose proof (split_dots_nonempty cs []) as Hne. specialize (IH []).
      destruct (split_dots cs []) as [|p ps]; [congruence|].
      now rewrite IH.
    + rewrite IH, <- app_assoc. reflexivity.
Qed.

Lemma join_dots_cons (p q : list ascii) (ps : list (list ascii)) :
  join_dots (p :: q :: ps) = p ++ "."%char :: join_dots (q :: ps).
Proof. reflexivity. Qed.

Lemma strtoul_nonzero (c : ascii) (l : list ascii) :
  Ascii.eqb c "0" = false ->
  strtoul (c :: l) = (let '(ds, rest) := span is_digit (c :: l) in (number 10 ds, rest)).
Proof.
  destruct c as [[] [] [] [] [] [] [] []]; intros H;
    try (vm_compute in H; discriminate H); reflexivity.
Qed.

Lemma span_app (p : ascii -> bool) (o rest : list ascii) :
  forallb p o = true ->
  match rest with [] => true | c :: _ => negb (p c) end = true ->
  span p (o ++ rest) = (o, rest).
Proof.
  intros Ho Hrest. induction o as [|c o IH]; cbn [app].
  - destruct rest as [|c rest]; [reflexivity|]. cbn [span].
    apply negb_true_iff in Hrest. now rewrite Hrest.
  - cbn [forallb] in Ho. apply andb_prop in Ho as [Hc Ho]. cbn [span].
    now rewrite Hc, (IH Ho).
Qed.

Lemma number_digits (ds : list ascii) :
  forallb is_digit ds = true -> number 10 ds = digits_value ds.
Proof.
  unfold number, digits_value. generalize 0%Z.
  induction ds as [|c ds IH]; intros acc Hd; [reflexivity|].
  cbn [forallb] in Hd. apply andb_prop in Hd as [Hc Hd]. cbn [fold_left].
  unfold hex_value at 2. rewrite Hc. now apply IH.
Qed.

(** [strtoul] at a number of a plain quad that is followed by a dot or
    by nothing: the decimal value, and the text after its digits. *)
Lemma strtoul_part (o rest : list ascii) :
  part_ok o = true -> no_leading_zero o = true ->
  match rest with [] => true | c :: _ => Ascii.eqb c "." end = true ->
  strtoul (o ++ rest) = (digits_value o, rest).
Proof.
  intros Hok Hnz Hrest. pose proof (part_ok_no_dot _ Hok) as Hd.
  destruct o as [|c o]; [discriminate Hok|].
  destruct (Ascii.eqb c "0") eqn:E.
  - apply Ascii.eqb_eq in E. subst c. destruct o as [|x o]; [|discriminate Hnz].
    cbn [app]. destruct rest as [|d rest]; [reflexivity|].
    apply Ascii.eqb_eq in Hrest. subst d. destruct rest as [|h rest]; reflexivity.
  - cbn [app]. rewrite (strtoul_nonzero _ _ E).
    change (c :: o ++ rest) with ((c :: o) ++ rest).
    rewrite (span_app is_digit (c :: o) rest Hd).
    + now rewrite number_digits.
    + destruct rest as [|d rest]; [reflexivity|].
      apply Ascii.eqb_eq in Hrest. subst d. reflexivity.
Qed.

Lemma part_ok_value (o : list ascii) : part_ok o = true -> (digits_value o <= 255)%Z.
Proof. unfold part_ok. rewrite !andb_true_iff, Z.leb_le. tauto. Qed.

Lemma last_max_255 (k : nat) : (255 <= last_max k)%Z.
Proof. destruct k as [|[|[|k]]]; cbn [last_max]; lia. Qed.

(** One round of the loop at text that starts with a digit. *)
Lemma strtoul_step (rounds : nat) (cs : list ascii) (k : nat) :
  match cs with [] => false | c :: _ => is_digit c end = true ->
  inet_aton_from (S rounds) cs k
  = match snd (strtoul cs) with
    | "."%char :: rest' =>
        if (2 <? k)%nat || (255 <? fst (strtoul cs))%Z then false
        else inet_aton_from rounds rest' (S k)
    | _ => trailing_ok (snd (strtoul cs)) && (fst (strtoul cs) <=? last_max k)%Z
    end.
Proof.
  destruct cs as [|c cs]; [discriminate|]. intros Hc. cbn [inet_aton_from].
  rewrite Hc. destruct (strtoul (c :: cs)) as [val rest]. reflexivity.
Qed.

(** The loop of [inet_aton] over one to four such numbers. *)
Lemma inet_aton_parts (parts : list (list ascii)) :
  Forall (fun p => part_ok p = true /\ no_leading_zero p = true) parts ->
  parts <> [] ->
  forall (k rounds : nat),
    (k + length parts <= 4)%nat -> (length parts <= rounds)%nat ->
    inet_aton_from rounds (join_dots parts) k = true.
Proof.
  induction parts as [|p ps IH]; intros Hall Hne k rounds Hk Hr; [congruence|].
  inversion Hall as [|? ? [Hok Hnz] Hps]; subst.
  pose proof (part_ok_no_dot _ Hok) as Hd.
  destruct rounds as [|rounds]; [cbn [length] in Hr; lia|].
  destruct ps as [|q ps].
  - cbn [join_dots]. rewrite (strtoul_step rounds p k).
    2:{ destruct p as [|c p]; [discriminate Hok|]. cbn [forallb] in Hd.
        apply andb_prop in Hd as [Hc _]. exact Hc. }
    pose proof (strtoul_part p [] Hok Hnz eq_refl) as Hs. rewrite app_nil_r in Hs.
    rewrite Hs. cbn [fst snd trailing_ok andb]. apply Z.leb_le.
    pose proof (part_ok_value _ Hok). pose proof (last_max_255 k). lia.
  - rewrite join_dots_cons.
    specialize (IH Hps ltac:(discriminate) (S k) rounds).
    cbn [length] in Hk, Hr, IH. revert IH. generalize (join_dots (q :: ps)). intros rest IH.
    rewrite (strtoul_step rounds (p ++ "."%char :: rest) k).
    2:{ destruct p as [|c p]; [discriminate Hok|]. cbn [forallb] in Hd.
        apply andb_prop in Hd as [Hc _]. exact Hc. }
    rewrite (strtoul_part p ("."%char :: rest) Hok Hnz eq_refl). cbn [fst snd].
    replace (2 <? k)%nat with false by (symmetry; apply Nat.ltb_ge; lia).
    replace (255 <? digits_value p)%Z with false
      by (symmetry; apply Z.ltb_ge, part_ok_value, Hok).
    cbn [orb]. apply IH; lia.
Qed.

Lemma join_dots_length (parts : list (list ascii)) :
  Forall (fun p => part_ok p = true /\ no_leading_zero p = true) parts ->
  (length parts <= length (join_dots parts))%nat.
Proof.
  induction parts as [|p ps IH]; intros Hall; [cbn; lia|].
  inversion Hall as [|? ? [Hok _] Hps]; subst.
  assert (Hp : (1 <= length p)%nat) by (destruct p; [discriminate Hok | cbn [length]; lia]).
  destruct ps as [|q ps].
  - cbn [join_dots length]. lia.
  - rewrite join_dots_cons. specialize (IH Hps). revert IH.
    generalize (join_dots (q :: ps)). intros rest IH.
    rewrite length_app. cbn [length] in *. lia.
Qed.

Lemma join_dots_no_nul (parts : list (list ascii)) :
  Forall (fun p => part_ok p = true /\ no_leading_zero p = true) parts ->
  existsb (fun c => (code c =? 0)%nat) (join_dots parts) = false.
Proof.
  induction parts as [|p ps IH]; intros Hall; [reflexivity|].
  inversion Hall as [|? ? [Hok _] Hps]; subst.
  assert (Hp : existsb (fun c => (code c =? 0)%nat) p = false).
  { pose proof (part_ok_no_dot _ Hok) as Hd. clear -Hd.
    induction p as [|c p IHp]; [reflexivity|].
    cbn [forallb existsb] in *. apply andb_prop in Hd as [Hc Hd].
    rewrite (IHp Hd), orb_false_r. apply in_range_code in Hc.
    apply Nat.eqb_neq. lia. }
  destruct ps as [|q ps].
  - exact Hp.
  - rewrite join_dots_cons. specialize (IH Hps). revert IH.
    generalize (join_dots (q :: ps)). intros rest IH.
    rewrite existsb_app, Hp. cbn [existsb orb]. exact IH.
Qed.

Lemma plain_quad_parts (server : string) :
  plain_quad server = true ->
  Forall (fun p => part_ok p = true /\ no_leading_zero p = true) (split_dots (chars server) [])
  /\ length (split_dots (chars server) []) = 4%nat.
Proof.
  unfold plain_quad, dotted_quad. cbv zeta. rewrite !andb_true_iff.
  intros [[Hlen Hparts] Hnz]. apply Nat.eqb_eq in Hlen. split; [|exact Hlen].
  rewrite forallb_forall in Hparts, Hnz. apply Forall_forall. intros p Hp.
  apply list_elem_of_In in Hp. split; [exact (Hparts p Hp) | exact (Hnz p Hp)].
Qed.

(** X18: a dotted quad whose numbers are written without a zero before
    their digits passes the check of [test_single_server]: the probe does
    not answer [INVALID IP], and sends its query unless the resolver
    library refuses the name server. *)
Theorem plain_quad_is_probed (env : Env) (server domain : string) (t : Z) (w : World) :
  plain_quad server = true ->
  has_nul server = false
  /\ c_inet_aton (chars server) = true
  /\ fst (test_single_server env server domain t w)
     <> Ret (false, (server, None), server +:+ " INVALID IP")
  /\ (nameservers_error env [server] = None ->
      queries (snd (test_single_server env server domain t w))
      = queries w ++ [(probe_resolver server t, domain, "A")]).
Proof.
  intros Hq. destruct (plain_quad_parts server Hq) as [Hall Hlen].
  pose proof (join_split_dots (chars server) []) as Hjoin. cbn [app] in Hjoin.
  assert (Hne : split_dots (chars server) [] <> []) by apply split_dots_nonempty.
  revert Hall Hlen Hjoin Hne. generalize (split_dots (chars server) []).
  intros parts Hall Hlen Hjoin Hne.
  assert (Hn : has_nul server = false).
  { unfold has_nul. rewrite <- Hjoin. now apply join_dots_no_nul. }
  assert (Hc : c_inet_aton (chars server) = true).
  { unfold c_inet_aton. rewrite <- Hjoin.
    apply inet_aton_parts; [exact Hall | exact Hne | lia |].
    now apply join_dots_length. }
  split; [exact Hn|]. split; [exact Hc|].
  destruct (test_single_server_cases env server domain t w)
    as [[Hn' H] | [(Hn' & Hc' & H) | [(m & Hq' & H) | [(f & o & ms & Hq' & Hr & H)
       | (e & ms & Hq' & Hr & H)]]]]; rewrite H; cbn [fst snd]; try congruence.
  - split; [discriminate|]. intros He. unfold queried in Hq'.
    rewrite Hn, Hc, He in Hq'. discriminate Hq'.
  - split; [unfold on_answer; discriminate|]. intros _.
    destruct (real_time_save_queries (ledger_line server ms) (after_query server domain t w))
      as (_ & -> & _). reflexivity.
  - split; [unfold on_error; discriminate|]. intros _. reflexivity.
Qed.

Lemma plain_quad_is_probed_witness :
  has_nul "208.67.222.222" = false
  /\ c_inet_aton (chars "208.67.222.222") = true
  /\ fst (test_single_server strict_env "208.67.222.222" "example.com" 3 empty_world)
     <> Ret (false, ("208.67.222.222", None), "208.67.222.222" +:+ " INVALID IP")
  /\ (nameservers_error strict_env ["208.67.222.222"] = None ->
      queries (snd (test_single_server strict_env "208.67.222.222" "example.com" 3 empty_world))
      = queries empty_world ++ [(probe_resolver "208.67.222.222" 3, "example.com", "A")]).
Proof.
  apply (plain_quad_is_probed strict_env "208.67.222.222" "example.com" 3 empty_world).
  vm_compute. reflexivity.
Defined.

(** The pattern of [load_servers] takes numbers with zeros before their
    digits, which [inet_aton] reads as octal: of two such candidates one
    is refused and the other is read as a different address. *)
Example zeros_before_digits :
  findall "1.1.1.09 010.1.1.1" = ["1.1.1.09"; "010.1.1.1"]
  /\ c_inet_aton (chars "1.1.1.09") = false
  /\ c_inet_aton (chars "010.1.1.1") = true
  /\ fst (strtoul (chars "010.1.1.1")) = 8%Z.
Proof. vm_compute. repeat split; reflexivity. Qed.

(** ** The ledger at every moment of a run *)

Lemma serial_unwritable (ops : list file_op) (order : list nat) (ledger : list ascii) :
  serial false ops order ledger = ledger.
Proof.
  unfold serial. generalize (ops_of ops order). intros l.
  induction l as [|op l IH]; [reflexivity | exact IH].
Qed.

(** X19: while working servers are being saved by any number of threads
    under any schedule, the ledger is at every moment what it held
    before, then whole lines of threads that are through with it, each
    once, then the beginning of the line of the thread that holds the
    lock, if any: nothing is ever taken from it. A ledger that cannot be
    opened stays as it is. *)
Theorem saves_only_append (writable : bool) (infos : list string) (ledger : list ascii)
    (schedule : list nat) :
  let ops := map real_time_save_op infos in
  let s := run_threads writable ops schedule (start_state ops ledger) in
  (writable = false -> content s = ledger)
  /\ exists (order : list nat) (pre : list ascii),
       NoDup order
       /\ content s
          = ledger
            ++ (if writable then chars (unlines (omap (fun i => infos !! i) order)) else [])
            ++ pre
       /\ (pre = []
           \/ exists (h : nat) (info : string),
                lock s = Some h /\ (h ∉ order) /\ infos !! h = Some info
                /\ pre `prefix_of` chars (info +:+ newline)).
Proof.
  cbv zeta. set (ops := map real_time_save_op infos).
  pose proof (run_threads_inv writable ops ledger schedule _
                (start_state_inv writable ops ledger))
    as (_ & _ & _ & order & Hnd & Hin & Hc).
  set (s := run_threads writable ops schedule (start_state ops ledger)) in *.
  assert (Hser : serial writable ops order ledger
                 = ledger ++ (if writable
                              then chars (unlines (omap (fun i => infos !! i) order))
                              else [])).
  { destruct writable.
    - unfold serial, ops. rewrite ops_of_saves. apply serial_saves.
    - rewrite serial_unwritable. now rewrite app_nil_r. }
  assert (Hcases :
            content s = serial writable ops order ledger
            \/ (writable = true
                /\ exists (h : nat) (todo : list ascii) (m : mode) (txt pre : list ascii),
                     lock s = Some h /\ threads s !! h = Some (Writing todo)
                     /\ ops !! h = Some (m, txt) /\ txt = pre ++ todo
                     /\ content s
                        = match m with
                          | Truncate => []
                          | Append => serial writable ops order ledger
                          end ++ pre)).
  { destruct (lock s) as [h|]; [|left; exact Hc].
    destruct (threads s !! h) as [[| |todo| |]|] eqn:Hp; try (left; exact Hc);
      destruct (ops !! h) as [[m txt]|] eqn:Ho; try (left; exact Hc).
    right. destruct Hc as (Hw & pre & Ht & Hc). split; [exact Hw|].
    exists h, todo, m, txt, pre. auto. }
  destruct Hcases as [Hs | (Hw & h & todo & m & txt & pre & Hl & Hp & Ho & Ht & Hs)].
  - split.
    + intros ->. now rewrite Hs, serial_unwritable.
    + exists order, []. split; [exact Hnd|]. rewrite app_nil_r, Hs, Hser. auto.
  - split; [congruence|].
    unfold ops in Ho. change (map real_time_save_op infos) with (real_time_save_op <$> infos) in Ho.
    rewrite list_lookup_fmap in Ho.
    destruct (infos !! h) as [info|] eqn:Hi; [|discriminate Ho].
    cbn in Ho. injection Ho as <- <-.
    exists order, pre. split; [exact Hnd|]. split.
    + rewrite Hs, Hser, <- app_assoc. reflexivity.
    + right. exists h, info. split; [exact Hl|]. split.
      * intros Hin'. apply Hin in Hin' as (p & Hp' & Hwr).
        rewrite Hp in Hp'. injection Hp' as <-. discriminate Hwr.
      * split; [exact Hi|]. exists todo. exact Ht.
Qed.

(** ** What a run leaves alone

    [R] relates a world to a later one. When it is a preorder that
    printing, reading the input, writing the files [writes] and sending
    the queries [allowed] respect, every function of the script respects
    it, given that it writes and sends only such. *)

Section Frame.

Context (R : World -> World -> Prop) (writes : string -> Prop)
  (allowed : Resolver * string * string -> Prop).
Hypothesis R_refl : forall w : World, R w w.
Hypothesis R_trans : forall a b c : World, R a b -> R b c -> R a c.
Hypothesis R_console : forall (f : list string -> list string) (w : World),
  R w (with_console f w).
Hypothesis R_stdin : forall (f : list string -> list string) (w : World),
  R w (with_stdin f w).
Hypothesis R_files : forall (p : string) (g : gmap string string -> string) (w : World),
  writes p -> R w (with_files (fun fs => <[p := g fs]> fs) w).
Hypothesis R_query : forall (q : Resolver * string * string) (w : World),
  allowed q -> R w (with_queries (fun qs => qs ++ [q]) w).

Lemma keeps_ret {A : Type} (a : A) : keeps R (mret a).
Proof. intros w. apply R_refl. Qed.

Lemma keeps_raise {A : Type} (e : exn) : keeps R (raise e : M A).
Proof. intros w. apply R_refl. Qed.

Lemma keeps_bind_post {A B : Type} (P : A -> Prop) (m : M A) (f : A -> M B) :
  (forall (w : World) (a : A), fst (m w) = Ret a -> P a) ->
  keeps R m -> (forall a : A, P a -> keeps R (f a)) -> keeps R (m ≫= f).
Proof.
  intros HP Hm Hf w. rewrite bind_eval. specialize (Hm w). specialize (HP w).
  destruct (m w) as [[a|e] w1]; cbn [fst snd] in *; [|exact Hm].
  eapply R_trans; [exact Hm|]. apply Hf. now apply HP.
Qed.

Lemma keeps_bind {A B : Type} (m : M A) (f : A -> M B) :
  keeps R m -> (forall a : A, keeps R (f a)) -> keeps R (m ≫= f).
Proof. intros Hm Hf. apply (keeps_bind_post (fun _ => True)); auto. Qed.

Lemma keeps_try {A : Type} (body : M A) (handler : exn -> option (M A)) :
  keeps R body ->
  (forall e : exn, match handler e with Some h => keeps R h | None => True end) ->
  keeps R (try_except body handler).
Proof.
  intros Hb Hh w. unfold try_except. specialize (Hb w).
  destruct (body w) as [[a|e] w1]; cbn [snd] in *; [exact Hb|].
  specialize (Hh e). destruct (handler e) as [h|]; [|exact Hb].
  eapply R_trans; [exact Hb | apply Hh].
Qed.

Lemma keeps_print (line : string) : keeps R (print line).
Proof. intros w. apply R_console. Qed.

Lemma keeps_input (prompt : string) : keeps R (input prompt).
Proof.
  intros w. unfold input. cbv zeta.
  destruct (stdin (with_console (fun c => c ++ [prompt]) w)); cbn [snd].
  - apply R_console.
  - eapply R_trans; [apply R_console | apply R_stdin].
Qed.

Lemma keeps_path_exists (path : string) : keeps R (path_exists path).
Proof. intros w. apply R_refl. Qed.

Lemma keeps_read_file (path : string) : keeps R (read_file path).
Proof.
  intros w. unfold read_file. destruct (files w !! path); [|apply R_refl].
  destruct (bool_decide _); apply R_refl.
Qed.

Lemma keeps_write_file (path content : string) : writes path -> keeps R (write_file path content).
Proof.
  intros Hp w. unfold write_file. destruct (bool_decide _); [apply R_refl|].
  apply (R_files path (fun _ => content) w Hp).
Qed.

Lemma keeps_append_file (path content : string) :
  writes path -> keeps R (append_file path content).
Proof.
  intros Hp w. unfold append_file. destruct (bool_decide _); [apply R_refl|].
  apply (R_files path (fun fs => default EmptyString (fs !! path) +:+ content) w Hp).
Qed.

Ltac keeps_go :=
  repeat first
    [ exact I
    | assumption
    | match goal with
      | H : context [keeps] |- keeps _ _ => solve [apply H; assumption]
      end
    | apply keeps_ret
    | apply keeps_raise
    | apply keeps_print
    | apply keeps_input
    | apply keeps_path_exists
    | apply keeps_read_file
    | apply keeps_write_file; assumption
    | apply keeps_append_file; assumption
    | apply keeps_bind; [|intros ?]
    | apply keeps_try; [|intros ?; unfold catch_all, on_class; cbv beta]
    | match goal with
      | |- keeps _ (if ?b then _ else _) => destruct b
      | |- keeps _ (match ?x with _ => _ end) => destruct x
      | |- match (if ?b then _ else _) with _ => _ end => destruct b
      end
    | progress cbv beta iota zeta ].

Lemma keeps_while_true {A : Type} (body : M (option A)) (rounds : nat) :
  keeps R body -> keeps R (while_true rounds body).
Proof. intros Hb. induction rounds as [|rounds IH]; cbn [while_true]; keeps_go. Qed.

Lemma keeps_prompt_loop {A : Type} (body : M (option A)) :
  keeps R body -> keeps R (prompt_loop body).
Proof. intros Hb w. unfold prompt_loop. now apply keeps_while_true. Qed.

Lemma keeps_int (s : string) : keeps R (int s).
Proof. unfold int. keeps_go. Qed.

Lemma keeps_item {A : Type} (l : list A) (i : Z) : keeps R (item l i).
Proof. unfold item. keeps_go. Qed.

Lemma keeps_get_worker_count : keeps R get_worker_count.
Proof.
  unfold get_worker_count. apply keeps_prompt_loop.
  pose proof keeps_int. keeps_go.
Qed.

Lemma keeps_get_timeout : keeps R get_timeout.
Proof.
  unfold get_timeout. apply keeps_prompt_loop.
  pose proof keeps_int. keeps_go.
Qed.

Lemma keeps_print_menu (ds : list string) : forall i : nat, keeps R (print_menu i ds).
Proof. induction ds as [|d ds IH]; intros i; cbn [print_menu]; keeps_go. Qed.

Lemma keeps_get_test_domain : keeps R get_test_domain.
Proof.
  unfold get_test_domain. pose proof keeps_int as Hint.
  pose proof (keeps_print_menu domains 1) as Hmenu.
  assert (Hitem : forall i : Z, keeps R (item domains i)) by (intros i; apply keeps_item).
  keeps_go. apply keeps_prompt_loop. unfold get_test_domain_round. keeps_go.
Qed.

Lemma keeps_create_sample_servers (filename : string) :
  writes filename -> keeps R (create_sample_servers filename).
Proof. intros Hf. unfold create_sample_servers, script_path. keeps_go. Qed.

Lemma keeps_load_servers_body (again : M (list string)) (filename : string) :
  writes filename -> keeps R again -> keeps R (load_servers_body again filename).
Proof.
  intros Hf Ha. pose proof (keeps_create_sample_servers filename Hf).
  unfold load_servers_body, script_path. keeps_go.
Qed.

Lemma keeps_load_servers (filename : string) : writes filename -> keeps R (load_servers filename).
Proof.
  intros Hf. unfold load_servers. generalize recursion_limit. intros depth.
  induction depth as [|depth IH]; cbn [load_servers_within].
  - apply keeps_raise.
  - now apply keeps_load_servers_body.
Qed.

Lemma keeps_write_header (env : Env) (domain : string) :
  writes ledger_path -> keeps R (write_header env domain).
Proof. intros Hl. unfold write_header. keeps_go. Qed.

Lemma keeps_real_time_save (info : string) : writes ledger_path -> keeps R (real_time_save info).
Proof. intros Hl. unfold real_time_save. keeps_go. Qed.

Lemma keeps_test_single_server (env : Env) (server domain : string) (t : Z) :
  writes ledger_path -> allowed (probe_resolver server t, domain, "A") ->
  keeps R (test_single_server env server domain t).
Proof.
  intros Hl Hq w.
  assert (Hsent : R w (after_query server domain t w)) by (apply R_query, Hq).
  destruct (test_single_server_cases env server domain t w)
    as [[Hn H] | [(Hn & Hc & H) | [(m & Hq' & H) | [(f & o & ms & Hq' & Hr & H)
       | (e & ms & Hq' & Hr & H)]]]]; rewrite H; cbn [snd]; try apply R_refl.
  - eapply R_trans; [exact Hsent|]. now apply keeps_real_time_save.
  - exact Hsent.
Qed.

Lemma keeps_attempt {A : Type} (m : M A) : keeps R m -> keeps R (attempt m).
Proof. intros Hm w. apply Hm. Qed.

Lemma keeps_resume {A : Type} (r : result A) : keeps R (resume r).
Proof. intros w. apply R_refl. Qed.

Lemma keeps_probe_begin (env : Env) (server domain : string) (t : Z) :
  allowed (probe_resolver server t, domain, "A") ->
  keeps R (probe_begin env server domain t).
Proof.
  intros Hq w. rewrite probe_begin_eq. cbn [snd]. unfold asked_world.
  destruct (queried env server); [apply R_query, Hq | apply R_refl].
Qed.

Lemma keeps_probe_end (env : Env) (server domain : string) (t : Z) (s : started) :
  writes ledger_path -> keeps R (probe_end env server domain t s).
Proof.
  intros Hl. unfold probe_end.
  assert (Hitem : forall (l : list string) (i : Z), keeps R (item l i))
    by (intros l i; apply keeps_item).
  assert (Hsave : forall info : string, keeps R (real_time_save info))
    by (intros info; now apply keeps_real_time_save).
  assert (Hres : forall r : result (list string), keeps R (resume r))
    by (intros r; apply keeps_resume).
  destruct s as [early|resolver answer]; keeps_go.
Qed.

Lemma keeps_work (env : Env) (domain : string) (t : Z) (server : string) (tk : task) :
  writes ledger_path -> allowed (probe_resolver server t, domain, "A") ->
  keeps R (work env domain t server tk).
Proof.
  intros Hl Hq. unfold work.
  pose proof (keeps_attempt _ (keeps_probe_begin env server domain t Hq)) as Hb.
  assert (He : forall s : started, keeps R (attempt (probe_end env server domain t s)))
    by (intros s; now apply keeps_attempt, keeps_probe_end).
  destruct tk as [|s|r]; keeps_go.
Qed.

Lemma keeps_finish (env : Env) (domain : string) (t : Z) (server : string) (tk : task) :
  writes ledger_path -> allowed (probe_resolver server t, domain, "A") ->
  keeps R (finish env domain t server tk).
Proof.
  intros Hl Hq. unfold finish.
  pose proof (keeps_probe_begin env server domain t Hq) as Hb.
  assert (He : forall s : started, keeps R (probe_end env server domain t s))
    by (intros s; now apply keeps_probe_end).
  destruct tk as [|s|r]; [apply keeps_attempt | apply keeps_attempt |]; keeps_go.
Qed.

Lemma keeps_worker_step (env : Env) (domain : string) (t : Z) (servers : list string)
    (j : nat) (tasks : list task) :
  writes ledger_path ->
  Forall (fun s => allowed (probe_resolver s t, domain, "A")) servers ->
  keeps R (worker_step env domain t servers j tasks).
Proof.
  intros Hl Hall. unfold worker_step.
  destruct (servers !! j) as [s|] eqn:Hs; [|apply keeps_ret].
  destruct (tasks !! j) as [tk|]; [|apply keeps_ret].
  assert (Hq : allowed (probe_resolver s t, domain, "A")).
  { rewrite Forall_forall in Hall. apply Hall. eapply list_elem_of_lookup_2, Hs. }
  pose proof (keeps_work env domain t s tk Hl Hq). keeps_go.
Qed.

Lemma keeps_workers_run (env : Env) (domain : string) (t : Z) (servers : list string)
    (schedule : list nat) :
  writes ledger_path ->
  Forall (fun s => allowed (probe_resolver s t, domain, "A")) servers ->
  forall tasks : list task, keeps R (workers_run env domain t servers schedule tasks).
Proof.
  intros Hl Hall. induction schedule as [|j schedule IH]; intros tasks; cbn [workers_run].
  - apply keeps_ret.
  - apply keeps_bind; [now apply keeps_worker_step | exact IH].
Qed.

Lemma keeps_collect (env : Env) (pool : Pool) (workers : Z) (domain : string) (t : Z)
    (d : gmap nat string) (servers : list string) (futures : list (nat * string)) :
  writes ledger_path ->
  Forall (fun s => allowed (probe_resolver s t, domain, "A")) servers ->
  Forall (fun f => allowed (probe_resolver (snd f) t, domain, "A")) futures ->
  forall (tasks : list task) (taken : nat)
         (working : list (string * option Q)) (failed : list string),
    keeps R (collect env pool workers domain t d servers futures tasks taken working failed).
Proof.
  intros Hl Hservers. induction futures as [|[i s] rest IH];
    intros Hall tasks taken working failed.
  - cbn [collect]. apply keeps_ret.
  - inversion Hall as [|? ? Hs Hrest]; subst. cbn [snd] in Hs. cbn [collect].
    apply keeps_bind; [now apply keeps_workers_run | intros tasks1].
    apply keeps_bind; [now apply keeps_finish | intros r].
    cbv zeta. apply keeps_bind; [|intros lists; now apply IH].
    pose proof (keeps_resume r). unfold dict_get. keeps_go.
Qed.

Lemma keeps_test_all (env : Env) (pool : Pool) (servers : list string)
    (workers t : Z) (domain : string) :
  writes ledger_path ->
  Forall (fun s => allowed (probe_resolver s t, domain, "A")) servers ->
  keeps R (test_all env pool servers workers t domain).
Proof.
  intros Hl Hall. pose proof (keeps_write_header env domain Hl).
  unfold test_all. keeps_go. apply keeps_collect; [exact Hl | exact Hall |].
  apply Forall_forall. intros [i s] Hin. cbn [snd].
  unfold as_completed in Hin. rewrite sorted_by_perm in Hin.
  unfold submit_all in Hin. apply elem_of_lookup_imap in Hin as (j & x & [= -> ->] & Hx).
  rewrite Forall_forall in Hall. apply Hall. eapply list_elem_of_lookup_2, Hx.
Qed.

Lemma keeps_print_entries (entries : list (string * option Q)) :
  forall i : nat, keeps R (print_entries i entries).
Proof.
  induction entries as [|[s time] rest IH]; intros i; cbn [print_entries]; keeps_go.
Qed.

Lemma keeps_top5 (working : list (string * option Q)) : keeps R (top5 working).
Proof.
  unfold top5, sorted_working.
  assert (Hentries : forall l : list (string * option Q), keeps R (print_entries 1 l))
    by (intros l; apply keeps_print_entries).
  destruct working as [|x l]; keeps_go.
Qed.

Lemma keeps_report (env : Env) (servers : list string) (domain : string)
    (working : list (string * option Q)) (failed : list string) :
  keeps R (report env servers domain working failed).
Proof. pose proof (keeps_top5 working). unfold report. keeps_go. Qed.

Hypothesis allowed_candidates : forall (s domain : string) (t : Z),
  dotted_quad s = true -> (1 <= t <= 10)%Z -> allowed (probe_resolver s t, domain, "A").

Lemma keeps_check_dns_servers (env : Env) (pool : Pool) (filename : string) :
  writes filename -> writes ledger_path -> keeps R (check_dns_servers env pool filename).
Proof.
  intros Hf Hl. unfold check_dns_servers.
  apply keeps_bind; [apply keeps_print | intros _].
  apply keeps_bind; [apply keeps_print | intros _].
  apply (keeps_bind_post (fun servers => Forall (fun s => dotted_quad s = true) servers));
    [|now apply keeps_load_servers|].
  { intros w servers. apply load_servers_returns.
    - constructor.
    - intros content. apply Forall_forall. intros s Hs.
      apply elem_of_elements, elem_of_list_to_set in Hs.
      pose proof (scan_quads (chars content) None 0) as Hall.
      rewrite Forall_forall in Hall. destruct (Hall s Hs) as [Hq _].
      rewrite <- (text_chars s). now apply quad_text_dotted. }
  intros servers Hquads. destruct servers as [|s l]; [keeps_go|].
  apply keeps_bind; [apply keeps_get_worker_count | intros workers].
  apply (keeps_bind_post (fun t => (1 <= t <= 10)%Z)); [|apply keeps_get_timeout|].
  { intros w t. rewrite get_timeout_value. apply first_number_range. lia. }
  intros t Ht.
  apply keeps_bind; [apply keeps_get_test_domain | intros domain].
  apply keeps_bind; [|intros lists; apply keeps_report].
  apply keeps_test_all; [exact Hl|].
  eapply Forall_impl; [exact Hquads|]. intros x Hx. now apply allowed_candidates.
Qed.

Lemma keeps_main (env : Env) (pool : Pool) (w : World) :
  writes "dns_servers.txt" -> writes ledger_path -> R w (snd (main env pool w)).
Proof.
  intros Hf Hl. unfold main.
  assert (Hrun : keeps R (check_dns_servers env pool "dns_servers.txt";;
                          print (newline +:+ "Testing complete!");;
                          input (newline +:+ "Press Enter to exit..."))).
  { pose proof (keeps_check_dns_servers env pool "dns_servers.txt" Hf Hl). keeps_go. }
  specialize (Hrun w).
  destruct ((check_dns_servers env pool "dns_servers.txt";;
             print (newline +:+ "Testing complete!");;
             input (newline +:+ "Press Enter to exit...")) w) as [[r|e] w1];
    cbn [snd] in *; [exact Hrun|].
  rewrite isinstance_Exception. cbn [snd].
  eapply R_trans; [exact Hrun | apply keeps_print].
Qed.

End Frame.

Lemma same_files_but_refl (paths : list string) (w : World) : same_files_but paths w w.
Proof. intros p _. reflexivity. Qed.

Lemma same_files_but_trans (paths : list string) (a b c : World) :
  same_files_but paths a b -> same_files_but paths b c -> same_files_but paths a c.
Proof. intros H1 H2 p Hp. rewrite (H2 p Hp). apply H1, Hp. Qed.

Lemma same_files_but_write (paths : list string) (p : string)
    (g : gmap string string -> string) (w : World) :
  p ∈ paths -> same_files_but paths w (with_files (fun fs => <[p := g fs]> fs) w).
Proof.
  intros Hp x Hx. cbn [files with_files]. apply lookup_insert_ne. intros ->. contradiction.
Qed.

Lemma sends_only_refl (allowed : Resolver * string * string -> Prop) (w : World) :
  sends_only allowed w w.
Proof. exists []. split; [now rewrite app_nil_r | constructor]. Qed.

Lemma sends_only_trans (allowed : Resolver * string * string -> Prop) (a b c : World) :
  sends_only allowed a b -> sends_only allowed b c -> sends_only allowed a c.
Proof.
  intros (n1 & H1 & F1) (n2 & H2 & F2). exists (n1 ++ n2). split.
  - now rewrite H2, H1, app_assoc.
  - apply Forall_app. split; assumption.
Qed.

Lemma candidate_query_probe (s domain : string) (t : Z) :
  dotted_quad s = true -> (1 <= t <= 10)%Z ->
  candidate_query (probe_resolver s t, domain, "A").
Proof.
  intros Hs Ht. unfold candidate_query, probe_resolver. cbn [fst snd configure nameservers
    timeout lifetime]. split; [reflexivity|]. split; [exists s; auto|]. auto.
Qed.

(** X20: a run reads and writes two files, the list of candidates and
    the ledger: however it goes and however it ends, every other file is
    as it was. *)
Theorem run_touches_two_files (env : Env) (pool : Pool) (filename : string) (w : World)
    (p : string) :
  p <> ledger_path ->
  (p <> filename ->
   files (snd (check_dns_servers env pool filename w)) !! p = files w !! p)
  /\ (p <> "dns_servers.txt" -> files (snd (main env pool w)) !! p = files w !! p).
Proof.
  intros Hl. split; intros Hf.
  - assert (Hkeeps : keeps (same_files_but [filename; ledger_path])
                       (check_dns_servers env pool filename)).
    { apply (keeps_check_dns_servers (same_files_but [filename; ledger_path])
               (fun x => x ∈ [filename; ledger_path]) (fun _ => True)).
      - apply same_files_but_refl.
      - apply same_files_but_trans.
      - intros f w0 x _. reflexivity.
      - intros f w0 x _. reflexivity.
      - intros x g w0. apply same_files_but_write.
      - intros q w0 _ x _. reflexivity.
      - intros; exact I.
      - left.
      - right. left. }
    apply Hkeeps. intros Hp. apply list_elem_of_In in Hp. cbn in Hp. intuition congruence.
  - assert (Hrun : same_files_but ["dns_servers.txt"; ledger_path] w (snd (main env pool w))).
    { apply (keeps_main (same_files_but ["dns_servers.txt"; ledger_path])
               (fun x => x ∈ ["dns_servers.txt"; ledger_path]) (fun _ => True)).
      - apply same_files_but_refl.
      - apply same_files_but_trans.
      - intros f w0 x _. reflexivity.
      - intros f w0 x _. reflexivity.
      - intros x g w0. apply same_files_but_write.
      - intros q w0 _ x _. reflexivity.
      - intros; exact I.
      - left.
      - right. left. }
    apply Hrun. intros Hp. apply list_elem_of_In in Hp. cbn in Hp. intuition congruence.
Qed.

Lemma run_touches_two_files_witness :
  files (snd (main scenario_env last_first second_run_world)) !! "notes.txt"
  = files second_run_world !! "notes.txt".
Proof.
  apply (run_touches_two_files scenario_env last_first "dns_servers.txt" second_run_world
           "notes.txt"); discriminate.
Defined.

(** X21: every query a run sends goes to one dotted quad, which
    [load_servers] has returned, without the system's resolver
    configuration, for A records, with one timeout from 1 to 10 seconds;
    this holds however the run goes and however it ends. *)
Theorem run_sends_candidate_queries (env : Env) (pool : Pool) (w : World) :
  exists new : list (Resolver * string * string),
    queries (snd (main env pool w)) = queries w ++ new
    /\ Forall candidate_query new.
Proof.
  apply (keeps_main (sends_only candidate_query) (fun _ => True) candidate_query).
  - apply sends_only_refl.
  - apply sends_only_trans.
  - intros f w0. exists []. split; [symmetry; apply app_nil_r | constructor].
  - intros f w0. exists []. split; [symmetry; apply app_nil_r | constructor].
  - intros x g w0 _. exists []. split; [symmetry; apply app_nil_r | constructor].
  - intros q w0 Hq. exists [q]. split; [reflexivity|]. now constructor.
  - apply candidate_query_probe.
  - exact I.
  - exact I.
Qed.

(** ** The ledger after a run *)








(** The three orders of a run are the pool's to choose: here the futures
    are taken in the order of submission, the second worker asks first,
    and the first saves first. *)
Example orders_of_a_run :
  let pool := {| completes := completes overtaking;
                 runs := fun _ k => match k with
                                    | O => [1; 0; 0; 1]%nat
                                    | S _ => []
                                    end |} in
  let run := check_dns_servers two_answers_env pool "dns_servers.txt" two_candidates_world in
  fst run = Ret [("1.1.1.1", Some 20%Q); ("8.8.8.8", Some 31%Q)]
  /\ map (fun q => nameservers q.1.1) (queries (snd run)) = [["8.8.8.8"]; ["1.1.1.1"]]
  /\ files (snd run) !! ledger_path
     = Some (unlines [ "# Working DNS servers - Tested: 2024-01-01 12:00:00";
                       "# Test domain: example.com";
                       "# Format: IP (response_time_ms)";
                       "1.1.1.1 (20ms)";
                       "8.8.8.8 (31ms)" ]).
Proof. vm_compute. repeat split. Qed.
